(** * Raydium sniper bot: screening, pricing, endpoint racing and the
      position life cycle, embedded from the Python sources.

    Conventions of the embedding.
    - A Python [float] that is only compared, or combined by one division,
      is a rational ([Q]): every finite float is a rational and the float
      order is the rational order on them. Where the code adds, subtracts
      or multiplies floats (profit and loss, liquidity, the win rate) the
      value is the exact rational: rounding is left out, and what is
      proved of such a value is proved of the exact arithmetic.
    - [bytes] is [list byte]; a [dict] keyed by strings is a [gmap string _];
      a [set] of strings is a [gset string].
    - A coroutine whose body awaits the network receives the answer of the
      network as an argument: [inl e] when the awaited call raised [e],
      [inr v] when it returned [v].
    - Module-level state ([state], [config]) is passed explicitly. *)

From Stdlib Require Import ZArith QArith Lia Lqa List.
From Stdlib Require Import Strings.Byte Strings.Ascii Strings.String.
From stdpp Require Import gmap strings list pretty.
Import ListNotations.

Local Open Scope string_scope.
Local Open Scope Z_scope.

Set Warnings "-clear-no-such-hyp".

(** ** Python helpers *)

(** [s[:n]] on a [str]. *)
Definition str_prefix (n : nat) (s : string) : string := String.substring 0 n s.

(** Outcome of an awaited call: the text of the exception, or the value. *)
Definition awaited (A : Type) : Type := (string + A)%type.

(* ================================================================== *)
(** ** rug_checker.py *)
(* ================================================================== *)

Module RugChecker.

Inductive RiskLevel : Set := LOW | MEDIUM | HIGH.

(** The [Dict] every check returns: [{"passed": ..., "reason": ...}]. *)
Record CheckDict : Set := mkCheck { passed : bool; reason : string }.

(** [details[check_name]]: an error record or the check's own dict. *)
Inductive Detail : Set :=
| DetailError (detail : string)
| DetailCheck (d : CheckDict).

Record RugCheckResult : Set := mkResult {
  is_safe : bool;
  risk_level : RiskLevel;
  checks_passed : Z;
  checks_failed : Z;
  failures : list string;
  details : list (string * Detail)
}.

(** [account_info] as the two authority checks see it: the call raised,
    [account_info.value] is [None], or the account's [data]. *)
Definition AccountInfo : Type := awaited (option (list byte)).

(** [data[i] == 1 if len(data) > i else False] *)
Definition flag_set (i : nat) (data : list byte) : bool :=
  if (i <? length data)%nat
  then match data !! i with
       | Some b => Byte.eqb b x01
       | None => false
       end
  else false.

Definition _check_mint_authority (account_info : AccountInfo) : CheckDict :=
  match account_info with
  | inl e => mkCheck false ("Error: " ++ str_prefix 50 e)
  | inr None => mkCheck false "Token account not found"
  | inr (Some data) =>
      let has_mint_authority := flag_set 0 data in
      if has_mint_authority
      then mkCheck false "Mint authority not renounced (can create infinite tokens)"
      else mkCheck true "Mint authority renounced ✓"
  end.

Definition _check_freeze_authority (account_info : AccountInfo) : CheckDict :=
  match account_info with
  | inl e => mkCheck false ("Error: " ++ str_prefix 50 e)
  | inr None => mkCheck false "Token account not found"
  | inr (Some data) =>
      let has_freeze_authority := flag_set 45 data in
      if has_freeze_authority
      then mkCheck false "Freeze authority not renounced (can freeze tokens)"
      else mkCheck true "Freeze authority renounced ✓"
  end.

Definition _skip_check (check_name : string) : CheckDict :=
  mkCheck true (check_name ++ " skipped").

Definition check_names : list string :=
  [ "mint_authority"; "freeze_authority"; "holder_distribution";
    "liquidity"; "creator_history" ].

(** One element of what [asyncio.gather(..., return_exceptions=True)]
    returns: the exception a check raised, or the dict it returned. *)
Definition Gathered : Type := awaited CheckDict.

(** The loop variables of [check_token_safety]. *)
Record Tally : Set := mkTally {
  t_passed : Z;
  t_failures : list string;
  t_details : list (string * Detail)
}.

(** Body of [for i, (check_name, result) in enumerate(zip(...))]. *)
Definition tally_step (t : Tally) (item : string * Gathered) : Tally :=
  let '(check_name, result) := item in
  match result with
  | inl e =>
      mkTally (t_passed t)
              (t_failures t ++ [check_name ++ ": " ++ str_prefix 50 e])
              (t_details t ++ [(check_name, DetailError (str_prefix 100 e))])
  | inr d =>
      if passed d
      then mkTally (t_passed t + 1) (t_failures t)
                   (t_details t ++ [(check_name, DetailCheck d)])
      else mkTally (t_passed t)
                   (t_failures t ++ [check_name ++ ": " ++ reason d])
                   (t_details t ++ [(check_name, DetailCheck d)])
  end.

Definition tally (results : list Gathered) : Tally :=
  fold_left tally_step (zip check_names results) (mkTally 0 [] []).

(** The decision after the loop. *)
Definition verdict (checks_passed : Z) : RiskLevel * bool :=
  if 4 <=? checks_passed then (LOW, true)
  else if 3 <=? checks_passed then (MEDIUM, false)
  else (HIGH, false).

(** [check_token_safety]: [gathered] is what the [await asyncio.gather]
    produced, [inl e] when the [try] body raised [e] (the handler of the
    outer [except]). *)
Definition check_token_safety (gathered : awaited (list Gathered))
  : RugCheckResult :=
  match gathered with
  | inr results =>
      let t := tally results in
      let checks_passed := t_passed t in
      let checks_failed := 5 - checks_passed in
      let '(risk_level, is_safe) := verdict checks_passed in
      mkResult is_safe risk_level checks_passed checks_failed
               (t_failures t) (t_details t)
  | inl e =>
      mkResult false HIGH 0 5 ["Critical error: " ++ e]
               [("error", DetailError e)]
  end.

(** Number of checks, among those the loop visits, that returned a dict
    with [passed] true. *)
Definition is_pass (r : Gathered) : bool :=
  match r with
  | inr d => passed d
  | inl _ => false
  end.

Definition count_passed (results : list Gathered) : Z :=
  Z.of_nat (length (List.filter is_pass (take 5 results))).

Definition pass_value (r : Gathered) : Z := if is_pass r then 1 else 0.

(** Three passes and two failures: the majority that is rejected. *)
Definition three_of_five : list Gathered :=
  [ inr (mkCheck true "Mint authority renounced ✓");
    inr (mkCheck true "Freeze authority renounced ✓");
    inr (mkCheck false "No holders found");
    inr (mkCheck true "Liquidity check skipped (no data)");
    inr (mkCheck false "Creator wallet has very few transactions (suspicious)") ].

End RugChecker.

(* ================================================================== *)
(** ** price_calculator.py *)
(* ================================================================== *)

Module PriceCalculator.

(** *** The part of [construct] the layout uses *)

Inductive Subcon : Set :=
| Int64ul
| Bytes (n : nat)
| Padding (n : nat).

(** A member of a [Struct]: ["name" / subcon], or an anonymous subcon. *)
Definition Field : Set := (option string * Subcon)%type.

Inductive Value : Set :=
| VInt (n : N)
| VBytes (bs : list byte).

(** Parsing raises [construct.StreamError] when the stream ends early. *)
Inductive ConstructError : Set := StreamError.

Definition Container : Set := list (string * Value).

Definition sizeof (c : Subcon) : nat :=
  match c with
  | Int64ul => 8
  | Bytes n => n
  | Padding n => n
  end.

Definition struct_sizeof (fs : list Field) : nat :=
  foldr (fun f acc => (sizeof (snd f) + acc)%nat) 0%nat fs.

(** [stream.read(n)], checked as construct's [stream_read] does. *)
Definition stream_read (n : nat) (stream : list byte)
  : ConstructError + (list byte * list byte) :=
  if (n <=? length stream)%nat
  then inr (take n stream, drop n stream)
  else inl StreamError.

(** Unsigned little-endian integer of a byte string. *)
Fixpoint le_to_N (bs : list byte) : N :=
  match bs with
  | [] => 0
  | b :: rest => Byte.to_N b + 256 * le_to_N rest
  end%N.

Definition build_value (c : Subcon) (bs : list byte) : option Value :=
  match c with
  | Int64ul => Some (VInt (le_to_N bs))
  | Bytes _ => Some (VBytes bs)
  | Padding _ => None
  end.

(** [Struct._parse]: the members in order, each from where the previous
    one stopped; named members are stored in the container. *)
Fixpoint parse_fields (fs : list Field) (stream : list byte) (ctx : Container)
  : ConstructError + Container :=
  match fs with
  | [] => inr ctx
  | (name, c) :: fs' =>
      match stream_read (sizeof c) stream with
      | inl e => inl e
      | inr (bs, rest) =>
          let ctx' := match name, build_value c bs with
                      | Some k, Some v => (ctx ++ [(k, v)])%list
                      | _, _ => ctx
                      end in
          parse_fields fs' rest ctx'
      end
  end.

(** [Struct.parse(data)]: bytes after the last member are ignored. *)
Definition parse (layout : list Field) (data : list byte)
  : ConstructError + Container :=
  parse_fields layout data [].

Definition int64 (name : string) : Field := (Some name, Int64ul).
Definition bytes32 (name : string) : Field := (Some name, Bytes 32).

Definition RAYDIUM_POOL_V4_LAYOUT : list Field :=
  [ int64 "status"; int64 "nonce"; int64 "max_order"; int64 "depth";
    int64 "base_decimal"; int64 "quote_decimal"; int64 "state";
    int64 "reset_flag"; int64 "min_size"; int64 "vol_max_cut_ratio";
    int64 "amount_wave_ratio"; int64 "base_lot_size"; int64 "quote_lot_size";
    int64 "min_price_multiplier"; int64 "max_price_multiplier";
    int64 "system_decimal_value"; int64 "min_separate_numerator";
    int64 "min_separate_denominator"; int64 "trade_fee_numerator";
    int64 "trade_fee_denominator"; int64 "pnl_numerator";
    int64 "pnl_denominator"; int64 "swap_fee_numerator";
    int64 "swap_fee_denominator"; int64 "base_need_take_pnl";
    int64 "quote_need_take_pnl"; int64 "quote_total_pnl";
    int64 "base_total_pnl"; int64 "pool_open_time"; int64 "punish_pc_amount";
    int64 "punish_coin_amount"; int64 "orderbook_to_init_time";
    int64 "swap_base_in_amount"; int64 "swap_quote_out_amount";
    int64 "swap_base2_quote_fee"; int64 "swap_quote_in_amount";
    int64 "swap_base_out_amount"; int64 "swap_quote2_base_fee";
    bytes32 "base_vault"; bytes32 "quote_vault"; bytes32 "base_mint";
    bytes32 "quote_mint"; bytes32 "lp_mint"; bytes32 "open_orders";
    bytes32 "market_id"; bytes32 "market_program_id";
    bytes32 "target_orders"; bytes32 "withdraw_queue"; bytes32 "lp_vault";
    bytes32 "owner";
    (None, Padding 32);
    (None, Padding (8 * 3)) ].

(** The fixed size of the layout, in bytes. *)
Definition POOL_LAYOUT_SIZE : nat :=
  Eval vm_compute in struct_sizeof RAYDIUM_POOL_V4_LAYOUT.

(** [pool_data.<name>] for a [Bytes] member. *)
Fixpoint attr_bytes (name : string) (ctx : Container) : option (list byte) :=
  match ctx with
  | [] => None
  | (k, v) :: rest =>
      if String.eqb k name
      then match v with VBytes bs => Some bs | VInt _ => None end
      else attr_bytes name rest
  end.

(** *** [solders.Pubkey]: 32 bytes, printed in base 58 *)

Definition b58_alphabet : string :=
  "123456789ABCDEFGHJKLMNPQRSTUVWXYZabcdefghijkmnopqrstuvwxyz".

Definition b58_char (d : N) : ascii :=
  match String.get (N.to_nat d) b58_alphabet with
  | Some c => c
  | None => "1"%char
  end.

Fixpoint be_to_N (bs : list byte) (acc : N) : N :=
  match bs with
  | [] => acc
  | b :: rest => be_to_N rest (acc * 256 + Byte.to_N b)%N
  end.

Fixpoint b58_digits (fuel : nat) (n : N) (acc : string) : string :=
  match fuel with
  | O => acc
  | S fuel' =>
      if (n =? 0)%N then acc
      else b58_digits fuel' (n / 58)%N (String (b58_char (n mod 58)%N) acc)
  end.

Fixpoint leading_ones (bs : list byte) : string :=
  match bs with
  | x00 :: rest => String "1"%char (leading_ones rest)
  | _ => ""
  end.

Definition b58encode (bs : list byte) : string :=
  leading_ones bs ++ b58_digits (2 * length bs) (be_to_N bs 0%N) "".

(** [str(Pubkey(bs))]; the constructor raises unless [bs] has 32 bytes. *)
Definition Pubkey_str (bs : list byte) : option string :=
  if (length bs =? 32)%nat then Some (b58encode bs) else None.

Fixpoint b58_index (c : ascii) (alphabet : string) (i : N) : option N :=
  match alphabet with
  | EmptyString => None
  | String a rest => if Ascii.eqb a c then Some i else b58_index c rest (i + 1)%N
  end.

Fixpoint b58_value (s : string) (acc : N) : option N :=
  match s with
  | EmptyString => Some acc
  | String c rest =>
      match b58_index c b58_alphabet 0%N with
      | Some d => b58_value rest (acc * 58 + d)%N
      | None => None
      end
  end.

Fixpoint leading_zeros (s : string) : list byte :=
  match s with
  | String "1"%char rest => x00 :: leading_zeros rest
  | _ => []
  end.

Fixpoint N_to_be (fuel : nat) (n : N) (acc : list byte) : list byte :=
  match fuel with
  | O => acc
  | S fuel' =>
      if (n =? 0)%N then acc
      else N_to_be fuel' (n / 256)%N
                   (default x00 (Byte.of_N (n mod 256)%N) :: acc)
  end.

Definition b58decode (s : string) : option (list byte) :=
  match b58_value s 0%N with
  | Some n => Some (leading_zeros s ++ N_to_be (String.length s) n [])%list
  | None => None
  end.

(** [Pubkey.from_string(s)]: the 32 bytes [s] stands for; [None] when the
    call raises ([s] is not base 58, or not of 32 bytes). *)
Definition Pubkey_from_string (s : string) : option (list byte) :=
  match b58decode s with
  | Some bs => if (length bs =? 32)%nat then Some bs else None
  | None => None
  end.

(** *** The calculator *)

Definition SOL_MINT : string := "So11111111111111111111111111111111111111112".

(** [balance_info.value] of [get_token_account_balance]. *)
Record UiTokenAmount : Set := mkAmount {
  amount : Z;
  decimals : nat;
  ui_amount : option Q
}.

(** The chain as the calculator reads it, by base-58 address. The answer
    to an address is the outcome of the code from [Pubkey.from_string] to
    the call, which sit in one [try]: for a string that is no address it
    is [inl], the exception of [Pubkey.from_string]. *)
Record Chain : Type := mkChain {
  get_account_info : string -> awaited (option (list byte));
  get_token_account_balance : string -> awaited (option UiTokenAmount)
}.

(** The dict [_get_token_account_balance] returns. *)
Record BalanceDict : Set := mkBalance {
  b_amount : Z;
  b_decimals : nat;
  b_ui_amount : Q
}.

Definition _get_token_account_balance (chain : Chain) (account_address : string)
  : option BalanceDict :=
  match get_token_account_balance chain account_address with
  | inl _ => None
  | inr None => None
  | inr (Some v) =>
      Some (mkBalance (amount v) (decimals v)
                      (match ui_amount v with Some q => q | None => 0%Q end))
  end.

(** [reserve / (10 ** decimals)] *)
Definition adjust (reserve : Z) (decimals : nat) : Q :=
  (inject_Z reserve / inject_Z (10 ^ Z.of_nat decimals))%Q.

Definition get_token_price_in_sol (chain : Chain) (pool_address token_mint : string)
  : option Q :=
  match get_account_info chain pool_address with
  | inl _ => None
  | inr None => None
  | inr (Some []) => None
  | inr (Some data) =>
      match parse RAYDIUM_POOL_V4_LAYOUT data with
      | inl _ => None
      | inr pool_data =>
          match attr_bytes "base_vault" pool_data ≫= Pubkey_str,
                attr_bytes "quote_vault" pool_data ≫= Pubkey_str with
          | Some base_vault_pubkey, Some quote_vault_pubkey =>
              match _get_token_account_balance chain base_vault_pubkey,
                    _get_token_account_balance chain quote_vault_pubkey with
              | Some base_info, Some quote_info =>
                  let base_reserve := b_amount base_info in
                  let quote_reserve := b_amount quote_info in
                  let base_decimals := b_decimals base_info in
                  let quote_decimals := b_decimals quote_info in
                  let base_reserve_adjusted := adjust base_reserve base_decimals in
                  let quote_reserve_adjusted := adjust quote_reserve quote_decimals in
                  if Qeq_bool base_reserve_adjusted 0
                     || Qeq_bool quote_reserve_adjusted 0
                  then None
                  else
                    match attr_bytes "base_mint" pool_data ≫= Pubkey_str,
                          attr_bytes "quote_mint" pool_data ≫= Pubkey_str with
                    | Some base_mint, Some quote_mint =>
                        if String.eqb base_mint SOL_MINT
                        then Some (base_reserve_adjusted / quote_reserve_adjusted)%Q
                        else if String.eqb quote_mint SOL_MINT
                        then Some (quote_reserve_adjusted / base_reserve_adjusted)%Q
                        else None
                    | _, _ => None
                    end
              | _, _ => None
              end
          | _, _ => None
          end
      end
  end.

(** *** Views used to state properties *)

(** The members read from a stream known to be long enough. *)
Fixpoint read_fields (fs : list Field) (stream : list byte) : Container :=
  match fs with
  | [] => []
  | (name, c) :: fs' =>
      match name, build_value c (take (sizeof c) stream) with
      | Some k, Some v => [(k, v)]
      | _, _ => []
      end ++ read_fields fs' (drop (sizeof c) stream)
  end%list.

(** The 32 bytes at a byte offset of the account data. *)
Definition key_at (offset : nat) (data : list byte) : list byte :=
  take 32 (drop offset data).

Definition BASE_VAULT_OFFSET : nat := 304.
Definition QUOTE_VAULT_OFFSET : nat := 336.
Definition BASE_MINT_OFFSET : nat := 368.
Definition QUOTE_MINT_OFFSET : nat := 400.

(** The price the specification describes: the reserve of the side that
    is not the reference asset, divided by the reserve of the side that
    is. *)
Definition specified_price (base_is_reference : bool)
           (base_reserve quote_reserve : Q) : Q :=
  if base_is_reference
  then (quote_reserve / base_reserve)%Q
  else (base_reserve / quote_reserve)%Q.

(** The price the code derives: the reserve of the reference side divided
    by the reserve of the other side. *)
Definition reserve_ratio (base_is_reference : bool)
           (base_reserve quote_reserve : Q) : Q :=
  if base_is_reference
  then (base_reserve / quote_reserve)%Q
  else (quote_reserve / base_reserve)%Q.

(** The statement about price derivation, for either reading [ratio] of
    the price: for a pool account [data] of full size whose two vaults
    hold positive balances, the derivation returns [ratio] of the two
    adjusted reserves, taking the base side as the reference side when
    the base mint is SOL, else the quote side when the quote mint is SOL,
    and returns nothing when neither mint is SOL. *)
Definition derives_price (ratio : bool → Q → Q → Q) (chain : Chain)
           (pool_address token_mint : string) (data : list byte) : Prop :=
  ∀ base_info quote_info : BalanceDict,
    get_account_info chain pool_address = inr (Some data) →
    (POOL_LAYOUT_SIZE ≤ length data)%nat →
    _get_token_account_balance chain
      (b58encode (key_at BASE_VAULT_OFFSET data)) = Some base_info →
    _get_token_account_balance chain
      (b58encode (key_at QUOTE_VAULT_OFFSET data)) = Some quote_info →
    0 < b_amount base_info →
    0 < b_amount quote_info →
    let base_reserve := adjust (b_amount base_info) (b_decimals base_info) in
    let quote_reserve := adjust (b_amount quote_info) (b_decimals quote_info) in
    let base_mint := b58encode (key_at BASE_MINT_OFFSET data) in
    let quote_mint := b58encode (key_at QUOTE_MINT_OFFSET data) in
    let price := get_token_price_in_sol chain pool_address token_mint in
    (base_mint = SOL_MINT →
       ∃ p, price = Some p ∧ (p == ratio true base_reserve quote_reserve)%Q)
    ∧ (base_mint ≠ SOL_MINT → quote_mint = SOL_MINT →
       ∃ p, price = Some p ∧ (p == ratio false base_reserve quote_reserve)%Q)
    ∧ (base_mint ≠ SOL_MINT → quote_mint ≠ SOL_MINT → price = None).

(** *** A concrete pool *)

Definition SOL_MINT_BYTES : list byte :=
  [ x06; x9b; x88; x57; xfe; xab; x81; x84; xfb; x68; x7f; x63; x46; x18;
    xc0; x35; xda; xc4; x39; xdc; x1a; xeb; x3b; x55; x98; xa0; xf0; x00;
    x00; x00; x00; x01 ].

(** A pool whose base side is SOL: vaults at the addresses of 32 bytes
    [01] and 32 bytes [02], quote mint 32 bytes [03], all integer members
    zero. *)
Definition example_pool_data : list byte :=
  (repeat x00 304 ++ repeat x01 32 ++ repeat x02 32 ++ SOL_MINT_BYTES
   ++ repeat x03 32 ++ repeat x00 312)%list.

(** The address of the pool account (32 bytes [04]) and of its token
    (the quote mint). *)
Definition example_pool_address : string :=
  "GgBaCs3NCBuZN12kCJgAW63ydqohFkHEdfdEXBPzLHq".

Definition example_token_mint : string :=
  "CktRuQ2mttgRGkXJtyksdKHjUdc2C4TgDzyB98oEzy8".

(** The chain around it: the pool account at its address, no account at
    any other address; 2 SOL (9 decimals) in the base vault and 4 tokens
    (6 decimals) in the quote vault. *)
Definition example_chain : Chain :=
  mkChain
    (fun address =>
       match Pubkey_from_string address with
       | None => inl "Invalid Base58 string"
       | Some _ =>
           if String.eqb address example_pool_address
           then inr (Some example_pool_data)
           else inr None
       end)
    (fun address =>
       if String.eqb address (b58encode (repeat x01 32))
       then inr (Some (mkAmount 2000000000 9 (Some (2 # 1))))
       else if String.eqb address (b58encode (repeat x02 32))
       then inr (Some (mkAmount 4000000 6 (Some (4 # 1))))
       else inr None).

End PriceCalculator.

(* ================================================================== *)
(** ** rpc_pool.py *)
(* ================================================================== *)

Module RPCPool.

Section ParallelCall.

(** Python values other than [None]. *)
Context {V : Type}.

(** What one endpoint's client does during [call_rpc]:
    [method_result] is the outcome of [getattr] and of awaiting the
    method ([inr None] when it returns [None]); [close_result] is the
    outcome of [await client.close()] in the [finally] clause. *)
Record Client : Type := mkClient {
  url : string;
  method_result : awaited (option V);
  close_result : awaited unit
}.

(** The tuple [(idx, result, error)]. *)
Definition CallTuple : Type := (nat * option V * option string)%type.

(** Network events of a run, in program order per client. *)
Inductive Event : Set :=
| Called (idx : nat)
| Closed (idx : nat).

(** [call_rpc(client, idx)]: the tuple it returns, or the exception that
    leaves the coroutine when [close] raises in [finally]. *)
Definition call_rpc (client : Client) (idx : nat)
  : awaited CallTuple * list Event :=
  let tuple :=
    match method_result client with
    | inr result => (idx, result, None)
    | inl e => (idx, None, Some e)
    end in
  match close_result client with
  | inr _ => (inr tuple, [Called idx; Closed idx])
  | inl e => (inl e, [Called idx; Closed idx])
  end.

Inductive Outcome : Type :=
| Return (result : V)
| RaiseAllFailed (msg : string)
| RaiseTypeError.

Definition all_failed_message (method_name : string) : string :=
  "Todas las llamadas a " ++ method_name ++ " fallaron".

(** The loop [for idx, result, error in results]: an element that is an
    exception object cannot be unpacked. *)
Fixpoint first_success (method_name : string)
         (results : list (awaited CallTuple)) : Outcome :=
  match results with
  | [] => RaiseAllFailed (all_failed_message method_name)
  | inl _ :: _ => RaiseTypeError
  | inr (_, Some result, None) :: _ => Return result
  | inr _ :: rest => first_success method_name rest
  end.

(** [parallel_call]: one [call_rpc] per client, gathered with
    [return_exceptions=True], then the loop. *)
Definition parallel_call (clients : list Client) (method_name : string)
  : Outcome * list Event :=
  let tasks := imap (fun idx client => call_rpc client idx) clients in
  let results := map fst tasks in
  (first_success method_name results, concat (map snd tasks)).

(** The call of an endpoint succeeded: it did not raise. *)
Definition call_ok (c : Client) : Prop :=
  match method_result c with inr _ => True | inl _ => False end.

(** The call of an endpoint returned a value other than [None]. *)
Definition call_value (c : Client) : option V :=
  match method_result c with
  | inr (Some v) => Some v
  | _ => None
  end.

Definition close_ok (c : Client) : Prop :=
  match close_result c with inr _ => True | inl _ => False end.

(** The race property in the words of the specification: with one
    endpoint whose call succeeds the race returns a result, it fails with
    all-endpoints-failed only if every call raised, and every client has
    been closed at the end. *)
Definition race_as_specified (clients : list Client) (method_name : string)
  : Prop :=
  clients ≠ [] →
  ((∃ c, c ∈ clients ∧ call_ok c) →
     ∃ v, (parallel_call clients method_name).1 = Return v)
  ∧ (∀ msg, (parallel_call clients method_name).1 = RaiseAllFailed msg →
       ∀ c, c ∈ clients → ¬ call_ok c)
  ∧ (∀ i, (i < length clients)%nat →
       Closed i ∈ (parallel_call clients method_name).2).

(** The first value, in endpoint order, that a call returned. *)
Fixpoint first_value (clients : list Client) : option V :=
  match clients with
  | [] => None
  | c :: rest =>
      match call_value c with
      | Some v => Some v
      | None => first_value rest
      end
  end.

End ParallelCall.

Arguments Client : clear implicits.
Arguments Outcome : clear implicits.

(** A failing endpoint ahead of a healthy one. *)
Definition healthy_and_failing : list (Client string) :=
  [ mkClient "https://a.example.invalid" (inl "timeout") (inr ());
    mkClient "https://b.example.invalid" (inr (Some "1.18.0")) (inr ()) ].

(** An endpoint whose [close] raises, ahead of a healthy one. *)
Definition close_raises_first : list (Client string) :=
  [ mkClient "https://a.example.invalid" (inl "timeout") (inl "RuntimeError");
    mkClient "https://b.example.invalid" (inr (Some "1.18.0")) (inr ()) ].

(** Two endpoints asked for a method that returns [None] (such as
    [close]): the first answers, the second is unreachable. *)
Definition example_clients : list (Client string) :=
  [ mkClient "https://api.mainnet-beta.solana.com" (inr None) (inr ());
    mkClient "https://rpc.example.invalid" (inl "ConnectError") (inr ()) ].

(** *** The pool object *)

(** An insertion-ordered [dict] keyed by strings: assigning to a key that is
    present keeps its place, a new key goes to the end. *)
Fixpoint dict_set {A : Type} (k : string) (v : A) (d : list (string * A))
  : list (string * A) :=
  match d with
  | [] => [(k, v)]
  | (k', v') :: rest =>
      if String.eqb k' k then (k', v) :: rest
      else (k', v') :: dict_set k v rest
  end.

Fixpoint dict_get {A : Type} (k : string) (d : list (string * A)) : option A :=
  match d with
  | [] => None
  | (k', v') :: rest => if String.eqb k' k then Some v' else dict_get k rest
  end.

Definition rpc_keys : list string :=
  [ "HELIUS_RPC_URL"; "QUICKNODE_RPC_URL"; "TRITON_RPC_URL"; "ALCHEMY_RPC_URL" ].

Definition PUBLIC_RPC_URL : string := "https://api.mainnet-beta.solana.com".

(** [_load_rpc_urls]: [env] is [os.environ]; an empty value is falsy. *)
Definition _load_rpc_urls (env : gmap string string) : list string :=
  let urls :=
    fold_left (fun (urls : list string) (key : string) =>
                 match env !! key with
                 | Some url =>
                     if String.eqb url "" then urls else (urls ++ [url])%list
                 | None => urls
                 end)
              rpc_keys [] in
  match urls with
  | [] => [PUBLIC_RPC_URL]
  | _ => urls
  end.

Record Pool : Set := mkPool {
  rpc_urls : list string;
  current_index : nat;
  health_status : list (string * bool)
}.

(** [RPCPool.__init__]: [inl] is the [ValueError]. *)
Definition __init__ (env : gmap string string) : awaited Pool :=
  let rpc_urls := _load_rpc_urls env in
  let health_status := fold_left (fun d url => dict_set url true d) rpc_urls [] in
  match rpc_urls with
  | [] => inl "No se encontraron URLs de RPC en variables de entorno"
  | _ => inr (mkPool rpc_urls 0 health_status)
  end.

(** [get_client]: the URL the client is built for, [None] when indexing
    raises. [choice] is the draw of [random.choice], taken in range. *)
Definition get_client (random_selection : bool) (choice : nat) (pool : Pool)
  : option string * Pool :=
  if random_selection
  then (rpc_urls pool !! (choice mod length (rpc_urls pool))%nat, pool)
  else
    match rpc_urls pool !! current_index pool with
    | Some url =>
        (Some url,
         mkPool (rpc_urls pool)
                ((current_index pool + 1) mod length (rpc_urls pool))%nat
                (health_status pool))
    | None => (None, pool)
    end.

(** [n] consecutive calls of [get_client(random_selection=False)]. *)
Fixpoint round_robin (n : nat) (pool : Pool) : list (option string) * Pool :=
  match n with
  | O => ([], pool)
  | S n' =>
      let '(url, pool') := get_client false 0 pool in
      let '(urls, pool'') := round_robin n' pool' in
      (url :: urls, pool'')
  end.

Definition mark_unhealthy (url : string) (pool : Pool) : Pool :=
  match dict_get url (health_status pool) with
  | Some _ =>
      mkPool (rpc_urls pool) (current_index pool)
             (dict_set url false (health_status pool))
  | None => pool
  end.

Definition get_healthy_urls (pool : Pool) : list string :=
  map fst (List.filter snd (health_status pool)).

(** What the check of one URL meets: [version] is the outcome of
    building the client and of the version call (one of them raised or the
    call timed out, or [inr b] with [b] the truth value of the answer) and
    [close] that of [client.close()], which is awaited only when the
    version call returned. *)
Record Probe : Type := mkProbe {
  version : awaited bool;
  close : awaited unit
}.

(** ['//' in url] *)
Fixpoint has_separator (url : string) : bool :=
  String.prefix "//" url
  || match url with
     | EmptyString => false
     | String _ rest => has_separator rest
     end.

(** One turn of the loop of [health_check]. Everything from the version
    call to [client.close()] is in one [try], whose [except] sets the flag
    to [False]: after the flag is set to [True], taking the provider's name
    with [url.split('//')[1]] raises for a URL without ['//'], and
    [client.close()] may raise. *)
Definition check_url (probe : nat → Probe) (d : list (string * bool))
           (item : nat * string) : list (string * bool) :=
  let '(i, url) := item in
  match version (probe i) with
  | inl _ => dict_set url false d
  | inr true =>
      let d := dict_set url true d in
      if has_separator url
      then match close (probe i) with
           | inl _ => dict_set url false d
           | inr _ => d
           end
      else dict_set url false d
  | inr false =>
      let d := dict_set url false d in
      match close (probe i) with
      | inl _ => dict_set url false d
      | inr _ => d
      end
  end.

(** [health_check]: [probe i] is what the check of the [i]-th URL meets. *)
Definition health_check (probe : nat → Probe) (pool : Pool) : Pool :=
  let health_status :=
    fold_left (check_url probe)
              (imap (fun i url => (i, url)) (rpc_urls pool))
              (health_status pool) in
  mkPool (rpc_urls pool) (current_index pool) health_status.

(** The flag the check of a URL ends with: the version call answered with
    a true value, the URL has its ['//'] and the client was closed. *)
Definition probe_ok (probe : nat → Probe) (i : nat) (url : string) : bool :=
  match version (probe i), close (probe i) with
  | inr true, inr _ => has_separator url
  | _, _ => false
  end.

(** A pool of three endpoints, the round robin standing at the second. *)
Definition example_pool : Pool :=
  mkPool [ "https://a.example.invalid"; "https://b.example.invalid";
           "https://c.example.invalid" ]
         1
         [ ("https://a.example.invalid", true);
           ("https://b.example.invalid", false);
           ("https://c.example.invalid", true) ].

(** The first endpoint answers but closing its client raises, the second
    and the third answer and close. *)
Definition example_probe (i : nat) : Probe :=
  match i with
  | O => mkProbe (inr true) (inl "ClientConnectionError")
  | _ => mkProbe (inr true) (inr tt)
  end.

End RPCPool.

(* ================================================================== *)
(** ** raydium_sniper_bot.py *)
(* ================================================================== *)

(** [x < y] on rationals, as a boolean. *)
Definition Qlt_bool (x y : Q) : bool := negb (Qle_bool y x).

Module Config.
Record t : Set := mk {
  DRY_RUN : bool;
  TRADE_AMOUNT_SOL : Q;
  STOP_LOSS_PERCENT : Q;
  TAKE_PROFIT_1 : Q;
  TAKE_PROFIT_2 : Q;
  MAX_POSITIONS : Z;
  MAX_DAILY_TRADES : Z;
  POSITION_CHECK_INTERVAL : Z
}.

(** The values used when the environment sets none. *)
Definition default : t :=
  mk true (1 # 100) (-20 # 1) (50 # 1) (100 # 1) 3 20 10.
End Config.

Module NewPoolEvent.
Record t : Set := mk {
  pool_address : string;
  token_mint : string;
  sol_mint : string;
  liquidity_sol : Q;
  creator : string;
  timestamp : Q
}.
End NewPoolEvent.

Module Position.
Record t : Set := mk {
  token_mint : string;
  pool_address : string;
  entry_price_usd : Q;
  entry_time : Q;
  amount_sol : Q;
  highest_price : Q;
  lowest_price : Q;
  entry_tx : string;
  rug_check_passed : Z
}.

Definition current_pnl (self : t) (current_price : Q) : Q :=
  if Qle_bool (entry_price_usd self) 0 then 0%Q
  else (((current_price - entry_price_usd self) / entry_price_usd self)
        * (100 # 1))%Q.

(** [now] is the value of [time.time()] at the call. *)
Definition hold_time_minutes (self : t) (now : Q) : Q :=
  ((now - entry_time self) / (60 # 1))%Q.

Definition set_highest_price (self : t) (p : Q) : t :=
  mk (token_mint self) (pool_address self) (entry_price_usd self)
     (entry_time self) (amount_sol self) p (lowest_price self)
     (entry_tx self) (rug_check_passed self).

Definition set_lowest_price (self : t) (p : Q) : t :=
  mk (token_mint self) (pool_address self) (entry_price_usd self)
     (entry_time self) (amount_sol self) (highest_price self) p
     (entry_tx self) (rug_check_passed self).
End Position.

Module Stats.
(** The dict [state.stats], one field per key. *)
Record t : Set := mk {
  pools_detected : Z;
  pools_analyzed : Z;
  rug_checks_passed : Z;
  rug_checks_failed : Z;
  trades_executed : Z;
  trades_simulated : Z;
  wins : Z;
  losses : Z;
  total_pnl : Q;
  today_trades : Z
}.

Definition init : t := mk 0 0 0 0 0 0 0 0 0%Q 0.

Definition incr_pools_detected (s : t) : t :=
  mk (pools_detected s + 1) (pools_analyzed s) (rug_checks_passed s)
     (rug_checks_failed s) (trades_executed s) (trades_simulated s)
     (wins s) (losses s) (total_pnl s) (today_trades s).

Definition incr_pools_analyzed (s : t) : t :=
  mk (pools_detected s) (pools_analyzed s + 1) (rug_checks_passed s)
     (rug_checks_failed s) (trades_executed s) (trades_simulated s)
     (wins s) (losses s) (total_pnl s) (today_trades s).

Definition incr_rug_checks_passed (s : t) : t :=
  mk (pools_detected s) (pools_analyzed s) (rug_checks_passed s + 1)
     (rug_checks_failed s) (trades_executed s) (trades_simulated s)
     (wins s) (losses s) (total_pnl s) (today_trades s).

Definition incr_rug_checks_failed (s : t) : t :=
  mk (pools_detected s) (pools_analyzed s) (rug_checks_passed s)
     (rug_checks_failed s + 1) (trades_executed s) (trades_simulated s)
     (wins s) (losses s) (total_pnl s) (today_trades s).

(** The three updates after a successful buy. *)
Definition count_trade (dry_run : bool) (s : t) : t :=
  mk (pools_detected s) (pools_analyzed s) (rug_checks_passed s)
     (rug_checks_failed s)
     (if dry_run then trades_executed s else trades_executed s + 1)
     (if dry_run then trades_simulated s + 1 else trades_simulated s)
     (wins s) (losses s) (total_pnl s) (today_trades s + 1).

(** The updates of [exit_position]. *)
Definition count_exit (is_win : bool) (pnl : Q) (s : t) : t :=
  mk (pools_detected s) (pools_analyzed s) (rug_checks_passed s)
     (rug_checks_failed s) (trades_executed s) (trades_simulated s)
     (if is_win then wins s + 1 else wins s)
     (if is_win then losses s else losses s + 1)
     (total_pnl s + pnl)%Q (today_trades s).
End Stats.

Module BotState.
Record t : Type := mk {
  positions : gmap string Position.t;
  processed_pools : gset string;
  stats : Stats.t;
  running : bool;
  ws_connected : bool
}.

Definition init : t := mk ∅ ∅ Stats.init true false.

Definition set_positions (f : gmap string Position.t → gmap string Position.t)
           (s : t) : t :=
  mk (f (positions s)) (processed_pools s) (stats s) (running s)
     (ws_connected s).

Definition set_processed_pools (f : gset string → gset string) (s : t) : t :=
  mk (positions s) (f (processed_pools s)) (stats s) (running s)
     (ws_connected s).

Definition set_stats (f : Stats.t → Stats.t) (s : t) : t :=
  mk (positions s) (processed_pools s) (f (stats s)) (running s)
     (ws_connected s).
End BotState.

Module SniperBot.

(** *** The listener: reconnection delay *)

Definition initial_reconnect_delay : Z := 5.
Definition max_reconnect_delay : Z := 300.

(** Which handler of the [try] in [listen_new_pools] runs. *)
Inductive Raised : Set :=
| WebSocketException
| OtherException.

(** One turn of the [while state.running] loop, as the network decides it:
    an exception before the subscription is sent, or a subscription whose
    message stream then ends, normally or by an exception. *)
Inductive Attempt : Set :=
| ConnectFails (e : Raised)
| Subscribed (stream_end : option Raised).

(** The [try] body: the delay it leaves and the exception that ends it. *)
Definition try_connect (reconnect_delay : Z) (a : Attempt) : Z * option Raised :=
  match a with
  | ConnectFails e => (reconnect_delay, Some e)
  | Subscribed stream_end => (5, stream_end)
  end.

(** The [except] clauses: the sleep, if any, and the delay afterwards. *)
Definition on_exception (reconnect_delay : Z) (e : option Raised)
  : option Z * Z :=
  match e with
  | None => (None, reconnect_delay)
  | Some WebSocketException =>
      (Some reconnect_delay, Z.min (reconnect_delay * 2) max_reconnect_delay)
  | Some OtherException => (Some reconnect_delay, reconnect_delay)
  end.

Definition listen_turn (reconnect_delay : Z) (a : Attempt) : option Z * Z :=
  let '(d, e) := try_connect reconnect_delay a in
  on_exception d e.

(** The loop over a sequence of turns: the sleeps, in order, and the
    delay at the end. *)
Fixpoint listen_from (reconnect_delay : Z) (turns : list Attempt)
  : list Z * Z :=
  match turns with
  | [] => ([], reconnect_delay)
  | a :: rest =>
      let '(slept, d) := listen_turn reconnect_delay a in
      let '(sleeps, d') := listen_from d rest in
      (match slept with Some s => s :: sleeps | None => sleeps end, d')
  end.

Definition listen_new_pools (turns : list Attempt) : list Z * Z :=
  listen_from initial_reconnect_delay turns.

(** *** The listener: detection and deduplication *)

Definition lower_ascii (c : ascii) : ascii :=
  let n := nat_of_ascii c in
  if ((65 <=? n) && (n <=? 90))%nat then ascii_of_nat (n + 32) else c.

(** [s.lower()], on the ASCII letters. *)
Fixpoint lower (s : string) : string :=
  match s with
  | EmptyString => EmptyString
  | String c rest => String (lower_ascii c) (lower rest)
  end.

(** [needle in s] *)
Fixpoint contains (needle s : string) : bool :=
  String.prefix needle s
  || match s with
     | EmptyString => false
     | String _ rest => contains needle rest
     end.

(** [event["value"]] of a log notification. *)
Record LogEvent : Set := mkLogEvent {
  logs : list string;
  signature : option string
}.

Definition is_new_pool (logs : list string) : bool :=
  existsb (fun log => contains "initialize2" (lower log)
                      || contains "InitializeInstruction2" log) logs.

(** [process_log_event]: the new state and the tasks it creates, each
    [analyze_new_pool(signature)] named by its argument. *)
Definition process_log_event (event : LogEvent) (st : BotState.t)
  : BotState.t * list string :=
  let signature := default "unknown" (signature event) in
  if negb (is_new_pool (logs event)) then (st, [])
  else (BotState.set_stats Stats.incr_pools_detected st, [signature]).

(** [analyze_new_pool]: no [await] in its body, so it runs in one piece. *)
Definition analyze_new_pool (tx_signature : string) (st : BotState.t)
  : BotState.t :=
  if decide (tx_signature ∈ BotState.processed_pools st) then st
  else BotState.set_stats Stats.incr_pools_analyzed
         (BotState.set_processed_pools (fun s => s ∪ {[tx_signature]}) st).

(** The event loop around the listener: log events arrive, and tasks
    created earlier run, in any order. *)
Record Loop : Type := mkLoop {
  loop_state : BotState.t;
  pending : list string
}.

Inductive LoopStep : Type :=
| Deliver (event : LogEvent)
| RunTask (i : nat).

Definition loop_step (l : Loop) (s : LoopStep) : Loop :=
  match s with
  | Deliver event =>
      let '(st, created) := process_log_event event (loop_state l) in
      mkLoop st (pending l ++ created)
  | RunTask i =>
      match pending l !! i with
      | Some sig => mkLoop (analyze_new_pool sig (loop_state l))
                           (delete i (pending l))
      | None => l
      end
  end.

Definition loop_run (l : Loop) (steps : list LoopStep) : Loop :=
  fold_left loop_step steps l.

(** *** Entry: [analyze_and_trade_pool] *)

(** The position built after a successful buy. *)
Definition new_position (cfg : Config.t) (pool_event : NewPoolEvent.t)
           (rug_result : RugChecker.RugCheckResult) (price_usd : Q)
           (tx_sig : string) (now : Q) : Position.t :=
  Position.mk (NewPoolEvent.token_mint pool_event)
              (NewPoolEvent.pool_address pool_event)
              price_usd now (Config.TRADE_AMOUNT_SOL cfg)
              price_usd price_usd tx_sig
              (RugChecker.checks_passed rug_result).

(** Where the coroutine stands: not yet started, suspended at one of its
    three awaits that precede the insertion, or past its last update of
    the state (the remaining awaits only send a notification). *)
Inductive Coro : Type :=
| Created (pool_event : NewPoolEvent.t)
| AwaitRugCheck (pool_event : NewPoolEvent.t)
| AwaitPrice (pool_event : NewPoolEvent.t)
             (rug_result : RugChecker.RugCheckResult)
| AwaitBuy (pool_event : NewPoolEvent.t)
           (rug_result : RugChecker.RugCheckResult) (price_usd : Q)
| Finished.

(** What resumes the coroutine: its first scheduling, or the value of the
    call it awaits ([now] is [time.time()] after the buy). *)
Inductive Resume : Type :=
| Begin
| RugChecked (rug_result : RugChecker.RugCheckResult)
| Priced (price_usd : option Q)
| Bought (tx_sig : option string) (now : Q).

(** The code between two suspension points. *)
Definition resume (cfg : Config.t) (c : Coro) (r : Resume) (st : BotState.t)
  : BotState.t * Coro :=
  match c, r with
  | Created pool_event, Begin =>
      if Config.MAX_POSITIONS cfg <=? Z.of_nat (size (BotState.positions st))
      then (st, Finished)
      else if Config.MAX_DAILY_TRADES cfg
              <=? Stats.today_trades (BotState.stats st)
      then (st, Finished)
      else (st, AwaitRugCheck pool_event)
  | AwaitRugCheck pool_event, RugChecked rug_result =>
      if negb (RugChecker.is_safe rug_result)
      then (BotState.set_stats Stats.incr_rug_checks_failed st, Finished)
      else (BotState.set_stats Stats.incr_rug_checks_passed st,
            AwaitPrice pool_event rug_result)
  | AwaitPrice pool_event rug_result, Priced None => (st, Finished)
  | AwaitPrice pool_event rug_result, Priced (Some price_usd) =>
      if Qeq_bool price_usd 0 || Qle_bool price_usd 0
      then (st, Finished)
      else (st, AwaitBuy pool_event rug_result price_usd)
  | AwaitBuy pool_event rug_result price_usd, Bought None _ => (st, Finished)
  | AwaitBuy pool_event rug_result price_usd, Bought (Some tx_sig) now =>
      if String.eqb tx_sig "" then (st, Finished)
      else
        let st := BotState.set_stats
                    (Stats.count_trade (Config.DRY_RUN cfg)) st in
        let position :=
          new_position cfg pool_event rug_result price_usd tx_sig now in
        (BotState.set_positions
           (insert (NewPoolEvent.token_mint pool_event) position) st,
         Finished)
  | _, _ => (st, c)
  end.

(** The answers one run of the coroutine receives. *)
Record Answers : Type := mkAnswers {
  rug_answer : RugChecker.RugCheckResult;
  price_answer : option Q;
  buy_answer : option string;
  buy_time : Q
}.

(** [analyze_and_trade_pool] run from start to end with nothing else
    scheduled in between. *)
Definition analyze_and_trade_pool (cfg : Config.t)
           (pool_event : NewPoolEvent.t) (a : Answers) (st : BotState.t)
  : BotState.t :=
  let '(st, c) := resume cfg (Created pool_event) Begin st in
  let '(st, c) := resume cfg c (RugChecked (rug_answer a)) st in
  let '(st, c) := resume cfg c (Priced (price_answer a)) st in
  let '(st, c) := resume cfg c (Bought (buy_answer a) (buy_time a)) st in
  st.

(** Several analysis tasks on the event loop: the shared state and each
    task's coroutine. A schedule names, turn by turn, the task that runs
    and what resumes it. *)
Record Trading : Type := mkTrading {
  trading_state : BotState.t;
  tasks : list Coro
}.

Definition trading_step (cfg : Config.t) (w : Trading) (turn : nat * Resume)
  : Trading :=
  let '(i, r) := turn in
  match tasks w !! i with
  | Some c =>
      let '(st, c') := resume cfg c r (trading_state w) in
      mkTrading st (<[i := c']> (tasks w))
  | None => w
  end.

Definition trading_run (cfg : Config.t) (w : Trading)
           (schedule : list (nat * Resume)) : Trading :=
  fold_left (trading_step cfg) schedule w.

(** A state is reachable when some schedule of the tasks created for
    [events] leads to it from [st0]. *)
Definition reachable (cfg : Config.t) (st0 : BotState.t)
           (events : list NewPoolEvent.t) (st : BotState.t) : Prop :=
  ∃ schedule,
    trading_state (trading_run cfg (mkTrading st0 (map Created events)) schedule)
    = st.

(** *** Monitoring *)

Inductive ExitReason : Set :=
| STOP_LOSS
| TAKE_PROFIT_2
| TAKE_PROFIT_1
| TIMEOUT_LOSS
| BOT_STOPPED.

(** The [if]/[elif] chain of [monitor_positions]. *)
Definition exit_rule (cfg : Config.t) (pnl hold_time : Q) : option ExitReason :=
  if Qle_bool pnl (Config.STOP_LOSS_PERCENT cfg) then Some STOP_LOSS
  else if Qle_bool (Config.TAKE_PROFIT_2 cfg) pnl then Some TAKE_PROFIT_2
  else if Qle_bool (Config.TAKE_PROFIT_1 cfg) pnl then Some TAKE_PROFIT_1
  else if Qlt_bool (60 # 1) hold_time && Qlt_bool pnl (-5 # 1)
  then Some TIMEOUT_LOSS
  else None.

(** The two updates of the historical prices. *)
Definition update_extremes (position : Position.t) (current_price : Q)
  : Position.t :=
  let position :=
    if Qlt_bool (Position.highest_price position) current_price
    then Position.set_highest_price position current_price
    else position in
  if Qlt_bool current_price (Position.lowest_price position)
  then Position.set_lowest_price position current_price
  else position.

(** The body of the loop over the positions, for one position:
    [current_price] is what [get_token_price_usd] returned and [now] the
    clock when the hold time is read. A price that is [None] or zero
    skips the position. *)
Definition monitor_position (cfg : Config.t) (now : Q)
           (current_price : option Q) (position : Position.t)
  : Position.t * option ExitReason :=
  match current_price with
  | None => (position, None)
  | Some price =>
      if Qeq_bool price 0 then (position, None)
      else
        let position := update_extremes position price in
        let pnl := Position.current_pnl position price in
        let hold_time := Position.hold_time_minutes position now in
        (position, exit_rule cfg pnl hold_time)
  end.

(** The prices a tick really observes. *)
Definition observed (current_price : option Q) : option Q :=
  match current_price with
  | Some price => if Qeq_bool price 0 then None else Some price
  | None => None
  end.

(** The position after a sequence of valuation ticks [(now, price)],
    for as long as it stays open. *)
Definition track (cfg : Config.t) (position : Position.t)
           (ticks : list (Q * option Q)) : Position.t :=
  fold_left (fun pos tick => (monitor_position cfg tick.1 tick.2 pos).1)
            ticks position.

(** [exit_position]: the counters, then the removal from the open set. *)
Definition exit_position (token_mint : string) (position : Position.t)
           (current_price : Q) (st : BotState.t) : BotState.t :=
  let pnl := Position.current_pnl position current_price in
  let is_win := Qlt_bool 0 pnl in
  BotState.set_positions (delete token_mint)
    (BotState.set_stats (Stats.count_exit is_win pnl) st).

(** Two detections counted. *)
Definition detected_twice (st : BotState.t) : BotState.t :=
  BotState.set_stats Stats.incr_pools_detected
    (BotState.set_stats Stats.incr_pools_detected st).

(** *** Concrete runs *)

(** A screening result with all five checks passed. *)
Definition safe_result : RugChecker.RugCheckResult :=
  RugChecker.check_token_safety
    (inr (map (fun name => inr (RugChecker._skip_check name))
              RugChecker.check_names)).

Definition pool_event_for (name : string) : NewPoolEvent.t :=
  NewPoolEvent.mk ("Pool" ++ name) ("Mint" ++ name)
                  PriceCalculator.SOL_MINT (10 # 1) ("Creator" ++ name) 0%Q.

(** Four new pools with four different tokens. *)
Definition four_pools : list NewPoolEvent.t :=
  map pool_event_for ["A"; "B"; "C"; "D"].

(** The answers that let task [i] go through: safe, priced, bought. *)
Definition go_through (i : nat) : list (nat * Resume) :=
  [ (i, RugChecked safe_result);
    (i, Priced (Some (1 # 1000)));
    (i, Bought (Some "simulated-buy") (1700000000 # 1)) ].

(** Every task is started, and so passes the admission check, before any
    of them reaches the insertion. *)
Definition all_admitted_first : list (nat * Resume) :=
  ([ (0, Begin); (1, Begin); (2, Begin); (3, Begin) ]
   ++ go_through 0 ++ go_through 1 ++ go_through 2 ++ go_through 3)%list%nat.

(** The same tasks one after the other. *)
Definition one_after_the_other : list (nat * Resume) :=
  ((0, Begin) :: go_through 0 ++ (1, Begin) :: go_through 1
   ++ (2, Begin) :: go_through 2 ++ (3, Begin) :: go_through 3)%list%nat.

(** A log notification of a pool creation. *)
Definition creation_event : LogEvent :=
  mkLogEvent [ "Program 675kPX4vVURHmsRjde3eT1xR1bTsQoiAexA45n4Uqck invoke [1]";
               "Program log: initialize2: InitializeInstruction2" ]
             (Some "5VERv8NMvzbJMEkV8xnrLkEaWRtSz9CosKDYjCJjBRnb").

(** Deduplication as the specification words it, for a creation event
    delivered twice to the loop [l]: the two deliveries leave exactly one
    analysis task more than there was, and the second delivery, of a
    signature seen by then, changes nothing. *)
Definition deduplicates_on_delivery (l : Loop) (event : LogEvent) : Prop :=
  let once := loop_step l (Deliver event) in
  let twice := loop_step once (Deliver event) in
  length (pending twice) = S (length (pending l))
  ∧ twice = once.

End SniperBot.

(* ================================================================== *)
(** ** rug_checker.py: the five checks together *)
(* ================================================================== *)

Module Screening.
Import RugChecker.

(** [format(x, spec)] of a float, for the f-strings of the reasons: the
    text Python prints is taken as given. *)
Definition FloatFormat : Type := string → Q → string.

(** The two thresholds read in [RugChecker.__init__]. *)
Record Settings : Set := mkSettings {
  min_liquidity_sol : Q;
  max_holder_percent : Q
}.

Definition default_settings : Settings := mkSettings (5 # 1) (40 # 1).

Definition error_dict (e : string) : CheckDict :=
  mkCheck false ("Error: " ++ str_prefix 50 e).

(** [float(x or 0)] for a [ui_amount]. *)
Definition float_or_0 (x : option Q) : Q := default 0%Q x.

(** [_check_holder_distribution]: [largest] is [largest.value], the
    [ui_amount] of each of the largest accounts; [supply] is the
    [ui_amount] of the supply. *)
Definition _check_holder_distribution (fmt : FloatFormat) (cfg : Settings)
           (largest : awaited (option (list (option Q))))
           (supply : awaited (option Q)) : CheckDict :=
  match largest with
  | inl e => error_dict e
  | inr None => mkCheck false "No holders found"
  | inr (Some []) => mkCheck false "No holders found"
  | inr (Some (top :: _)) =>
      match supply with
      | inl e => error_dict e
      | inr ui_amount =>
          let total_supply := float_or_0 ui_amount in
          if Qeq_bool total_supply 0
          then mkCheck false "Total supply is 0"
          else
            let top_holder_amount := float_or_0 top in
            let top_holder_percent :=
              ((top_holder_amount / total_supply) * (100 # 1))%Q in
            if Qlt_bool (max_holder_percent cfg) top_holder_percent
            then mkCheck false
                   ("Top holder has " ++ fmt ".1f" top_holder_percent
                    ++ "% (max: " ++ fmt "" (max_holder_percent cfg) ++ "%)")
            else mkCheck true
                   ("Top holder: " ++ fmt ".1f" top_holder_percent ++ "% ✓")
      end
  end.

Definition _check_liquidity (fmt : FloatFormat) (cfg : Settings)
           (liquidity_sol : option Q) : CheckDict :=
  match liquidity_sol with
  | None => mkCheck true "Liquidity check skipped (no data)"
  | Some liquidity =>
      if Qlt_bool liquidity (min_liquidity_sol cfg)
      then mkCheck false
             ("Low liquidity: " ++ fmt ".2f" liquidity ++ " SOL (min: "
              ++ fmt "" (min_liquidity_sol cfg) ++ ")")
      else mkCheck true ("Liquidity: " ++ fmt ".2f" liquidity ++ " SOL ✓")
  end.

(** A signature counts as recent when its [block_time] is truthy and less
    than a day before the clock read for it. *)
Definition is_recent (now : Q) (block_time : option Z) : bool :=
  match block_time with
  | Some t => negb (t =? 0) && Qlt_bool (now - inject_Z t) (86400 # 1)
  | None => false
  end.

(** [_check_creator_history]: [sigs] is [sigs.value], the [block_time] of
    each signature; [clock i] is [time.time()] as read for the [i]-th. *)
Definition _check_creator_history (clock : nat → Q) (creator_address : string)
           (sigs : awaited (option (list (option Z)))) : CheckDict :=
  if String.eqb creator_address ""
  then mkCheck true "Creator check skipped"
  else
    match sigs with
    | inl e =>
        mkCheck true ("Creator check failed (non-critical): " ++ str_prefix 50 e)
    | inr None =>
        mkCheck false "Creator wallet has very few transactions (suspicious)"
    | inr (Some value) =>
        if (length value <? 3)%nat
        then mkCheck false "Creator wallet has very few transactions (suspicious)"
        else
          let recent_count :=
            length (List.filter (fun b : bool => b)
                                (imap (fun i t => is_recent (clock i) t) value)) in
          if (10 <? recent_count)%nat
          then mkCheck false
                 ("Creator has " ++ pretty recent_count
                  ++ " tx in 24h (possible spammer)")
          else mkCheck true
                 ("Creator history: " ++ pretty (length value) ++ " tx, "
                  ++ pretty recent_count ++ " recent ✓")
    end.

(** What the chain answers to the calls of one screening run. *)
Record ChainAnswers : Type := mkChainAnswers {
  mint_account : AccountInfo;
  freeze_account : AccountInfo;
  largest_accounts : awaited (option (list (option Q)));
  token_supply : awaited (option Q);
  creator_signatures : awaited (option (list (option Z)));
  clock : nat → Q
}.

(** The five coroutines handed to [asyncio.gather]; each returns a dict. *)
Definition gather_checks (fmt : FloatFormat) (cfg : Settings)
           (chain : ChainAnswers) (creator_address : option string)
           (liquidity_sol : option Q) : list Gathered :=
  [ inr (_check_mint_authority (mint_account chain));
    inr (_check_freeze_authority (freeze_account chain));
    inr (_check_holder_distribution fmt cfg (largest_accounts chain)
                                    (token_supply chain));
    inr (_check_liquidity fmt cfg liquidity_sol);
    inr (match creator_address with
         | Some address =>
             if String.eqb address "" then _skip_check "creator_history"
             else _check_creator_history (clock chain) address
                                         (creator_signatures chain)
         | None => _skip_check "creator_history"
         end) ].

(** [check_token_safety] on the answers of the chain. *)
Definition screen (fmt : FloatFormat) (cfg : Settings) (chain : ChainAnswers)
           (creator_address : option string) (liquidity_sol : option Q)
  : RugCheckResult :=
  check_token_safety (inr (gather_checks fmt cfg chain creator_address
                                         liquidity_sol)).

(** Number of entries of a list of results that did not pass. *)
Definition count_not_passed (results : list Gathered) : nat :=
  length (List.filter (fun r => negb (is_pass r)) results).

(** One for a check that passed, zero otherwise. *)
Definition passes (d : CheckDict) : Z := if passed d then 1 else 0.

(** A formatter for concrete runs. *)
Definition no_format : FloatFormat := fun _ _ => "?".

(** Every call to the chain raises. *)
Definition outage : ChainAnswers :=
  mkChainAnswers (inl "ConnectError") (inl "ConnectError") (inl "ConnectError")
                 (inl "ConnectError") (inl "ConnectError") (fun _ => 0%Q).

(** A mint whose mint authority is present (byte 0 is 1) and whose freeze
    authority is absent, held widely. *)
Definition mintable_token : ChainAnswers :=
  mkChainAnswers (inr (Some (x01 :: repeat x00 81)))
                 (inr (Some (x01 :: repeat x00 81)))
                 (inr (Some [Some (10 # 1); Some (5 # 1)]))
                 (inr (Some (1000 # 1)))
                 (inr None) (fun _ => 0%Q).

(** A mint whose two authorities are both present, held widely. *)
Definition both_authorities : ChainAnswers :=
  mkChainAnswers (inr (Some (x01 :: repeat x00 44 ++ x01 :: repeat x00 36)))
                 (inr (Some (x01 :: repeat x00 44 ++ x01 :: repeat x00 36)))
                 (inr (Some [Some (10 # 1); Some (5 # 1)]))
                 (inr (Some (1000 # 1)))
                 (inr None) (fun _ => 0%Q).

End Screening.

(* ================================================================== *)
(** ** price_calculator.py: the USD price and the liquidity *)
(* ================================================================== *)

Module PriceOracle.
Import PriceCalculator.

(** [sol_price_cache] and [sol_price_timestamp]. *)
Record Cache : Set := mkCache {
  sol_price_cache : option Q;
  sol_price_timestamp : Q
}.

(** The cache of a new calculator. *)
Definition empty_cache : Cache := mkCache None 0%Q.

(** The exchange with the quote service: it raised, or it answered with a
    status and with [data.get("solana", {}).get("usd")]. *)
Definition QuoteAnswer : Type := awaited (Z * option Q).

Definition FALLBACK_SOL_PRICE : Q := 150 # 1.

(** [get_sol_price_usd]: [now] is the clock at the cache test and
    [fetched_at] the clock when a fetched price is stored. *)
Definition get_sol_price_usd (now fetched_at : Q) (http : QuoteAnswer)
           (cache : Cache) : Q * Cache :=
  let fetch :=
    match http with
    | inr (status, Some sol_price) =>
        if (status =? 200) && negb (Qeq_bool sol_price 0)
        then (sol_price, mkCache (Some sol_price) fetched_at)
        else (FALLBACK_SOL_PRICE, cache)
    | inr (_, None) => (FALLBACK_SOL_PRICE, cache)
    | inl _ => (FALLBACK_SOL_PRICE, cache)
    end in
  match sol_price_cache cache with
  | Some cached =>
      if negb (Qeq_bool cached 0)
         && Qlt_bool (now - sol_price_timestamp cache) (60 # 1)
      then (cached, cache)
      else fetch
  | None => fetch
  end.

(** [get_token_price_usd]: the SOL price is asked for only once the price
    in SOL is known and positive. *)
Definition get_token_price_usd (chain : Chain) (pool_address token_mint : string)
           (now fetched_at : Q) (http : QuoteAnswer) (cache : Cache)
  : option Q * Cache :=
  match get_token_price_in_sol chain pool_address token_mint with
  | None => (None, cache)
  | Some price_in_sol =>
      if Qeq_bool price_in_sol 0 || Qle_bool price_in_sol 0
      then (None, cache)
      else
        let '(sol_price_usd, cache') :=
          get_sol_price_usd now fetched_at http cache in
        if Qeq_bool sol_price_usd 0 then (None, cache')
        else (Some (price_in_sol * sol_price_usd)%Q, cache')
  end.

(** [get_pool_liquidity_sol] *)
Definition get_pool_liquidity_sol (chain : Chain) (pool_address : string)
  : option Q :=
  match get_account_info chain pool_address with
  | inl _ => None
  | inr None => None
  | inr (Some []) => None
  | inr (Some data) =>
      match parse RAYDIUM_POOL_V4_LAYOUT data with
      | inl _ => None
      | inr pool_data =>
          match attr_bytes "base_vault" pool_data ≫= Pubkey_str,
                attr_bytes "quote_vault" pool_data ≫= Pubkey_str with
          | Some base_vault_pubkey, Some quote_vault_pubkey =>
              match _get_token_account_balance chain base_vault_pubkey,
                    _get_token_account_balance chain quote_vault_pubkey with
              | Some base_info, Some quote_info =>
                  let base_reserve := b_ui_amount base_info in
                  let quote_reserve := b_ui_amount quote_info in
                  if Qeq_bool base_reserve 0 || Qeq_bool quote_reserve 0
                  then None
                  else
                    match attr_bytes "base_mint" pool_data ≫= Pubkey_str,
                          attr_bytes "quote_mint" pool_data ≫= Pubkey_str with
                    | Some base_mint, Some quote_mint =>
                        if String.eqb base_mint SOL_MINT
                        then Some ((2 # 1) * base_reserve)%Q
                        else if String.eqb quote_mint SOL_MINT
                        then Some ((2 # 1) * quote_reserve)%Q
                        else None
                    | _, _ => None
                    end
              | _, _ => None
              end
          | _, _ => None
          end
      end
  end.

(** The named members of a layout, in order. *)
Definition member_names (layout : list Field) : list string :=
  omap (fun f : Field =>
          match f with
          | (Some name, Int64ul) => Some name
          | (Some name, Bytes _) => Some name
          | _ => None
          end) layout.

(** The cache test of [get_sol_price_usd]. *)
Definition fresh (now : Q) (cache : Cache) : bool :=
  match sol_price_cache cache with
  | Some cached =>
      negb (Qeq_bool cached 0)
      && Qlt_bool (now - sol_price_timestamp cache) (60 # 1)
  | None => false
  end.

(** A decoded value has the width of its subconstruct. *)
Definition well_sized (v : Value) : Prop :=
  match v with
  | VInt n => (n < 2 ^ 64)%N
  | VBytes bs => length bs = 32%nat
  end.

End PriceOracle.

(* ================================================================== *)
(** ** raydium_sniper_bot.py: ticks, shutdown and the run of the bot *)
(* ================================================================== *)

Module Lifecycle.
Import SniperBot.

(** The body of the monitor loop for one entry of the snapshot
    [list(state.positions.items())], on the state. The position is the
    object the dict holds, so its new extremes are seen through the dict;
    nothing else runs between the snapshot and the end of the pass.
    [feed token] is the clock and the price the calculator returns. *)
Definition monitor_entry (cfg : Config.t) (feed : string → Q * option Q)
           (st : BotState.t) (entry : string * Position.t) : BotState.t :=
  let '(token_mint, position) := entry in
  let '(now, current_price) := feed token_mint in
  let '(position', exit_reason) :=
    monitor_position cfg now current_price position in
  let st := BotState.set_positions (alter (fun _ => position') token_mint) st in
  match exit_reason, current_price with
  | Some _, Some price => exit_position token_mint position' price st
  | _, _ => st
  end.

(** One pass of [monitor_positions] over the snapshot. *)
Definition monitor_tick (cfg : Config.t) (feed : string → Q * option Q)
           (snapshot : list (string * Position.t)) (st : BotState.t)
  : BotState.t :=
  fold_left (monitor_entry cfg feed) snapshot st.

(** What a pass leaves of a position: the position with its new extremes,
    or nothing when an exit rule fired. *)
Definition settle (cfg : Config.t) (feed : string → Q * option Q)
           (token_mint : string) (position : Position.t) : option Position.t :=
  let '(position', exit_reason) :=
    monitor_position cfg (feed token_mint).1 (feed token_mint).2 position in
  match exit_reason with
  | None => Some position'
  | Some _ => None
  end.

(** The loop of the [finally] clause of [main] for one entry: the position
    is closed with reason [BOT_STOPPED] only [if price]. *)
Definition cleanup_entry (feed : string → option Q) (st : BotState.t)
           (entry : string * Position.t) : BotState.t :=
  let '(token_mint, position) := entry in
  match feed token_mint with
  | Some price =>
      if Qeq_bool price 0 then st
      else exit_position token_mint position price st
  | None => st
  end.

Definition shutdown_cleanup (feed : string → option Q)
           (snapshot : list (string * Position.t)) (st : BotState.t)
  : BotState.t :=
  fold_left (cleanup_entry feed) snapshot st.

(** [if price] on what the calculator returned. *)
Definition priced (price : option Q) : bool :=
  match price with
  | Some p => negb (Qeq_bool p 0)
  | None => false
  end.

(** Closed trades. *)
Definition closed (st : BotState.t) : Z :=
  Stats.wins (BotState.stats st) + Stats.losses (BotState.stats st).

(** What the bot does between two suspension points, for a fixed
    configuration: a log event is processed, an analysis task runs, a piece
    of some entry coroutine runs, or the monitor makes a pass over the
    snapshot of the open positions. *)
Inductive step (cfg : Config.t) : BotState.t → BotState.t → Prop :=
| step_log (st : BotState.t) (event : LogEvent) :
    step cfg st (process_log_event event st).1
| step_analyze (st : BotState.t) (tx_signature : string) :
    step cfg st (analyze_new_pool tx_signature st)
| step_resume (st : BotState.t) (c : Coro) (r : Resume) :
    step cfg st (resume cfg c r st).1
| step_tick (st : BotState.t) (feed : string → Q * option Q)
            (snapshot : list (string * Position.t)) :
    snapshot ≡ₚ map_to_list (BotState.positions st) →
    step cfg st (monitor_tick cfg feed snapshot st).

(** The states the bot reaches from a state. *)
Inductive reaches (cfg : Config.t) : BotState.t → BotState.t → Prop :=
| reaches_here (st : BotState.t) : reaches cfg st st
| reaches_step (st st' st'' : BotState.t) :
    reaches cfg st st' → step cfg st' st'' → reaches cfg st st''.

(** Two open positions, one of which the monitor cannot price. *)
Definition two_open : BotState.t :=
  BotState.set_positions
    (fun _ => <[ "MintA" := new_position Config.default (pool_event_for "A")
                              safe_result (1 # 1) "simulated-buy" 0%Q ]>
              (<[ "MintB" := new_position Config.default (pool_event_for "B")
                               safe_result (2 # 1) "simulated-buy" 0%Q ]> ∅))
    BotState.init.

Definition price_of_A_only (token_mint : string) : option Q :=
  if String.eqb token_mint "MintA" then Some (3 # 1) else None.

(** The admission test at the start of [analyze_and_trade_pool]. *)
Definition gates_open (cfg : Config.t) (st : BotState.t) : bool :=
  negb (Config.MAX_POSITIONS cfg <=? Z.of_nat (size (BotState.positions st)))
  && negb (Config.MAX_DAILY_TRADES cfg
           <=? Stats.today_trades (BotState.stats st)).

(** A price that passes [if not price_usd or price_usd <= 0]. *)
Definition price_ok (price_usd : option Q) : bool :=
  match price_usd with
  | Some p => negb (Qeq_bool p 0 || Qle_bool p 0)
  | None => false
  end.

(** A signature that passes [if not tx_sig]. *)
Definition bought (tx_sig : option string) : bool :=
  match tx_sig with
  | Some tx => negb (String.eqb tx "")
  | None => false
  end.

(** Two creation events without a signature, for two different pools. *)
Definition unsigned_event (pool : string) : LogEvent :=
  mkLogEvent [ "Program log: initialize2: InitializeInstruction2 " ++ pool ]
             None.

(** A pass in which MintA has doubled and MintB has no price. *)
Definition doubled_A (token_mint : string) : Q * option Q :=
  if String.eqb token_mint "MintA" then (60 # 1, Some (2 # 1))
  else (60 # 1, None).

(** A state whose counter of trades has reached the default daily limit. *)
Definition day_is_full : BotState.t :=
  BotState.set_stats
    (fun s => Stats.mk 0 0 0 0 0 20 0 0 0%Q 20) BotState.init.

End Lifecycle.

(* ================================================================== *)
(** ** jupiter_trader.py *)
(* ================================================================== *)

Module JupiterTrader.

(** A quote as returned by [resp.json()]: a dict, falsy when empty. *)
Definition Quote : Type := list (string * string).

(** What goes over the network, in program order. *)
Inductive Action : Type :=
| QuoteRequest (input_mint output_mint : string) (amount : Z)
| SwapRequest (quote : Quote)
| Simulate (signed_tx : string)
| Send (signed_tx : string)
| CloseClient.

(** The answers one call of [execute_buy] or [execute_sell] receives.
    [quote_http]: the GET raised, or its status with the parsed body
    ([inl] when [resp.json()] or the conversion of the logged fields
    raised). [swap_http]: the POST raised, or its status with
    [swap_response.get("swapTransaction")]. [signed]: decoding,
    deserialising and signing raised, or the signed transaction.
    [simulated]: [simulate_transaction] raised, or [sim_result.value.err].
    [sent]: [send_transaction] raised, or the signature. [closed]:
    [client.close()] raised or returned. [now] is [int(time.time())]. *)
Record Answers : Type := mkAnswers {
  quote_http : awaited (Z * awaited Quote);
  swap_http : awaited (Z * option string);
  signed : string → awaited string;
  simulated : awaited (option string);
  sent : awaited string;
  closed : awaited unit;
  now : Z
}.

Definition SOL_MINT : string := "So11111111111111111111111111111111111111112".

(** [get_quote]: [trade_amount] is [int(self.trade_amount_sol *
    1_000_000_000)], the amount used when none is given. *)
Definition get_quote (trade_amount : Z) (input_mint output_mint : string)
           (amount : option Z) (a : Answers) : option Quote * list Action :=
  let amount := default trade_amount amount in
  let request := [QuoteRequest input_mint output_mint amount] in
  match quote_http a with
  | inl _ => (None, request)
  | inr (status, body) =>
      if negb (status =? 200) then (None, request)
      else match body with
           | inl _ => (None, request)
           | inr quote => (Some quote, request)
           end
  end.

Definition get_swap_transaction (quote_response : Quote) (a : Answers)
  : option string * list Action :=
  let request := [SwapRequest quote_response] in
  match swap_http a with
  | inl _ => (None, request)
  | inr (status, swap_transaction) =>
      if negb ((status =? 200) || (status =? 201)) then (None, request)
      else match swap_transaction with
           | None => (None, request)
           | Some tx => if String.eqb tx "" then (None, request)
                        else (Some tx, request)
           end
  end.

(** Steps 3 and 4 of [execute_buy] and of [execute_sell]: sign, then
    simulate or send; [simulated_id] is the prefix of the identifier a dry
    run returns. *)
Definition sign_and_submit (simulated_id : string) (swap_tx_b64 : string)
           (dry_run : bool) (a : Answers) : option string * list Action :=
  match signed a swap_tx_b64 with
  | inl _ => (None, [])
  | inr signed_tx =>
      if dry_run
      then match simulated a with
           | inl _ => (None, [Simulate signed_tx])
           | inr err =>
               match closed a with
               | inl _ => (None, [Simulate signed_tx; CloseClient])
               | inr _ =>
                   match err with
                   | Some _ => (None, [Simulate signed_tx; CloseClient])
                   | None =>
                       (Some (simulated_id ++ pretty (now a)),
                        [Simulate signed_tx; CloseClient])
                   end
               end
           end
      else match sent a with
           | inl _ => (None, [Send signed_tx])
           | inr tx_sig =>
               match closed a with
               | inl _ => (None, [Send signed_tx; CloseClient])
               | inr _ => (Some tx_sig, [Send signed_tx; CloseClient])
               end
           end
  end.

(** The common shape of the two [execute_] methods. *)
Definition execute (trade_amount : Z) (input_mint output_mint : string)
           (amount : option Z) (simulated_id : string) (dry_run : bool)
           (a : Answers) : option string * list Action :=
  let '(quote, t1) := get_quote trade_amount input_mint output_mint amount a in
  match quote with
  | None => (None, t1)
  | Some [] => (None, t1)
  | Some quote =>
      let '(swap_tx_b64, t2) := get_swap_transaction quote a in
      match swap_tx_b64 with
      | None => (None, (t1 ++ t2)%list)
      | Some swap_tx_b64 =>
          let '(result, t3) :=
            sign_and_submit simulated_id swap_tx_b64 dry_run a in
          (result, (t1 ++ t2 ++ t3)%list)
      end
  end.

Definition execute_buy (trade_amount : Z) (token_mint : string)
           (dry_run : bool) (a : Answers) : option string * list Action :=
  execute trade_amount SOL_MINT token_mint None "simulated-" dry_run a.

Definition execute_sell (trade_amount : Z) (token_mint : string)
           (amount_tokens : Z) (dry_run : bool) (a : Answers)
  : option string * list Action :=
  execute trade_amount token_mint SOL_MINT (Some amount_tokens)
          "simulated-sell-" dry_run a.

Definition is_send (x : Action) : bool :=
  match x with Send _ => true | _ => false end.

Definition is_simulate (x : Action) : bool :=
  match x with Simulate _ => true | _ => false end.

(** Answers of a working aggregator and a working node, with a
    transaction that cannot be signed. *)
Definition signing_raises : Answers :=
  mkAnswers (inr (200, inr [("outAmount", "1000")]))
            (inr (200, Some "AQAB"))
            (fun tx => inl "AttributeError")
            (inr None)
            (inr "5VERv8NMvzbJMEkV8xnrLkEaWRtSz9CosKDYjCJjBRnb")
            (inr tt)
            1700000000.

End JupiterTrader.

(* ================================================================== *)
(** ** raydium_sniper_bot.py with jupiter_trader.py: the bot and its trader *)
(* ================================================================== *)

Module Program.
Import SniperBot Lifecycle.

(** What can resume an entry coroutine when the bot runs with its trader:
    at the last await the value is that of
    [state.trader.execute_buy(token_mint=pool_event.token_mint,
    dry_run=config.DRY_RUN)], for the trade amount of the trader and for
    answers of the network among those [network] holds of. *)
Definition resumed_by (cfg : Config.t) (network : JupiterTrader.Answers → Prop)
           (c : Coro) (r : Resume) : Prop :=
  match c, r with
  | AwaitBuy pool_event _ _, Bought tx_sig _ =>
      ∃ (trade_amount : Z) (a : JupiterTrader.Answers),
        network a
        ∧ tx_sig
          = (JupiterTrader.execute_buy trade_amount
               (NewPoolEvent.token_mint pool_event) (Config.DRY_RUN cfg) a).1
  | _, _ => True
  end.

(** One step of the bot between two suspension points, as
    [Lifecycle.step], the purchases being those of the trader. *)
Inductive step (cfg : Config.t) (network : JupiterTrader.Answers → Prop)
  : BotState.t → BotState.t → Prop :=
| step_log (st : BotState.t) (event : LogEvent) :
    step cfg network st (process_log_event event st).1
| step_analyze (st : BotState.t) (tx_signature : string) :
    step cfg network st (analyze_new_pool tx_signature st)
| step_entry (st : BotState.t) (c : Coro) (r : Resume) :
    resumed_by cfg network c r →
    step cfg network st (resume cfg c r st).1
| step_tick (st : BotState.t) (feed : string → Q * option Q)
            (snapshot : list (string * Position.t)) :
    snapshot ≡ₚ map_to_list (BotState.positions st) →
    step cfg network st (monitor_tick cfg feed snapshot st).

Inductive reaches (cfg : Config.t) (network : JupiterTrader.Answers → Prop)
  : BotState.t → BotState.t → Prop :=
| reaches_here (st : BotState.t) : reaches cfg network st st
| reaches_step (st st' st'' : BotState.t) :
    reaches cfg network st st' → step cfg network st' st'' →
    reaches cfg network st st''.



End Program.

(* ================================================================== *)
(** ** health_server.py *)
(* ================================================================== *)

Module HealthServer.

(** The dict [bot_status]; times are seconds. *)
Record BotStatus : Type := mkStatus {
  running : bool;
  started_at : Q;
  last_scan : option Q;
  total_scans : Z;
  open_positions : Z;
  total_signals : Z;
  total_trades : Z;
  wins : Z;
  losses : Z;
  win_rate : Q;
  total_pnl : Q;
  ml_enabled : bool;
  mode : string
}.

(** The optional arguments of [update_bot_status]. *)
Record Optional : Type := mkOptional {
  o_signals : option Z;
  o_trades : option Z;
  o_wins : option Z;
  o_losses : option Z;
  o_total_pnl : option Q;
  o_ml_enabled : option bool;
  o_mode : option string
}.

(** [(wins / total * 100) if total > 0 else 0.0] *)
Definition rate (wins losses : Z) : Q :=
  let total := wins + losses in
  if 0 <? total
  then ((inject_Z wins / inject_Z total) * (100 # 1))%Q
  else 0%Q.

(** [update_bot_status]; [now] is [datetime.now()]. *)
Definition update_bot_status (now : Q) (running_ : bool) (scans positions : Z)
           (o : Optional) (s : BotStatus) : BotStatus :=
  mkStatus running_ (started_at s) (Some now) scans positions
           (default (total_signals s) (o_signals o))
           (default (total_trades s) (o_trades o))
           (default (wins s) (o_wins o))
           (default (losses s) (o_losses o))
           (match o_wins o, o_losses o with
            | Some w, Some l => rate w l
            | _, _ => win_rate s
            end)
           (default (total_pnl s) (o_total_pnl o))
           (default (ml_enabled s) (o_ml_enabled o))
           (default (mode s) (o_mode o)).

(** The status the module starts with, started at [t0]. *)
Definition initial_status (t0 : Q) : BotStatus :=
  mkStatus false t0 None 0 0 0 0 0 0 0%Q 0%Q false "starting".

(** The rate shown agrees with the counts shown. *)
Definition consistent (s : BotStatus) : Prop :=
  (win_rate s == rate (wins s) (losses s))%Q.

(** Counts that are not negative, with the rate that belongs to them. *)
Definition sound (s : BotStatus) : Prop :=
  0 ≤ wins s ∧ 0 ≤ losses s ∧ consistent s.

(** Both of [wins] and [losses] are given, or neither. *)
Definition paired (o : Optional) : Prop :=
  is_Some (o_wins o) ↔ is_Some (o_losses o).

(** The first update [main.py] makes, and one that gives [wins] alone. *)
Definition first_update : Optional :=
  mkOptional (Some 0) (Some 0) (Some 0) (Some 0) (Some 0%Q) (Some false)
             (Some "initializing").

Definition wins_only (w : Z) : Optional :=
  mkOptional None None (Some w) None None None None.

Definition three_of_four (t0 : Q) : BotStatus :=
  mkStatus true t0 None 0 0 0 4 3 1 (75 # 1) 0%Q false "DRY_RUN".

End HealthServer.

(* ================================================================== *)
(** ** telegram_bot_final.py: the watcher *)
(* ================================================================== *)

Module Watcher.

(** An entry of [watchlist], with the fields the watcher reads; a field
    is [None] when the key is missing (entries are loaded from a file). *)
Record Candidate : Type := mkCandidate {
  found_at : option Q;
  status : option string;
  symbol : option string
}.

(** [watchlist]: a [dict] by token address, in insertion order. *)
Definition Watchlist : Type := list (string * Candidate).

(** The test of the watcher on one entry: the hours of the survival
    analysis that is due, if any. *)
Definition due (current_time : Q) (data : Candidate) : option nat :=
  let age_seconds := (current_time - default 0%Q (found_at data))%Q in
  let status := default "new" (status data) in
  if String.eqb status "new" && Qlt_bool (86400 # 1) age_seconds
  then Some 24%nat
  else if String.eqb status "checked_24h"
          && Qlt_bool (172800 # 1) age_seconds
  then Some 48%nat
  else None.

(** The first loop of a wake-up, over [list(watchlist.items())]. *)
Fixpoint survivors_to_check (current_time : Q) (items : Watchlist)
  : list (string * Candidate * nat) :=
  match items with
  | [] => []
  | (addr, data) :: rest =>
      match due current_time data with
      | Some hours =>
          (addr, data, hours) :: survivors_to_check current_time rest
      | None => survivors_to_check current_time rest
      end
  end.

Definition with_status (data : Candidate) (hours : nat) : Candidate :=
  mkCandidate (found_at data) (Some ("checked_" ++ pretty hours ++ "h"))
              (symbol data).

(** [watchlist[addr]['status'] = f'checked_{hours}h'] *)
Definition set_status (addr : string) (hours : nat) (watchlist : Watchlist)
  : Watchlist :=
  match RPCPool.dict_get addr watchlist with
  | Some data => RPCPool.dict_set addr (with_status data hours) watchlist
  | None => watchlist
  end.

(** The second loop of a wake-up: the calls of [analizar_superviviente]
    made, by address and hours, and the watchlist afterwards. The call
    reads [initial_data['symbol']] before its own [try]: for an entry
    without that key it raises, the status is not written and the
    exception ends the wake-up in the handler of the watcher. Every other
    failure of the call is caught inside it and the status is written. *)
Fixpoint check_survivors (survivors : list (string * Candidate * nat))
         (watchlist : Watchlist) : list (string * nat) * Watchlist :=
  match survivors with
  | [] => ([], watchlist)
  | (addr, data, hours) :: rest =>
      match symbol data with
      | None => ([(addr, hours)], watchlist)
      | Some _ =>
          let '(calls, watchlist') :=
            check_survivors rest (set_status addr hours watchlist) in
          ((addr, hours) :: calls, watchlist')
      end
  end.

(** One wake-up of the watcher at [current_time]. *)
Definition wake (current_time : Q) (watchlist : Watchlist)
  : list (string * nat) * Watchlist :=
  check_survivors (survivors_to_check current_time watchlist) watchlist.

(** What the hunter does to the watchlist while the watcher sleeps: each
    candidate it approves is stored under its address, and it looks only
    at addresses the watchlist does not hold. *)
Definition add_found (found : Watchlist) (watchlist : Watchlist) : Watchlist :=
  fold_left (fun (watchlist : Watchlist) '(addr, data) =>
               match RPCPool.dict_get addr watchlist with
               | Some _ => watchlist
               | None => RPCPool.dict_set addr data watchlist
               end)
            found watchlist.

(** A run of the watcher task: turn by turn, what the hunter has added
    since the last wake-up and the time of the next one. *)
Fixpoint run (turns : list (Watchlist * Q)) (watchlist : Watchlist)
  : list (string * nat) * Watchlist :=
  match turns with
  | [] => ([], watchlist)
  | (found, current_time) :: rest =>
      let '(calls, watchlist') := wake current_time (add_found found watchlist) in
      let '(later, final) := run rest watchlist' in
      ((calls ++ later)%list, final)
  end.

(** The hours of the analyses made of one address. *)
Definition analyses_of (addr : string) (calls : list (string * nat))
  : list nat :=
  map snd (List.filter (fun call : string * nat => String.eqb call.1 addr)
                       calls).

(** Two entries found at time 0, the first complete, the second without
    its symbol; and a day and a half of hourly wake-ups is summed up in
    three of them. *)
Definition example_watchlist : Watchlist :=
  [ (PriceCalculator.example_token_mint,
     mkCandidate (Some 0%Q) (Some "new") (Some "TKN"));
    (PriceCalculator.example_pool_address,
     mkCandidate (Some 0%Q) (Some "new") None) ].

Definition example_turns : list (Watchlist * Q) :=
  [ ([], 90000 # 1); ([], 93600 # 1); ([], 176400 # 1) ].

End Watcher.

(* ================================================================== *)
(** * Properties *)
(* ================================================================== *)

(** ** The screener *)

Section RugCheckerFacts.
Import RugChecker.

Lemma tally_step_passed (t : Tally) (item : string * Gathered) :
  t_passed (tally_step t item) = t_passed t + pass_value item.2.
Proof.
  destruct item as [name [e | [p rsn]]]; unfold pass_value; simpl.
  - lia.
  - destruct p; simpl; lia.
Qed.

Lemma fold_tally_passed (items : list (string * Gathered)) (t : Tally) :
  t_passed (fold_left tally_step items t)
  = t_passed t + Z.of_nat (length (List.filter is_pass (map snd items))).
Proof.
  revert t. induction items as [| item items IH]; intros t.
  - simpl. lia.
  - cbn [fold_left map List.filter]. rewrite IH, tally_step_passed.
    unfold pass_value. destruct (is_pass item.2); simpl length; lia.
Qed.

Lemma snd_zip_take {A B : Type} (xs : list A) (ys : list B) :
  map snd (zip xs ys) = take (length xs) ys.
Proof.
  revert ys. induction xs as [| x xs IH]; intros [| y ys]; simpl; try done.
  by rewrite IH.
Qed.

Lemma tally_counts (results : list Gathered) :
  t_passed (tally results) = count_passed results.
Proof.
  unfold tally, count_passed. rewrite fold_tally_passed, snd_zip_take.
  simpl. reflexivity.
Qed.

Lemma filter_length_le {A : Type} (f : A → bool) (l : list A) :
  (length (List.filter f l) ≤ length l)%nat.
Proof.
  induction l as [| a l IH]; simpl; [lia |].
  destruct (f a); simpl; lia.
Qed.

Lemma count_passed_range (results : list Gathered) :
  0 <= count_passed results <= 5.
Proof.
  unfold count_passed.
  pose proof (filter_length_le is_pass (take 5 results)) as Hle.
  rewrite length_take in Hle. lia.
Qed.

Lemma verdict_table (n : Z) :
  (4 <= n → verdict n = (LOW, true))
  ∧ (n = 3 → verdict n = (MEDIUM, false))
  ∧ (n < 3 → verdict n = (HIGH, false)).
Proof.
  unfold verdict. repeat split; intros H.
  - destruct (Z.leb_spec 4 n); [done | lia].
  - subst n. reflexivity.
  - destruct (Z.leb_spec 4 n); [lia |].
    destruct (Z.leb_spec 3 n); [lia | done].
Qed.

(** C1. Every run of [check_token_safety] reports as [checks_passed] the
    number of checks, out of the five, that returned a passing dict (zero
    when the run itself raised), and the verdict depends on that number
    alone: four or more give LOW and safe, exactly three gives MEDIUM and
    unsafe, fewer than three give HIGH and unsafe. *)
Theorem check_token_safety_verdict (gathered : awaited (list Gathered)) :
  let r := check_token_safety gathered in
  checks_passed r
    = match gathered with
      | inr results => count_passed results
      | inl _ => 0
      end
  ∧ 0 <= checks_passed r <= 5
  ∧ checks_failed r = 5 - checks_passed r
  ∧ (4 <= checks_passed r → risk_level r = LOW ∧ is_safe r = true)
  ∧ (checks_passed r = 3 → risk_level r = MEDIUM ∧ is_safe r = false)
  ∧ (checks_passed r < 3 → risk_level r = HIGH ∧ is_safe r = false).
Proof.
  destruct gathered as [e | results]; cbn zeta.
  - simpl. repeat split; try lia; done.
  - unfold check_token_safety. cbn zeta.
    pose proof (tally_counts results) as Hc.
    pose proof (count_passed_range results) as Hr.
    destruct (verdict_table (t_passed (tally results))) as (H4 & H3 & H2).
    destruct (verdict (t_passed (tally results))) as [lvl safe] eqn:Hv.
    cbn [checks_passed checks_failed risk_level is_safe].
    split; [exact Hc |]. split; [lia |]. split; [reflexivity |].
    split; [| split]; intros H.
    + specialize (H4 H). split; congruence.
    + specialize (H3 H). split; congruence.
    + specialize (H2 H). split; congruence.
Qed.

Lemma check_token_safety_verdict_witness :
  let r := check_token_safety (inr three_of_five) in
  checks_passed r = 3 ∧ risk_level r = MEDIUM ∧ is_safe r = false.
Proof.
  destruct (check_token_safety_verdict (inr three_of_five))
    as (_ & _ & _ & _ & H3 & _).
  split; [reflexivity | apply H3; reflexivity].
Defined.

Lemma flag_set_short (i : nat) (data : list byte) :
  (length data ≤ i)%nat → flag_set i data = false ∧ data !! i = None.
Proof.
  intros H. unfold flag_set. split.
  - destruct (Nat.ltb_spec i (length data)); [lia | done].
  - by apply lookup_ge_None.
Qed.

(** C10. A mint account whose data is too short to hold the flag that a
    check tests passes that check: empty data passes the mint-authority
    check (offset 0) and data of at most 45 bytes passes the
    freeze-authority check (offset 45), although no flag byte exists at
    the offset. *)
Theorem short_mint_data_passes (data : list byte) :
  (length data = 0%nat →
     data !! 0%nat = None
     ∧ _check_mint_authority (inr (Some data))
       = mkCheck true "Mint authority renounced ✓")
  ∧ ((length data ≤ 45)%nat →
     data !! 45%nat = None
     ∧ _check_freeze_authority (inr (Some data))
       = mkCheck true "Freeze authority renounced ✓").
Proof.
  split; intros H.
  - destruct (flag_set_short 0 data) as [Hf Hn]; [lia |].
    split; [exact Hn |]. unfold _check_mint_authority. cbn zeta.
    by rewrite Hf.
  - destruct (flag_set_short 45 data) as [Hf Hn]; [lia |].
    split; [exact Hn |]. unfold _check_freeze_authority. cbn zeta.
    by rewrite Hf.
Qed.

Lemma short_mint_data_passes_witness :
  passed (_check_mint_authority (inr (Some []))) = true
  ∧ passed (_check_freeze_authority (inr (Some (repeat x01 45)))) = true.
Proof.
  split.
  - destruct (short_mint_data_passes []) as [Hm _].
    destruct Hm as [_ Hm]; [reflexivity |]. by rewrite Hm.
  - destruct (short_mint_data_passes (repeat x01 45)) as [_ Hf].
    destruct Hf as [_ Hf]; [simpl; lia |]. by rewrite Hf.
Defined.

End RugCheckerFacts.

(** ** The account decoder and the price *)

Section PriceCalculatorFacts.
Import PriceCalculator.

Lemma stream_read_short (n : nat) (stream : list byte) :
  (length stream < n)%nat → stream_read n stream = inl StreamError.
Proof.
  intros H. unfold stream_read.
  destruct (Nat.leb_spec n (length stream)); [lia | done].
Qed.

Lemma stream_read_enough (n : nat) (stream : list byte) :
  (n ≤ length stream)%nat →
  stream_read n stream = inr (take n stream, drop n stream).
Proof.
  intros H. unfold stream_read.
  destruct (Nat.leb_spec n (length stream)); [done | lia].
Qed.

(** A struct cannot be parsed from fewer bytes than its size. *)
Lemma parse_fields_short (fs : list Field) :
  ∀ (stream : list byte) (ctx : Container),
    (length stream < struct_sizeof fs)%nat →
    parse_fields fs stream ctx = inl StreamError.
Proof.
  induction fs as [| [name c] fs IH]; intros stream ctx H.
  - simpl in H. lia.
  - cbn [parse_fields]. cbn [struct_sizeof foldr snd] in H.
    fold (struct_sizeof fs) in H.
    destruct (Nat.le_gt_cases (sizeof c) (length stream)) as [Hle | Hgt].
    + rewrite stream_read_enough by exact Hle.
      apply IH. rewrite length_drop. lia.
    + by rewrite stream_read_short.
Qed.

(** And it is parsed from any stream that has that many bytes. *)
Lemma parse_fields_enough (fs : list Field) :
  ∀ (stream : list byte) (ctx : Container),
    (struct_sizeof fs ≤ length stream)%nat →
    parse_fields fs stream ctx = inr (ctx ++ read_fields fs stream)%list.
Proof.
  induction fs as [| [name c] fs IH]; intros stream ctx H.
  - simpl. by rewrite app_nil_r.
  - cbn [parse_fields read_fields]. cbn [struct_sizeof foldr snd] in H.
    fold (struct_sizeof fs) in H.
    rewrite stream_read_enough by lia.
    rewrite IH by (rewrite length_drop; lia).
    destruct name as [k |]; [destruct (build_value c _) as [v |] |];
      by rewrite <- ?app_assoc.
Qed.

Lemma layout_size : POOL_LAYOUT_SIZE = 744%nat
                    ∧ struct_sizeof RAYDIUM_POOL_V4_LAYOUT = 744%nat.
Proof. split; reflexivity. Qed.

(** C8. An account buffer shorter than the pool layout (744 bytes) does
    not decode: parsing it raises the stream error of the decoder, and the
    price derivation that reads such a buffer returns no price. *)
Theorem short_buffer_is_malformed (data : list byte) :
  (length data < POOL_LAYOUT_SIZE)%nat →
  parse RAYDIUM_POOL_V4_LAYOUT data = inl StreamError
  ∧ ∀ (chain : Chain) (pool_address token_mint : string),
      get_account_info chain pool_address = inr (Some data) →
      get_token_price_in_sol chain pool_address token_mint = None.
Proof.
  intros Hlen.
  assert (Hparse : parse RAYDIUM_POOL_V4_LAYOUT data = inl StreamError).
  { unfold parse. apply parse_fields_short.
    destruct layout_size as [H1 H2]. rewrite H2, <- H1. exact Hlen. }
  split; [exact Hparse |].
  intros chain pool_address token_mint Hinfo.
  unfold get_token_price_in_sol. rewrite Hinfo.
  destruct data as [| b data]; [reflexivity |].
  by rewrite Hparse.
Qed.

Lemma short_buffer_is_malformed_witness :
  parse RAYDIUM_POOL_V4_LAYOUT (take 743 example_pool_data) = inl StreamError.
Proof.
  apply (short_buffer_is_malformed (take 743 example_pool_data)).
  vm_compute. lia.
Defined.

Lemma layout_keys (data : list byte) :
  let pool_data := read_fields RAYDIUM_POOL_V4_LAYOUT data in
  attr_bytes "base_vault" pool_data = Some (key_at BASE_VAULT_OFFSET data)
  ∧ attr_bytes "quote_vault" pool_data = Some (key_at QUOTE_VAULT_OFFSET data)
  ∧ attr_bytes "base_mint" pool_data = Some (key_at BASE_MINT_OFFSET data)
  ∧ attr_bytes "quote_mint" pool_data = Some (key_at QUOTE_MINT_OFFSET data).
Proof.
  unfold RAYDIUM_POOL_V4_LAYOUT, int64, bytes32, key_at. cbn zeta.
  cbn [read_fields attr_bytes build_value sizeof String.eqb Ascii.eqb
       Bool.eqb app fst snd].
  rewrite !drop_drop. repeat split; reflexivity.
Qed.

Lemma key_at_length (offset : nat) (data : list byte) :
  (offset + 32 ≤ length data)%nat → length (key_at offset data) = 32%nat.
Proof.
  intros H. unfold key_at. rewrite length_take, length_drop. lia.
Qed.

Lemma Pubkey_str_key (offset : nat) (data : list byte) :
  (offset + 32 ≤ length data)%nat →
  Pubkey_str (key_at offset data) = Some (b58encode (key_at offset data)).
Proof.
  intros H. unfold Pubkey_str. by rewrite key_at_length.
Qed.

Lemma adjust_pos (reserve : Z) (decimals : nat) :
  0 < reserve → (0 < adjust reserve decimals)%Q.
Proof.
  intros H. unfold adjust.
  apply Qlt_shift_div_l.
  - change 0%Q with (inject_Z 0). rewrite <- Zlt_Qlt.
    apply Z.pow_pos_nonneg; lia.
  - rewrite Qmult_0_l. change 0%Q with (inject_Z 0).
    by rewrite <- Zlt_Qlt.
Qed.

Lemma adjust_nonzero (reserve : Z) (decimals : nat) :
  0 < reserve → Qeq_bool (adjust reserve decimals) 0 = false.
Proof.
  intros H. destruct (Qeq_bool (adjust reserve decimals) 0) eqn:E; [| done].
  apply Qeq_bool_iff in E. pose proof (adjust_pos reserve decimals H) as Hp.
  rewrite E in Hp. by apply Qlt_irrefl in Hp.
Qed.

(** C3, as the code has it. For a pool account of full size whose two
    vaults hold positive balances, each reserve is the balance divided by
    ten to the number of decimals, and the price returned is the reserve
    of the SOL side divided by the reserve of the other side (the base
    side counts as the SOL side when the base mint is SOL, otherwise the
    quote side when the quote mint is SOL); when neither mint is SOL no
    price is returned. *)
Theorem price_is_sol_reserve_over_token_reserve
        (chain : Chain) (pool_address token_mint : string) (data : list byte) :
  derives_price reserve_ratio chain pool_address token_mint data.
Proof.
  intros base_info quote_info Hinfo Hlen Hbase Hquote Hbpos Hqpos.
  cbn zeta.
  destruct layout_size as [Hsize Hstruct].
  assert (Hprice :
    get_token_price_in_sol chain pool_address token_mint
    = if String.eqb (b58encode (key_at BASE_MINT_OFFSET data)) SOL_MINT
      then Some (adjust (b_amount base_info) (b_decimals base_info)
                 / adjust (b_amount quote_info) (b_decimals quote_info))%Q
      else if String.eqb (b58encode (key_at QUOTE_MINT_OFFSET data)) SOL_MINT
      then Some (adjust (b_amount quote_info) (b_decimals quote_info)
                 / adjust (b_amount base_info) (b_decimals base_info))%Q
      else None).
  { unfold get_token_price_in_sol. rewrite Hinfo.
    destruct data as [| b0 data0] eqn:Hdata.
    { rewrite Hsize in Hlen. simpl in Hlen. lia. }
    rewrite <- Hdata in *. clear Hdata b0 data0.
    unfold parse. rewrite parse_fields_enough by (rewrite Hstruct, <- Hsize; lia).
    rewrite app_nil_l.
    destruct (layout_keys data) as (Kbv & Kqv & Kbm & Kqm).
    cbn zeta in Kbv, Kqv, Kbm, Kqm.
    rewrite Hsize in Hlen.
    rewrite Kbv, Kqv, Kbm, Kqm. cbn [mbind option_bind].
    rewrite !Pubkey_str_key
      by (unfold BASE_VAULT_OFFSET, QUOTE_VAULT_OFFSET, BASE_MINT_OFFSET,
          QUOTE_MINT_OFFSET; lia).
    rewrite Hbase, Hquote. cbn zeta.
    rewrite !adjust_nonzero by assumption. reflexivity. }
  rewrite Hprice. split; [| split].
  - intros ->. rewrite String.eqb_refl. eexists. split; [reflexivity |].
    reflexivity.
  - intros Hne ->. apply String.eqb_neq in Hne. rewrite Hne, String.eqb_refl.
    eexists. split; reflexivity.
  - intros Hb Hq. apply String.eqb_neq in Hb, Hq. by rewrite Hb, Hq.
Qed.

Lemma price_is_sol_reserve_over_token_reserve_witness :
  ∃ p, get_token_price_in_sol example_chain example_pool_address example_token_mint = Some p
       ∧ (p == 1 # 2)%Q.
Proof.
  destruct (price_is_sol_reserve_over_token_reserve
              example_chain example_pool_address example_token_mint example_pool_data
              (mkBalance 2000000000 9 (2 # 1)) (mkBalance 4000000 6 (4 # 1)))
    as [Hsol _]; try (vm_compute; (reflexivity || lia)).
  destruct Hsol as (p & Hp & Hq); [vm_compute; reflexivity |].
  exists p. split; [exact Hp |]. rewrite Hq. vm_compute. reflexivity.
Defined.

(** The addresses of the examples are addresses: each stands for 32
    bytes, those of the example pool and of its token among them, and the
    reference mint for its own; a string such as [pool] is none. *)
Lemma example_addresses :
  Pubkey_from_string example_pool_address = Some (repeat x04 32)
  ∧ Pubkey_from_string example_token_mint = Some (repeat x03 32)
  ∧ Pubkey_str (repeat x03 32) = Some example_token_mint
  ∧ Pubkey_from_string SOL_MINT = Some SOL_MINT_BYTES
  ∧ Pubkey_from_string "pool" = None.
Proof. repeat split; by vm_compute. Qed.

(** C3, as specified, fails: for the example pool, read at its address
    and whose base side is SOL with 2 SOL against 4 tokens, the code
    returns 2/4, not the 4/2 that "other side over reference side"
    requires. *)
Lemma price_as_specified_fails :
  ¬ derives_price specified_price example_chain example_pool_address example_token_mint
      example_pool_data.
Proof.
  intros H.
  destruct (H (mkBalance 2000000000 9 (2 # 1)) (mkBalance 4000000 6 (4 # 1)))
    as [Hsol _]; try (vm_compute; (reflexivity || lia)).
  destruct Hsol as (p & Hp & Hq); [vm_compute; reflexivity |].
  vm_compute in Hp. injection Hp as <-.
  vm_compute in Hq. discriminate Hq.
Qed.

End PriceCalculatorFacts.

(** ** The endpoint race *)

Section RPCPoolFacts.
Import RPCPool.
Context {V : Type}.

Lemma first_success_first_value (method_name : string)
      (clients : list (Client V)) :
  ∀ k : nat → nat,
    Forall close_ok clients →
    first_success method_name
      (map fst (imap (fun idx client => call_rpc client (k idx)) clients))
    = match first_value clients with
      | Some v => Return v
      | None => RaiseAllFailed (all_failed_message method_name)
      end.
Proof.
  induction clients as [| c rest IH]; intros k Hclose.
  - reflexivity.
  - inversion Hclose as [| ? ? Hc Hrest]; subst.
    cbn [imap map first_value]. unfold call_rpc at 1, call_value.
    unfold close_ok in Hc.
    destruct (close_result c) as [e | u]; [contradiction |].
    specialize (IH (k ∘ S) Hrest).
    destruct (method_result c) as [e | [v |]]; cbn [fst first_success];
      [exact IH | reflexivity | exact IH].
Qed.

Lemma first_value_Some (clients : list (Client V)) (v : V) :
  first_value clients = Some v → ∃ c, c ∈ clients ∧ call_value c = Some v.
Proof.
  induction clients as [| c rest IH]; simpl; [done |].
  destruct (call_value c) as [w |] eqn:E.
  - intros [= ->]. exists c. split; [left | done].
  - intros H. destruct (IH H) as (c' & Hin & Hv).
    exists c'. split; [by right | done].
Qed.

Lemma first_value_None (clients : list (Client V)) :
  first_value clients = None ↔ ∀ c, c ∈ clients → call_value c = None.
Proof.
  induction clients as [| c rest IH]; simpl.
  - split; [| done]. intros _ c Hc. by apply elem_of_nil in Hc.
  - destruct (call_value c) as [w |] eqn:E.
    + split; [done |]. intros H. specialize (H c (list_elem_of_here _ _)).
      congruence.
    + rewrite IH. split.
      * intros H c' Hc'. apply elem_of_cons in Hc' as [-> | Hc']; auto.
      * intros H c' Hc'. apply H. by right.
Qed.

Lemma every_client_closed (clients : list (Client V)) (method_name : string)
      (i : nat) :
  (i < length clients)%nat → Closed i ∈ (parallel_call clients method_name).2.
Proof.
  intros Hi. unfold parallel_call. cbn [snd].
  destruct (lookup_lt_is_Some_2 clients i Hi) as [c Hc].
  apply list_elem_of_In, in_concat.
  exists (call_rpc c i).2. split.
  - apply in_map, list_elem_of_In, list_elem_of_lookup. exists i.
    by rewrite list_lookup_imap, Hc.
  - apply list_elem_of_In. unfold call_rpc.
    destruct (close_result c); cbn [snd]; set_solver.
Qed.

(** C6, as the code has it. When no [close] raises: the race returns the
    value of an endpoint whenever some endpoint's call returned a value
    other than [None], whatever the other endpoints did; it raises the
    all-calls-failed exception exactly when every endpoint's call either
    raised or returned [None]; and in both cases [close] has been awaited
    on the client of every endpoint. *)
Theorem parallel_call_race (clients : list (Client V)) (method_name : string) :
  Forall close_ok clients →
  ((∃ c v, c ∈ clients ∧ call_value c = Some v) →
     ∃ c v, c ∈ clients ∧ call_value c = Some v
            ∧ (parallel_call clients method_name).1 = Return v)
  ∧ ((∃ msg, (parallel_call clients method_name).1 = RaiseAllFailed msg)
     ↔ ∀ c, c ∈ clients → call_value c = None)
  ∧ (∀ i, (i < length clients)%nat →
       Closed i ∈ (parallel_call clients method_name).2).
Proof.
  intros Hclose.
  assert (Hout : (parallel_call clients method_name).1
                 = match first_value clients with
                   | Some v => Return v
                   | None => RaiseAllFailed (all_failed_message method_name)
                   end).
  { unfold parallel_call. cbn [fst].
    exact (first_success_first_value method_name clients id Hclose). }
  split; [| split].
  - intros (c & v & Hin & Hv).
    destruct (first_value clients) as [w |] eqn:E.
    + destruct (first_value_Some clients w E) as (c' & Hin' & Hv').
      exists c', w. by rewrite Hout.
    + rewrite first_value_None in E. specialize (E c Hin). congruence.
  - rewrite Hout. split.
    + intros [msg Hmsg]. apply first_value_None.
      destruct (first_value clients); [discriminate | done].
    + intros H. apply first_value_None in H. rewrite H. eauto.
  - intros i Hi. by apply every_client_closed.
Qed.

End RPCPoolFacts.

(** When [close] raises inside [call_rpc], the gathered list holds the
    exception itself and the loop fails on it before it reaches the healthy
    endpoint. *)
Lemma close_failure_stops_the_loop :
  (RPCPool.parallel_call RPCPool.close_raises_first "get_version").1
  = RPCPool.RaiseTypeError.
Proof. reflexivity. Qed.

Lemma parallel_call_race_witness :
  ∃ c v, c ∈ RPCPool.healthy_and_failing
         ∧ RPCPool.call_value c = Some v
         ∧ (RPCPool.parallel_call RPCPool.healthy_and_failing "get_version").1
           = RPCPool.Return v.
Proof.
  apply (parallel_call_race RPCPool.healthy_and_failing "get_version").
  - repeat constructor.
  - eexists _, "1.18.0". split; [apply list_elem_of_further, list_elem_of_here |].
    reflexivity.
Defined.

(** C6, as specified, fails: the first example endpoint answers the call
    (with [None]) and the second raises, yet the race raises the
    all-calls-failed exception. *)
Lemma race_as_specified_fails :
  ¬ RPCPool.race_as_specified RPCPool.example_clients "close".
Proof.
  intros H. destruct H as [Hsome _]; [done |].
  destruct Hsome as [v Hv].
  - eexists. split; [apply list_elem_of_here | exact I].
  - vm_compute in Hv. discriminate Hv.
Qed.

(** ** The listener and the positions *)

Section SniperBotFacts.
Import SniperBot.

Lemma Qlt_bool_iff (x y : Q) : Qlt_bool x y = true ↔ (x < y)%Q.
Proof.
  unfold Qlt_bool. rewrite negb_true_iff. split.
  - intros H. apply Qnot_le_lt. intros Hle.
    apply Qle_bool_iff in Hle. congruence.
  - intros H. destruct (Qle_bool y x) eqn:E; [| done].
    apply Qle_bool_iff in E. by apply Qlt_not_le in H.
Qed.

Lemma Qle_bool_false (x y : Q) : ¬ (x <= y)%Q → Qle_bool x y = false.
Proof.
  intros H. destruct (Qle_bool x y) eqn:E; [| done].
  by apply Qle_bool_iff in E.
Qed.

Lemma Qlt_bool_false (x y : Q) : ¬ (x < y)%Q → Qlt_bool x y = false.
Proof.
  intros H. destruct (Qlt_bool x y) eqn:E; [| done].
  by apply Qlt_bool_iff in E.
Qed.

(** The extremes are the only fields a valuation changes. *)
Lemma update_extremes_entry (position : Position.t) (price : Q) :
  Position.entry_price_usd (update_extremes position price)
  = Position.entry_price_usd position
  ∧ Position.entry_time (update_extremes position price)
    = Position.entry_time position.
Proof.
  unfold update_extremes.
  destruct (Qlt_bool (Position.highest_price position) price);
    cbn zeta; by destruct (Qlt_bool price _).
Qed.

(** C2. For every monitored position and every price a tick observes, the
    exit reason is what the rules give on the position's profit and hold
    time, and the rules are tried in the order stop loss, take profit 2,
    take profit 1, timeout with a loss (held more than 60 minutes and
    profit below -5 percent), the first that matches deciding; a profit of
    -25 percent with a stop loss at -20 percent and 90 minutes of holding
    exits by the stop loss. *)
Theorem exit_rule_order (cfg : Config.t) (pnl hold_time : Q) :
  let stop := (pnl <= Config.STOP_LOSS_PERCENT cfg)%Q in
  let tp2 := (Config.TAKE_PROFIT_2 cfg <= pnl)%Q in
  let tp1 := (Config.TAKE_PROFIT_1 cfg <= pnl)%Q in
  let timeout := ((60 # 1) < hold_time ∧ pnl < (-5 # 1))%Q in
  (∀ (position : Position.t) (now price : Q),
      ¬ (price == 0)%Q →
      (monitor_position cfg now (Some price) position).2
      = exit_rule cfg (Position.current_pnl position price)
                  (Position.hold_time_minutes position now))
  ∧ (stop → exit_rule cfg pnl hold_time = Some STOP_LOSS)
  ∧ (¬ stop → tp2 → exit_rule cfg pnl hold_time = Some TAKE_PROFIT_2)
  ∧ (¬ stop → ¬ tp2 → tp1 → exit_rule cfg pnl hold_time = Some TAKE_PROFIT_1)
  ∧ (¬ stop → ¬ tp2 → ¬ tp1 → timeout →
     exit_rule cfg pnl hold_time = Some TIMEOUT_LOSS)
  ∧ (¬ stop → ¬ tp2 → ¬ tp1 → ¬ timeout → exit_rule cfg pnl hold_time = None)
  ∧ ((Config.STOP_LOSS_PERCENT cfg == (-20 # 1))%Q →
     exit_rule cfg (-25 # 1) (90 # 1) = Some STOP_LOSS).
Proof.
  cbn zeta. split; [| repeat apply conj].
  - intros position now price Hnz. unfold monitor_position.
    destruct (Qeq_bool price 0) eqn:E.
    { apply Qeq_bool_iff in E. contradiction. }
    cbn [snd]. unfold Position.current_pnl, Position.hold_time_minutes.
    destruct (update_extremes_entry position price) as [-> ->]. reflexivity.
  - intros Hs. unfold exit_rule.
    apply Qle_bool_iff in Hs. by rewrite Hs.
  - intros Hs H2. unfold exit_rule.
    rewrite (Qle_bool_false _ _ Hs). apply Qle_bool_iff in H2. by rewrite H2.
  - intros Hs H2 H1. unfold exit_rule.
    rewrite (Qle_bool_false _ _ Hs), (Qle_bool_false _ _ H2).
    apply Qle_bool_iff in H1. by rewrite H1.
  - intros Hs H2 H1 [Ht Hp]. unfold exit_rule.
    rewrite (Qle_bool_false _ _ Hs), (Qle_bool_false _ _ H2),
      (Qle_bool_false _ _ H1).
    apply Qlt_bool_iff in Ht, Hp. by rewrite Ht, Hp.
  - intros Hs H2 H1 Ht. unfold exit_rule.
    rewrite (Qle_bool_false _ _ Hs), (Qle_bool_false _ _ H2),
      (Qle_bool_false _ _ H1).
    destruct (Qlt_bool (60 # 1) hold_time) eqn:E1; [| done].
    destruct (Qlt_bool pnl (-5 # 1)) eqn:E2; [| done].
    apply Qlt_bool_iff in E1, E2. tauto.
  - intros Hsl. unfold exit_rule.
    assert (H : Qle_bool (-25 # 1) (Config.STOP_LOSS_PERCENT cfg) = true).
    { apply Qle_bool_iff. rewrite Hsl. by vm_compute. }
    by rewrite H.
Qed.

Lemma exit_rule_order_witness :
  exit_rule Config.default (-25 # 1) (90 # 1) = Some STOP_LOSS
  ∧ exit_rule Config.default (-10 # 1) (90 # 1) = Some TIMEOUT_LOSS.
Proof.
  split.
  - apply (exit_rule_order Config.default (-25 # 1) (90 # 1)). reflexivity.
  - apply (exit_rule_order Config.default (-10 # 1) (90 # 1));
      vm_compute; intuition discriminate.
Defined.

Lemma Qlt_bool_cases (x y : Q) :
  (Qlt_bool x y = true ∧ (x < y)%Q) ∨ (Qlt_bool x y = false ∧ (y <= x)%Q).
Proof.
  destruct (Qlt_bool x y) eqn:E.
  - left. split; [done |]. by apply Qlt_bool_iff.
  - right. split; [done |]. apply Qnot_lt_le. intros H.
    apply Qlt_bool_iff in H. congruence.
Qed.

(** One valuation widens the interval and brings the price inside it. *)
Lemma update_extremes_widens (position : Position.t) (price : Q) :
  let position' := update_extremes position price in
  (Position.lowest_price position' <= Position.lowest_price position)%Q
  ∧ (Position.highest_price position <= Position.highest_price position')%Q
  ∧ (Position.lowest_price position' <= price)%Q
  ∧ (price <= Position.highest_price position')%Q.
Proof.
  cbn zeta. unfold update_extremes.
  destruct (Qlt_bool_cases (Position.highest_price position) price)
    as [[-> Hh] | [-> Hh]]; cbn zeta;
    cbn [Position.set_highest_price Position.lowest_price].
  - destruct (Qlt_bool_cases price (Position.lowest_price position))
      as [[-> Hl] | [-> Hl]];
      cbn [Position.set_highest_price Position.set_lowest_price
           Position.lowest_price Position.highest_price];
      repeat split;
      first [ apply Qle_refl | apply Qlt_le_weak; assumption | assumption ].
  - destruct (Qlt_bool_cases price (Position.lowest_price position))
      as [[-> Hl] | [-> Hl]];
      cbn [Position.set_highest_price Position.set_lowest_price
           Position.lowest_price Position.highest_price];
      repeat split;
      first [ apply Qle_refl | apply Qlt_le_weak; assumption | assumption ].
Qed.

Lemma monitor_position_widens (cfg : Config.t) (now : Q)
      (current_price : option Q) (position : Position.t) :
  let position' := (monitor_position cfg now current_price position).1 in
  (Position.lowest_price position' <= Position.lowest_price position)%Q
  ∧ (Position.highest_price position <= Position.highest_price position')%Q
  ∧ (∀ p, observed current_price = Some p →
          (Position.lowest_price position' <= p
           ∧ p <= Position.highest_price position')%Q).
Proof.
  cbn zeta. unfold monitor_position, observed.
  destruct current_price as [price |];
    [destruct (Qeq_bool price 0) |]; cbn [fst].
  - split; [apply Qle_refl |]. split; [apply Qle_refl |]. intros p [=].
  - destruct (update_extremes_widens position price) as (Hl & Hh & Hlp & Hph).
    split; [exact Hl |]. split; [exact Hh |]. intros p [= <-]. by split.
  - split; [apply Qle_refl |]. split; [apply Qle_refl |]. intros p [=].
Qed.

Lemma track_widens (cfg : Config.t) (ticks : list (Q * option Q)) :
  ∀ position : Position.t,
    let position' := track cfg position ticks in
    (Position.lowest_price position' <= Position.lowest_price position)%Q
    ∧ (Position.highest_price position <= Position.highest_price position')%Q
    ∧ (∀ p, p ∈ omap (fun tick => observed tick.2) ticks →
            (Position.lowest_price position' <= p
             ∧ p <= Position.highest_price position')%Q).
Proof.
  induction ticks as [| [now price] ticks IH]; intros position; cbn zeta.
  - simpl. split; [apply Qle_refl |]. split; [apply Qle_refl |].
    intros p Hp. by apply elem_of_nil in Hp.
  - unfold track. cbn [fold_left fst snd].
    fold (track cfg (monitor_position cfg now price position).1 ticks).
    destruct (monitor_position_widens cfg now price position)
      as (Hl1 & Hh1 & Hin1).
    destruct (IH (monitor_position cfg now price position).1)
      as (Hl2 & Hh2 & Hin2).
    cbn zeta in Hl1, Hh1, Hin1, Hl2, Hh2, Hin2.
    split; [eapply Qle_trans; eassumption |].
    split; [eapply Qle_trans; eassumption |].
    intros p Hp. cbn [omap list_omap snd] in Hp.
    destruct (observed price) as [q |] eqn:Eq.
    + apply elem_of_cons in Hp as [-> | Hp]; [| by apply Hin2].
      destruct (Hin1 q eq_refl) as [Ha Hb].
      split; eapply Qle_trans; eassumption.
    + by apply Hin2.
Qed.

Lemma track_app (cfg : Config.t) (position : Position.t)
      (before after : list (Q * option Q)) :
  track cfg position (before ++ after)%list
  = track cfg (track cfg position before) after.
Proof. unfold track. by rewrite fold_left_app. Qed.

(** C4. A position is opened with both extremes at its entry price.
    After any sequence of valuation ticks on it, the highest price is at
    least, and the lowest price at most, the entry price and every price
    observed by those ticks; and along the ticks the interval between the
    two only widens: after more ticks the lowest price is no higher and the
    highest price no lower than before. *)
Theorem extremes_bracket_observed_prices
        (cfg : Config.t) (pool_event : NewPoolEvent.t)
        (rug_result : RugChecker.RugCheckResult) (price_usd : Q)
        (tx_sig : string) (entry_now : Q) (before after : list (Q * option Q)) :
  let opened :=
    new_position cfg pool_event rug_result price_usd tx_sig entry_now in
  let earlier := track cfg opened before in
  let later := track cfg opened (before ++ after)%list in
  Position.lowest_price opened = price_usd
  ∧ Position.highest_price opened = price_usd
  ∧ (∀ p, p ∈ price_usd :: omap (fun tick => observed tick.2) (before ++ after)%list →
          (Position.lowest_price later <= p
           ∧ p <= Position.highest_price later)%Q)
  ∧ (Position.lowest_price later <= Position.lowest_price earlier)%Q
  ∧ (Position.highest_price earlier <= Position.highest_price later)%Q.
Proof.
  cbn zeta.
  set (opened := new_position cfg pool_event rug_result price_usd tx_sig entry_now).
  split; [reflexivity |]. split; [reflexivity |].
  destruct (track_widens cfg (before ++ after)%list opened) as (Hl & Hh & Hin).
  cbn zeta in Hl, Hh, Hin.
  split.
  - intros p Hp. apply elem_of_cons in Hp as [-> | Hp]; [| by apply Hin].
    split; [exact Hl | exact Hh].
  - rewrite track_app.
    destruct (track_widens cfg after (track cfg opened before)) as (Hl' & Hh' & _).
    split; assumption.
Qed.

(** Exit removes the position from the open set. *)
Lemma exit_position_removes (token_mint : string) (position : Position.t)
      (current_price : Q) (st : BotState.t) :
  BotState.positions (exit_position token_mint position current_price st)
    !! token_mint = None.
Proof. unfold exit_position. simpl. apply lookup_delete_eq. Qed.

Lemma extremes_bracket_observed_prices_witness :
  let later :=
    track Config.default
          (new_position Config.default (pool_event_for "A") safe_result
                        (1 # 1) "simulated-buy" 0%Q)
          [ (10 # 1, Some (3 # 1)); (20 # 1, None); (30 # 1, Some (1 # 2)) ]%Q in
  (Position.lowest_price later <= 3 # 1 ∧ 3 # 1 <= Position.highest_price later)%Q.
Proof.
  cbn zeta.
  destruct (extremes_bracket_observed_prices
              Config.default (pool_event_for "A") safe_result (1 # 1)
              "simulated-buy" 0%Q
              [ (10 # 1, Some (3 # 1)) ]%Q
              [ (20 # 1, None); (30 # 1, Some (1 # 2)) ]%Q)
    as (_ & _ & Hin & _).
  apply Hin. apply list_elem_of_further, list_elem_of_here.
Defined.

(** *** Deduplication *)

Lemma analyze_new_pool_seen (sig : string) (st : BotState.t) :
  sig ∈ BotState.processed_pools st → analyze_new_pool sig st = st.
Proof. intros H. unfold analyze_new_pool. by rewrite decide_True. Qed.

Lemma analyze_new_pool_marks (sig : string) (st : BotState.t) :
  BotState.processed_pools (analyze_new_pool sig st)
  = BotState.processed_pools st ∪ {[sig]}.
Proof.
  unfold analyze_new_pool. case_decide; simpl; set_solver.
Qed.

Lemma analyze_new_pool_idempotent (sig : string) (st : BotState.t) :
  analyze_new_pool sig (analyze_new_pool sig st) = analyze_new_pool sig st.
Proof.
  apply analyze_new_pool_seen. rewrite analyze_new_pool_marks. set_solver.
Qed.

Lemma analyze_new_pool_counts (sig : string) (st : BotState.t) :
  Stats.pools_analyzed (BotState.stats (analyze_new_pool sig st))
  = Stats.pools_analyzed (BotState.stats st)
    + (if decide (sig ∈ BotState.processed_pools st) then 0 else 1).
Proof.
  unfold analyze_new_pool. case_decide; simpl; lia.
Qed.

(** Whatever arrives and whatever order the tasks run in, the number of
    analyses performed is the number of signatures newly recorded. *)
Lemma analyses_match_new_signatures (steps : list LoopStep) :
  ∀ l : Loop,
    let l' := loop_run l steps in
    BotState.processed_pools (loop_state l)
      ⊆ BotState.processed_pools (loop_state l')
    ∧ Stats.pools_analyzed (BotState.stats (loop_state l'))
      = Stats.pools_analyzed (BotState.stats (loop_state l))
        + Z.of_nat (size (BotState.processed_pools (loop_state l')
                          ∖ BotState.processed_pools (loop_state l))).
Proof.
  induction steps as [| step steps IH]; intros l; cbn zeta.
  - simpl. split; [done |].
    replace (BotState.processed_pools (loop_state l)
             ∖ BotState.processed_pools (loop_state l))
      with (∅ : gset string) by set_solver.
    rewrite size_empty. lia.
  - unfold loop_run. cbn [fold_left]. fold (loop_run (loop_step l step) steps).
    destruct (IH (loop_step l step)) as [Hsub Hcount]. cbn zeta in Hsub, Hcount.
    set (l1 := loop_step l step) in *.
    set (l2 := loop_run l1 steps) in *.
    assert (Hstep :
      BotState.processed_pools (loop_state l)
        ⊆ BotState.processed_pools (loop_state l1)
      ∧ Stats.pools_analyzed (BotState.stats (loop_state l1))
        = Stats.pools_analyzed (BotState.stats (loop_state l))
          + Z.of_nat (size (BotState.processed_pools (loop_state l1)
                            ∖ BotState.processed_pools (loop_state l)))).
    { subst l1. destruct step as [event | i]; unfold loop_step.
      - unfold process_log_event.
        destruct (negb (is_new_pool (logs event))); simpl.
        all: split; [done |].
        all: replace (BotState.processed_pools (loop_state l)
                      ∖ BotState.processed_pools (loop_state l))
               with (∅ : gset string) by set_solver.
        all: rewrite size_empty; lia.
      - destruct (pending l !! i) as [sig |]; simpl.
        + rewrite analyze_new_pool_marks, analyze_new_pool_counts.
          split; [set_solver |].
          case_decide as Hin.
          * replace ((BotState.processed_pools (loop_state l) ∪ {[sig]})
                     ∖ BotState.processed_pools (loop_state l))
              with (∅ : gset string) by set_solver.
            rewrite size_empty. lia.
          * replace ((BotState.processed_pools (loop_state l) ∪ {[sig]})
                     ∖ BotState.processed_pools (loop_state l))
              with ({[sig]} : gset string) by set_solver.
            rewrite size_singleton. lia.
        + split; [done |].
          replace (BotState.processed_pools (loop_state l)
                   ∖ BotState.processed_pools (loop_state l))
            with (∅ : gset string) by set_solver.
          rewrite size_empty. lia. }
    destruct Hstep as [Hsub1 Hcount1].
    split; [set_solver |].
    rewrite Hcount, Hcount1.
    replace (BotState.processed_pools (loop_state l2)
             ∖ BotState.processed_pools (loop_state l))
      with ((BotState.processed_pools (loop_state l2)
             ∖ BotState.processed_pools (loop_state l1))
            ∪ (BotState.processed_pools (loop_state l1)
               ∖ BotState.processed_pools (loop_state l))).
    + assert (Hd : (BotState.processed_pools (loop_state l2)
                    ∖ BotState.processed_pools (loop_state l1))
                   ## (BotState.processed_pools (loop_state l1)
                       ∖ BotState.processed_pools (loop_state l)))
        by set_solver.
      rewrite (size_union _ _ Hd). lia.
    + apply set_eq. intros x. rewrite !elem_of_union, !elem_of_difference.
      destruct (decide (x ∈ BotState.processed_pools (loop_state l1)));
        set_solver.
Qed.

Lemma loop_deliver_creation (event : LogEvent) :
  is_new_pool (logs event) = true →
  ∀ l : Loop,
    loop_step l (Deliver event)
    = mkLoop (BotState.set_stats Stats.incr_pools_detected (loop_state l))
             (pending l ++ [default "unknown" (signature event)]).
Proof.
  intros Hnew l. unfold loop_step, process_log_event. by rewrite Hnew.
Qed.

Lemma loop_run_first (st : BotState.t) (sig : string) (rest : list string) :
  loop_step (mkLoop st (sig :: rest)) (RunTask 0)
  = mkLoop (analyze_new_pool sig st) rest.
Proof. reflexivity. Qed.

(** Counting a detection and running an analysis task commute. *)
Lemma analyze_after_detection (sig : string) (st : BotState.t) :
  analyze_new_pool sig (BotState.set_stats Stats.incr_pools_detected st)
  = BotState.set_stats Stats.incr_pools_detected (analyze_new_pool sig st).
Proof.
  unfold analyze_new_pool. simpl. by case_decide.
Qed.

(** C5. When the same pool-creation notification is delivered twice,
    each delivery counts a detection and creates a task, the duplicate test
    is the first thing a task does, and only one of the two tasks analyses:
    whether both tasks run after both deliveries or each right after its
    delivery, the signature ends up recorded, the analysis counter has
    grown by one if the signature was new and not at all if it was already
    recorded, and no task is left. A task whose signature is already
    recorded leaves the state as it is, so analysing a signature twice is
    the same as analysing it once. *)
Theorem duplicate_signature_analysed_once (st : BotState.t) (event : LogEvent) :
  is_new_pool (logs event) = true →
  let sig := default "unknown" (signature event) in
  let batched :=
    loop_run (mkLoop st [])
             [Deliver event; Deliver event; RunTask 0; RunTask 0] in
  let eager :=
    loop_run (mkLoop st [])
             [Deliver event; RunTask 0; Deliver event; RunTask 0] in
  loop_state batched = loop_state eager
  ∧ pending batched = [] ∧ pending eager = []
  ∧ BotState.processed_pools (loop_state batched)
    = BotState.processed_pools st ∪ {[sig]}
  ∧ Stats.pools_analyzed (BotState.stats (loop_state batched))
    = Stats.pools_analyzed (BotState.stats st)
      + (if decide (sig ∈ BotState.processed_pools st) then 0 else 1)
  ∧ Stats.pools_detected (BotState.stats (loop_state batched))
    = Stats.pools_detected (BotState.stats st) + 2
  ∧ (∀ st' : BotState.t,
       sig ∈ BotState.processed_pools st' → analyze_new_pool sig st' = st')
  ∧ (∀ st' : BotState.t,
       analyze_new_pool sig (analyze_new_pool sig st')
       = analyze_new_pool sig st').
Proof.
  intros Hnew. cbn zeta.
  set (sig := default "unknown" (signature event)).
  pose proof (loop_deliver_creation event Hnew) as Hdel. fold sig in Hdel.
  assert (Hb : loop_run (mkLoop st [])
                 [Deliver event; Deliver event; RunTask 0; RunTask 0]
               = mkLoop (detected_twice (analyze_new_pool sig st)) []).
  { unfold loop_run. cbn [fold_left].
    repeat first [ rewrite Hdel | rewrite loop_run_first
                 | progress cbn [pending loop_state app] ].
    rewrite analyze_new_pool_idempotent.
    by rewrite !analyze_after_detection. }
  assert (He : loop_run (mkLoop st [])
                 [Deliver event; RunTask 0; Deliver event; RunTask 0]
               = mkLoop (detected_twice (analyze_new_pool sig st)) []).
  { unfold loop_run. cbn [fold_left].
    repeat first [ rewrite Hdel | rewrite loop_run_first
                 | progress cbn [pending loop_state app] ].
    rewrite !analyze_after_detection.
    by rewrite analyze_new_pool_idempotent. }
  rewrite Hb, He. cbn [loop_state pending].
  split; [done |]. split; [done |]. split; [done |].
  split; [apply analyze_new_pool_marks |].
  split; [apply analyze_new_pool_counts |].
  split.
  { unfold analyze_new_pool. case_decide; simpl; lia. }
  split.
  - intros st'. apply analyze_new_pool_seen.
  - intros st'. apply analyze_new_pool_idempotent.
Qed.

(** C5, as specified, fails: the second delivery of the creation event is
    no no-op and the two deliveries leave two analysis tasks, not one: each
    delivery counts a detection and creates a task, the duplicate test
    being made by the task, not at delivery. *)
Lemma dedup_as_specified_fails :
  ¬ deduplicates_on_delivery (mkLoop BotState.init []) creation_event.
Proof.
  intros [Hone _]. vm_compute in Hone. discriminate Hone.
Qed.

Lemma duplicate_signature_analysed_once_witness :
  let final :=
    loop_state (loop_run (mkLoop BotState.init [])
                  [Deliver creation_event; Deliver creation_event;
                   RunTask 0; RunTask 0]) in
  Stats.pools_analyzed (BotState.stats final) = 1
  ∧ Stats.pools_detected (BotState.stats final) = 2.
Proof.
  cbn zeta.
  destruct (duplicate_signature_analysed_once BotState.init creation_event)
    as (_ & _ & _ & _ & Ha & Hd & _); [reflexivity |].
  split; [rewrite Ha | rewrite Hd]; reflexivity.
Defined.

(** *** Admission *)

(** A task that starts when a limit is reached opens nothing. *)
Lemma admission_rejects (cfg : Config.t) (pool_event : NewPoolEvent.t)
      (a : Answers) (st : BotState.t) :
  Config.MAX_POSITIONS cfg ≤ Z.of_nat (size (BotState.positions st))
  ∨ Config.MAX_DAILY_TRADES cfg ≤ Stats.today_trades (BotState.stats st) →
  analyze_and_trade_pool cfg pool_event a st = st.
Proof.
  intros H. unfold analyze_and_trade_pool. cbn [resume].
  destruct (Z.leb_spec (Config.MAX_POSITIONS cfg)
                       (Z.of_nat (size (BotState.positions st)))) as [Hp | Hp];
    [reflexivity |].
  destruct (Z.leb_spec (Config.MAX_DAILY_TRADES cfg)
                       (Stats.today_trades (BotState.stats st))) as [Hd | Hd];
    [reflexivity | lia].
Qed.



(** The limits are tested once, at the start of the coroutine, and not
    again at the insertion. Were every purchase to return an identifier,
    four tasks started before any of them inserts would each pass the test
    on an empty open set and all insert, with the default limit of three;
    run one after the other they open three. *)
Remark admission_test_is_not_repeated :
  let start := mkTrading BotState.init (map Created four_pools) in
  let interleaved := trading_run Config.default start all_admitted_first in
  let sequential := trading_run Config.default start one_after_the_other in
  Config.MAX_POSITIONS Config.default = 3
  ∧ reachable Config.default BotState.init four_pools
              (trading_state interleaved)
  ∧ size (BotState.positions (trading_state interleaved)) = 4%nat
  ∧ Forall (fun c => c = Finished) (tasks interleaved)
  ∧ size (BotState.positions (trading_state sequential)) = 3%nat.
Proof.
  cbn zeta. split; [reflexivity |].
  split; [by exists all_admitted_first |].
  split; [by vm_compute |].
  split; [| by vm_compute].
  vm_compute. repeat constructor.
Qed.

(** *** Reconnection *)

Lemma websocket_failure_doubles (reconnect_delay : Z) :
  listen_turn reconnect_delay (ConnectFails WebSocketException)
  = (Some reconnect_delay, Z.min (reconnect_delay * 2) 300).
Proof. reflexivity. Qed.

Lemma other_failure_keeps_delay (reconnect_delay : Z) :
  listen_turn reconnect_delay (ConnectFails OtherException)
  = (Some reconnect_delay, reconnect_delay).
Proof. reflexivity. Qed.

(** After a subscription the next sleep, if the stream breaks, is 5. *)
Lemma subscription_resets_delay (reconnect_delay : Z) (stream_end : option Raised) :
  (listen_turn reconnect_delay (Subscribed stream_end)).1
  = match stream_end with Some _ => Some 5 | None => None end
  ∧ (listen_turn reconnect_delay (Subscribed None)).2 = 5.
Proof. by destruct stream_end as [[|] |]. Qed.

Lemma listen_turn_range (reconnect_delay : Z) (a : Attempt) :
  5 ≤ reconnect_delay ≤ 300 →
  5 ≤ (listen_turn reconnect_delay a).2 ≤ 300.
Proof.
  intros H. unfold listen_turn, try_connect, on_exception, max_reconnect_delay.
  destruct a as [[|] | [[|] |]]; cbn [snd]; lia.
Qed.

(** The delay never leaves the range from 5 to 300 seconds. *)
Lemma reconnect_delay_range (turns : list Attempt) :
  ∀ reconnect_delay,
    5 ≤ reconnect_delay ≤ 300 →
    5 ≤ (listen_from reconnect_delay turns).2 ≤ 300.
Proof.
  induction turns as [| a turns IH]; intros d Hd; [exact Hd |].
  cbn [listen_from].
  pose proof (listen_turn_range d a Hd) as Hstep.
  destruct (listen_turn d a) as [slept d1]. cbn [snd] in Hstep.
  specialize (IH d1 Hstep).
  destruct (listen_from d1 turns) as [sleeps d2]. exact IH.
Qed.

(** C9. Three consecutive connection failures that raise an exception
    other than a WebSocket exception (a refused connection, for one) are
    each followed by a sleep of 5 seconds: the delay is not doubled. Three
    consecutive failures that raise a WebSocket exception are followed by
    sleeps of 5, 10 and 20 seconds. *)
Theorem backoff_not_doubled_for_other_exceptions :
  (listen_new_pools (repeat (ConnectFails OtherException) 3)).1 = [5; 5; 5]
  ∧ (listen_new_pools (repeat (ConnectFails WebSocketException) 3)).1
    = [5; 10; 20]
  ∧ (listen_new_pools (repeat (ConnectFails WebSocketException) 8)).1
    = [5; 10; 20; 40; 80; 160; 300; 300]
  ∧ (listen_new_pools
       (repeat (ConnectFails WebSocketException) 3
        ++ [Subscribed (Some WebSocketException);
            ConnectFails WebSocketException])).1
    = [5; 10; 20; 5; 10].
Proof. repeat split; reflexivity. Qed.

End SniperBotFacts.

(** ** The pool object *)

Section PoolFacts.
Import RPCPool.

Lemma dict_get_set {A : Type} (k k' : string) (v : A) (d : list (string * A)) :
  dict_get k' (dict_set k v d) = if String.eqb k k' then Some v else dict_get k' d.
Proof.
  induction d as [| [k0 v0] rest IH]; simpl.
  - reflexivity.
  - destruct (String.eqb_spec k0 k) as [-> | Hne]; simpl.
    + by destruct (String.eqb k k').
    + destruct (String.eqb_spec k0 k') as [-> | Hne'].
      * apply not_eq_sym, String.eqb_neq in Hne. by rewrite Hne.
      * exact IH.
Qed.

Lemma dict_get_keys {A : Type} (k : string) (d : list (string * A)) :
  is_Some (dict_get k d) ↔ k ∈ map fst d.
Proof.
  induction d as [| [k0 v0] rest IH]; simpl.
  - split; [by intros [? ?] | by intros ?%elem_of_nil].
  - destruct (String.eqb_spec k0 k) as [-> | Hne].
    + split; [intros _; left | eauto].
    + rewrite IH. split; [by right |].
      intros [Heq | Hin]%elem_of_cons; [congruence | done].
Qed.

Lemma dict_set_keys {A : Type} (k : string) (v : A) (d : list (string * A)) :
  k ∈ map fst d → map fst (dict_set k v d) = map fst d.
Proof.
  induction d as [| [k0 v0] rest IH]; simpl.
  - by intros ?%elem_of_nil.
  - destruct (String.eqb_spec k0 k) as [-> | Hne]; [done |].
    intros [Heq | Hin]%elem_of_cons; [congruence |]. simpl. by rewrite IH.
Qed.

Lemma dict_set_keys_new {A : Type} (k : string) (v : A) (d : list (string * A)) :
  k ∉ map fst d → map fst (dict_set k v d) = (map fst d ++ [k])%list.
Proof.
  induction d as [| [k0 v0] rest IH]; simpl; [done |].
  intros Hnot. apply not_elem_of_cons in Hnot as [Hne Hnot].
  destruct (String.eqb_spec k0 k) as [-> | _]; [done |].
  simpl. by rewrite IH.
Qed.

Lemma configured_fold (env : gmap string string) (keys : list string) :
  ∀ acc : list string,
    fold_left (fun (urls : list string) (key : string) =>
                 match env !! key with
                 | Some url =>
                     if String.eqb url "" then urls else (urls ++ [url])%list
                 | None => urls
                 end) keys acc
    = (acc ++ omap (fun key => match env !! key with
                               | Some url =>
                                   if String.eqb url "" then None else Some url
                               | None => None
                               end) keys)%list.
Proof.
  induction keys as [| key keys IH]; intros acc; simpl.
  - by rewrite app_nil_r.
  - rewrite IH. destruct (env !! key) as [url |]; [| done].
    destruct (String.eqb url ""); [done |]. by rewrite <- app_assoc.
Qed.

Lemma all_true_after_init (urls : list string) :
  ∀ (d : list (string * bool)) (k : string),
    k ∈ urls ∨ dict_get k d = Some true →
    dict_get k (fold_left (fun d url => dict_set url true d) urls d) = Some true.
Proof.
  induction urls as [| url urls IH]; intros d k H; simpl.
  - destruct H as [H | H]; [by apply elem_of_nil in H | done].
  - apply IH. rewrite dict_get_set.
    destruct (String.eqb_spec url k) as [-> | Hne]; [by right |].
    destruct H as [[Heq | Hin]%elem_of_cons | H]; [congruence | by left | by right].
Qed.

(** X1. Whatever the environment holds, the list of URLs is never empty:
    it is the non-empty values of the four variables, in their order, or
    the public endpoint alone when there is none. So the constructor
    never raises, starts its round robin at 0 and flags every URL healthy. *)
Theorem pool_is_never_empty (env : gmap string string) :
  let configured :=
    omap (fun key => match env !! key with
                     | Some url => if String.eqb url "" then None else Some url
                     | None => None
                     end) rpc_keys in
  _load_rpc_urls env ≠ []
  ∧ _load_rpc_urls env
    = (match configured with [] => [PUBLIC_RPC_URL] | urls => urls end)
  ∧ ∃ pool, __init__ env = inr pool
            ∧ rpc_urls pool = _load_rpc_urls env
            ∧ current_index pool = 0%nat
            ∧ ∀ url, url ∈ rpc_urls pool →
                     dict_get url (health_status pool) = Some true.
Proof.
  cbn zeta.
  assert (Hload : _load_rpc_urls env
                  = match omap (fun key =>
                                  match env !! key with
                                  | Some url =>
                                      if String.eqb url "" then None else Some url
                                  | None => None
                                  end) rpc_keys with
                    | [] => [PUBLIC_RPC_URL]
                    | l => l
                    end).
  { unfold _load_rpc_urls. rewrite configured_fold, app_nil_l.
    by destruct (omap _ rpc_keys). }
  assert (Hne : _load_rpc_urls env ≠ []).
  { rewrite Hload. by destruct (omap _ rpc_keys). }
  split; [exact Hne |].
  split; [rewrite Hload; by destruct (omap _ rpc_keys) |].
  unfold __init__. cbn zeta.
  destruct (_load_rpc_urls env) as [| u us] eqn:E; [done |].
  eexists. split; [reflexivity |]. cbn [rpc_urls current_index health_status].
  split; [done |]. split; [done |].
  intros url Hin. apply all_true_after_init. by left.
Qed.

Lemma round_robin_formula (n : nat) :
  ∀ pool : Pool,
    (current_index pool < length (rpc_urls pool))%nat →
    (round_robin n pool).1
    = map (fun i => rpc_urls pool
                      !! ((current_index pool + i) mod length (rpc_urls pool))%nat)
          (seq 0 n)
    ∧ rpc_urls (round_robin n pool).2 = rpc_urls pool
    ∧ health_status (round_robin n pool).2 = health_status pool
    ∧ current_index (round_robin n pool).2
      = ((current_index pool + n) mod length (rpc_urls pool))%nat.
Proof.
  induction n as [| n IH]; intros pool Hidx.
  - simpl. rewrite Nat.add_0_r, Nat.mod_small by done. done.
  - cbn [round_robin]. unfold get_client.
    destruct (lookup_lt_is_Some_2 _ _ Hidx) as [url Hurl]. rewrite Hurl.
    set (pool' := mkPool (rpc_urls pool)
                         ((current_index pool + 1) mod length (rpc_urls pool))%nat
                         (health_status pool)).
    assert (Hidx' : (current_index pool' < length (rpc_urls pool'))%nat).
    { subst pool'. simpl. apply Nat.mod_upper_bound. lia. }
    destruct (IH pool' Hidx') as (Hurls & Hsame & Hhealth & Hfinal).
    destruct (round_robin n pool') as [urls pool''].
    cbn [fst snd] in *. subst pool'. cbn [rpc_urls current_index health_status] in *.
    assert (Hshift : ∀ i, (((current_index pool + 1) mod length (rpc_urls pool) + i)
                           mod length (rpc_urls pool)
                           = (current_index pool + S i) mod length (rpc_urls pool))%nat).
    { intros i. rewrite Nat.Div0.add_mod_idemp_l. f_equal. lia. }
    split; [| split; [done | split; [done |]]].
    + cbn [seq map]. rewrite Nat.add_0_r, Nat.mod_small by done.
      rewrite Hurl. f_equal. rewrite Hurls, <- seq_shift, map_map.
      apply map_ext. intros i. by rewrite Hshift.
    + rewrite Hfinal. apply Hshift.
Qed.

(** X2. From any index in range, as many round-robin calls as there are
    URLs return every URL once, in list order starting at the index and
    wrapping around, and leave the index where it was; no call fails. *)
Theorem round_robin_full_cycle (pool : Pool) :
  (current_index pool < length (rpc_urls pool))%nat →
  let '(urls, pool') := round_robin (length (rpc_urls pool)) pool in
  urls = map Some (drop (current_index pool) (rpc_urls pool)
                   ++ take (current_index pool) (rpc_urls pool))%list
  ∧ pool' = pool.
Proof.
  intros Hidx.
  destruct (round_robin_formula (length (rpc_urls pool)) pool Hidx)
    as (Hurls & Hsame & Hhealth & Hfinal).
  destruct (round_robin (length (rpc_urls pool)) pool) as [urls pool'].
  cbn [fst snd] in *. split.
  - rewrite Hurls. apply list_eq. intros i.
    rewrite !list_lookup_fmap.
    destruct (decide (i < length (rpc_urls pool))%nat) as [Hi | Hi].
    + rewrite lookup_seq_lt by done. cbn [fmap option_fmap option_map Nat.add].
      destruct (decide (i < length (rpc_urls pool) - current_index pool)%nat)
        as [Hlow | Hhigh].
      * rewrite lookup_app_l by (rewrite length_drop; lia).
        rewrite lookup_drop, Nat.mod_small by lia.
        destruct (lookup_lt_is_Some_2 (rpc_urls pool) (current_index pool + i))
          as [u Hu]; [lia |]. by rewrite Hu.
      * rewrite lookup_app_r by (rewrite length_drop; lia).
        rewrite length_drop, lookup_take_lt by lia.
        replace ((current_index pool + i) mod length (rpc_urls pool))%nat
          with (i - (length (rpc_urls pool) - current_index pool))%nat.
        -- destruct (lookup_lt_is_Some_2 (rpc_urls pool)
                       (i - (length (rpc_urls pool) - current_index pool)))
             as [u Hu]; [lia |]. by rewrite Hu.
        -- symmetry.
           replace (current_index pool + i)%nat
             with ((i - (length (rpc_urls pool) - current_index pool))
                   + 1 * length (rpc_urls pool))%nat by lia.
           rewrite Nat.Div0.mod_add. apply Nat.mod_small. lia.
    + rewrite lookup_seq_ge by lia. cbn.
      symmetry. rewrite fmap_None. apply lookup_ge_None.
      rewrite length_app, length_drop, length_take. lia.
  - destruct pool as [us idx hs], pool' as [us' idx' hs'].
    cbn [rpc_urls current_index health_status] in *. subst us' hs'.
    f_equal. rewrite Hfinal.
    replace (idx + length us)%nat with (idx + 1 * length us)%nat by lia.
    rewrite Nat.Div0.mod_add. by apply Nat.mod_small.
Qed.

Lemma round_robin_full_cycle_witness :
  (round_robin 3 example_pool).1
  = [ Some "https://b.example.invalid"; Some "https://c.example.invalid";
      Some "https://a.example.invalid" ].
Proof.
  pose proof (round_robin_full_cycle example_pool) as H.
  change (length (rpc_urls example_pool)) with 3%nat in H.
  destruct (round_robin 3 example_pool) as [urls pool'].
  destruct H as [-> _]; [simpl; lia | reflexivity].
Defined.

Lemma dict_set_twice {A : Type} (k : string) (v v' : A)
      (d : list (string * A)) :
  dict_set k v (dict_set k v' d) = dict_set k v d.
Proof.
  induction d as [| [k0 v0] rest IH]; simpl.
  - by rewrite String.eqb_refl.
  - destruct (String.eqb k0 k) eqn:E; simpl; rewrite E; [done |].
    by rewrite IH.
Qed.

(** Whatever path a turn takes, it leaves one assignment to the flag. *)
Lemma check_url_flag (probe : nat → Probe) (d : list (string * bool))
      (i : nat) (url : string) :
  check_url probe d (i, url) = dict_set url (probe_ok probe i url) d.
Proof.
  unfold check_url, probe_ok.
  destruct (version (probe i)) as [e | [|]]; [done | |].
  - destruct (has_separator url), (close (probe i)) as [e | u];
      by rewrite ?dict_set_twice.
  - destruct (close (probe i)) as [e | u]; by rewrite ?dict_set_twice.
Qed.

Lemma health_fold_keys (probe : nat → Probe) (items : list (nat * string)) :
  ∀ d : list (string * bool),
    (∀ k, k ∈ map snd items → k ∈ map fst d) →
    map fst (fold_left (check_url probe) items d) = map fst d.
Proof.
  induction items as [| [i url] items IH]; intros d Hkeys; [done |].
  cbn [fold_left]. rewrite check_url_flag.
  assert (Hin : url ∈ map fst d) by (apply Hkeys; left).
  assert (Hstep : ∀ b, map fst (dict_set url b d) = map fst d)
    by (intros b; by apply dict_set_keys).
  rewrite IH; rewrite ?Hstep; try done.
  intros k Hk; apply Hkeys; by right.
Qed.

Lemma health_fold_get (probe : nat → Probe) (items : list (nat * string)) :
  ∀ (d : list (string * bool)) (i : nat) (url : string),
    NoDup (map snd items) →
    (i, url) ∈ items →
    dict_get url (fold_left (check_url probe) items d)
    = Some (probe_ok probe i url).
Proof.
  assert (Hkeep : ∀ (items : list (nat * string)) (d : list (string * bool))
                    (k : string),
             k ∉ map snd items →
             dict_get k (fold_left (check_url probe) items d)
             = dict_get k d).
  { clear items. induction items as [| [j u] items IH]; intros d k Hk; [done |].
    cbn [fold_left]. cbn [map snd] in Hk.
    apply not_elem_of_cons in Hk as [Hne Hk]. rewrite IH by done.
    apply not_eq_sym, String.eqb_neq in Hne.
    by rewrite check_url_flag, dict_get_set, Hne. }
  induction items as [| [j u] items IH]; intros d i url Hnd Hin.
  - by apply elem_of_nil in Hin.
  - cbn [fold_left]. cbn [map snd] in Hnd. apply NoDup_cons in Hnd as [Hfresh Hnd].
    apply elem_of_cons in Hin as [[= -> ->] | Hin].
    + rewrite Hkeep by done.
      by rewrite check_url_flag, dict_get_set, String.eqb_refl.
    + by apply IH.
Qed.

Lemma dict_get_elem_of {A : Type} (k : string) (v : A) (d : list (string * A)) :
  NoDup (map fst d) → (k, v) ∈ d → dict_get k d = Some v.
Proof.
  induction d as [| [k0 v0] rest IH]; intros Hnd Hin.
  - by apply elem_of_nil in Hin.
  - cbn [map fst] in Hnd. apply NoDup_cons in Hnd as [Hfresh Hnd]. simpl.
    apply elem_of_cons in Hin as [[= -> ->] | Hin].
    + by rewrite String.eqb_refl.
    + destruct (String.eqb_spec k0 k) as [-> | _]; [| by apply IH].
      exfalso. apply Hfresh. apply list_elem_of_fmap. by exists (k, v).
Qed.

(** X3. A health check rewrites every flag from what it meets itself: in
    a pool whose URLs are distinct and are the keys of the flags,
    afterwards a URL is flagged healthy exactly when its version call
    answered with a true value, the URL contains ['//'] and closing the
    client did not raise, whatever the flag was before; the healthy URLs
    are those URLs in list order. So an endpoint that answers is flagged
    unhealthy when closing its client fails. The URLs and the round-robin
    index are untouched, so the check only reports. *)
Theorem health_check_rewrites_flags (probe : nat → Probe) (pool : Pool) :
  NoDup (rpc_urls pool) →
  map fst (health_status pool) = rpc_urls pool →
  let pool' := health_check probe pool in
  rpc_urls pool' = rpc_urls pool
  ∧ current_index pool' = current_index pool
  ∧ health_status pool'
    = imap (fun i url => (url, probe_ok probe i url)) (rpc_urls pool)
  ∧ get_healthy_urls pool'
    = map fst (List.filter snd
                 (imap (fun i url => (url, probe_ok probe i url))
                       (rpc_urls pool))).
Proof.
  intros Hnd Hkeys. cbn zeta.
  assert (Hflags : health_status (health_check probe pool)
                   = imap (fun i url => (url, probe_ok probe i url))
                          (rpc_urls pool)).
  { unfold health_check. cbn [health_status].
    set (items := imap (fun i url => (i, url)) (rpc_urls pool)).
    assert (Hsnd : map snd items = rpc_urls pool).
    { subst items. apply list_eq. intros i.
      rewrite list_lookup_fmap, list_lookup_imap.
      by destruct (rpc_urls pool !! i). }
    set (d' := fold_left _ items (health_status pool)).
    assert (Hk' : map fst d' = rpc_urls pool).
    { subst d'. rewrite health_fold_keys; [done |].
      intros k Hk. by rewrite Hkeys, <- Hsnd. }
    apply list_eq. intros i. rewrite list_lookup_imap.
    pose proof (f_equal (fun l => l !! i) Hk') as Hi. cbn beta in Hi.
    rewrite list_lookup_fmap in Hi.
    destruct (rpc_urls pool !! i) as [url |] eqn:Hurl;
      destruct (d' !! i) as [[k v] |] eqn:Hd; cbn in Hi |- *; try done.
    injection Hi as ->. f_equal. f_equal.
    assert (Hget : dict_get url d' = Some v).
    { apply dict_get_elem_of; [by rewrite Hk' |].
      apply list_elem_of_lookup. by exists i. }
    subst d'. rewrite (health_fold_get probe items _ i url) in Hget.
    + congruence.
    + by rewrite Hsnd.
    + subst items. apply list_elem_of_lookup. exists i.
      by rewrite list_lookup_imap, Hurl. }
  split; [done |]. split; [done |]. split; [exact Hflags |].
  unfold get_healthy_urls. by rewrite Hflags.
Qed.

Lemma health_check_rewrites_flags_witness :
  get_healthy_urls (health_check example_probe example_pool)
  = [ "https://b.example.invalid"; "https://c.example.invalid" ].
Proof.
  destruct (health_check_rewrites_flags example_probe example_pool)
    as (_ & _ & _ & ->).
  - repeat constructor; set_solver.
  - reflexivity.
  - reflexivity.
Defined.

Lemma round_robin_ignores_flags (n : nat) :
  ∀ pool pool' : Pool,
    rpc_urls pool' = rpc_urls pool →
    current_index pool' = current_index pool →
    (round_robin n pool').1 = (round_robin n pool).1.
Proof.
  induction n as [| n IH]; intros pool pool' Hu Hi; [done |].
  cbn [round_robin]. unfold get_client. rewrite Hu, Hi.
  destruct (rpc_urls pool !! current_index pool) as [url |].
  - specialize (IH (mkPool (rpc_urls pool)
                           ((current_index pool + 1) mod length (rpc_urls pool))%nat
                           (health_status pool))
                   (mkPool (rpc_urls pool)
                           ((current_index pool + 1) mod length (rpc_urls pool))%nat
                           (health_status pool'))
                   eq_refl eq_refl).
    destruct (round_robin n (mkPool _ _ (health_status pool'))) as [us1 p1].
    destruct (round_robin n (mkPool _ _ (health_status pool))) as [us2 p2].
    cbn [fst] in *. by rewrite IH.
  - specialize (IH pool pool' Hu Hi).
    destruct (round_robin n pool') as [us1 p1].
    destruct (round_robin n pool) as [us2 p2].
    cbn [fst] in *. by rewrite IH.
Qed.

Lemma healthy_not_key (url : string) (d : list (string * bool)) :
  url ∉ map fst d →
  filter (fun u => u ≠ url) (map fst (List.filter snd d))
  = map fst (List.filter snd d).
Proof.
  induction d as [| [k v] rest IH]; intros Hnot; [done |].
  cbn [map fst] in Hnot. apply not_elem_of_cons in Hnot as [Hne Hnot].
  cbn [List.filter snd]. destruct v; cbn [map fst].
  - rewrite filter_cons_True by congruence. by rewrite IH.
  - by apply IH.
Qed.

(** X4. Marking a URL unhealthy takes that URL, and no other, out of the
    healthy list and changes neither the keys of the flags nor the URL
    list nor the index: round robin goes on returning the same URLs, the
    marked one included. A URL the pool does not know changes nothing. *)
Theorem mark_unhealthy_only_reports (url : string) (pool : Pool) :
  NoDup (map fst (health_status pool)) →
  let pool' := mark_unhealthy url pool in
  get_healthy_urls pool'
    = filter (fun u => u ≠ url) (get_healthy_urls pool)
  ∧ map fst (health_status pool') = map fst (health_status pool)
  ∧ (url ∉ map fst (health_status pool) → pool' = pool)
  ∧ ∀ n, (round_robin n pool').1 = (round_robin n pool).1.
Proof.
  intros Hnd. cbn zeta. unfold mark_unhealthy.
  destruct (dict_get url (health_status pool)) as [b |] eqn:Hget.
  - assert (Hin : url ∈ map fst (health_status pool))
      by (apply dict_get_keys; eauto).
    split; [| split; [by apply dict_set_keys | split]].
    + unfold get_healthy_urls. cbn [health_status].
      clear Hget Hin. induction (health_status pool) as [| [k v] rest IH];
        [done |].
      cbn [map fst] in Hnd. apply NoDup_cons in Hnd as [Hfresh Hnd].
      cbn [dict_set]. destruct (String.eqb_spec k url) as [-> | Hne].
      * cbn [List.filter snd]. destruct v; cbn [map fst].
        -- rewrite filter_cons_False by (intros H; by apply H).
           by rewrite healthy_not_key.
        -- by rewrite healthy_not_key.
      * cbn [List.filter snd]. destruct v; cbn [map fst].
        -- rewrite filter_cons_True by done. by rewrite IH.
        -- by apply IH.
    + intros Hnot. contradiction.
    + intros n. by apply round_robin_ignores_flags.
  - assert (Hnot : url ∉ map fst (health_status pool)).
    { intros Hin. apply dict_get_keys in Hin as [? ?]. congruence. }
    split; [| done]. unfold get_healthy_urls. by rewrite healthy_not_key.
Qed.

Lemma mark_unhealthy_only_reports_witness :
  get_healthy_urls (mark_unhealthy "https://c.example.invalid" example_pool)
  = [ "https://a.example.invalid" ].
Proof.
  destruct (mark_unhealthy_only_reports "https://c.example.invalid" example_pool)
    as (-> & _).
  - repeat constructor; set_solver.
  - reflexivity.
Defined.

End PoolFacts.

(** ** The five checks together *)

Section ScreeningFacts.
Import RugChecker Screening.

Lemma tally_step_failures (t : Tally) (item : string * Gathered) :
  length (t_failures (tally_step t item))
  = (length (t_failures t) + (if is_pass item.2 then 0 else 1))%nat
  ∧ map fst (t_details (tally_step t item))
    = (map fst (t_details t) ++ [item.1])%list.
Proof.
  destruct item as [name [e | [p rsn]]]; simpl.
  - rewrite length_app, map_app. simpl. split; [lia | done].
  - destruct p; simpl; rewrite ?length_app, map_app; simpl; split; (lia || done).
Qed.

Lemma fold_tally_failures (items : list (string * Gathered)) :
  ∀ t : Tally,
    length (t_failures (fold_left tally_step items t))
    = (length (t_failures t) + count_not_passed (map snd items))%nat
    ∧ map fst (t_details (fold_left tally_step items t))
      = (map fst (t_details t) ++ map fst items)%list.
Proof.
  induction items as [| item items IH]; intros t.
  - simpl. rewrite app_nil_r. unfold count_not_passed. simpl. split; [lia | done].
  - cbn [fold_left map]. destruct (IH (tally_step t item)) as [Hf Hd].
    destruct (tally_step_failures t item) as [Hf1 Hd1].
    rewrite Hf, Hd, Hf1, Hd1. unfold count_not_passed. cbn [List.filter].
    split.
    + destruct (is_pass item.2); simpl; lia.
    + by rewrite <- app_assoc.
Qed.

Lemma pass_or_not (results : list Gathered) :
  (length (List.filter is_pass results) + count_not_passed results)%nat
  = length results.
Proof.
  unfold count_not_passed. induction results as [| r rs IH]; [done |].
  simpl. destruct (is_pass r); simpl; lia.
Qed.

(** X5. A run on five gathered results records one failure text for each
    check that did not pass and one detail entry per check, in the order
    of the checks; the number of failure texts is [checks_failed], and the
    verdict is safe exactly when at most one failure text was recorded. *)
Theorem failures_account_for_checks (results : list Gathered) :
  length results = 5%nat →
  let r := check_token_safety (inr results) in
  length (failures r) = count_not_passed results
  ∧ checks_failed r = Z.of_nat (length (failures r))
  ∧ map fst (details r) = check_names
  ∧ (is_safe r = true ↔ (length (failures r) ≤ 1)%nat).
Proof.
  intros Hlen. cbn zeta. unfold check_token_safety. cbn zeta.
  pose proof (tally_counts results) as Hpassed.
  unfold count_passed in Hpassed. rewrite take_ge in Hpassed by lia.
  pose proof (pass_or_not results) as Hsum. rewrite Hlen in Hsum.
  destruct (fold_tally_failures (zip check_names results) (mkTally 0 [] []))
    as [Hf Hd].
  fold (tally results) in Hf, Hd. cbn [t_failures t_details length map app] in Hf, Hd.
  rewrite snd_zip_take, take_ge in Hf by (simpl; lia).
  rewrite fst_zip in Hd by (simpl; lia).
  unfold verdict.
  destruct (Z.leb_spec 4 (t_passed (tally results)));
    [| destruct (Z.leb_spec 3 (t_passed (tally results)))];
    cbn [failures checks_failed details is_safe];
    (split; [exact Hf |]); (split; [lia |]); (split; [exact Hd |]);
    split; intros H'; try done; try lia.
Qed.

Lemma failures_account_for_checks_witness :
  length (failures (check_token_safety (inr three_of_five))) = 2%nat.
Proof.
  destruct (failures_account_for_checks three_of_five) as [-> _];
    reflexivity.
Defined.

Lemma screen_checks_passed (fmt : FloatFormat) (cfg : Settings)
      (chain : ChainAnswers) (creator_address : option string)
      (liquidity_sol : option Q) :
  ∃ creator_check : CheckDict,
    gather_checks fmt cfg chain creator_address liquidity_sol !! 4%nat
      = Some (inr creator_check)
    ∧ checks_passed (screen fmt cfg chain creator_address liquidity_sol)
      = passes (_check_mint_authority (mint_account chain))
        + passes (_check_freeze_authority (freeze_account chain))
        + passes (_check_holder_distribution fmt cfg (largest_accounts chain)
                                             (token_supply chain))
        + passes (_check_liquidity fmt cfg liquidity_sol)
        + passes creator_check.
Proof.
  eexists. split; [reflexivity |].
  unfold screen, check_token_safety. cbn zeta.
  destruct (verdict _) as [lvl safe]. cbn [checks_passed].
  rewrite tally_counts. unfold count_passed, gather_checks, passes.
  cbn [take List.filter is_pass].
  repeat match goal with
         | |- context [passed ?d] => destruct (passed d); cbn [List.filter length]
         end; reflexivity.
Qed.

Lemma screen_verdict (fmt : FloatFormat) (cfg : Settings)
      (chain : ChainAnswers) (creator_address : option string)
      (liquidity_sol : option Q) :
  let r := screen fmt cfg chain creator_address liquidity_sol in
  (is_safe r = true ↔ 4 ≤ checks_passed r)
  ∧ (risk_level r = HIGH ↔ checks_passed r < 3).
Proof.
  cbn zeta. unfold screen, check_token_safety. cbn zeta. unfold verdict.
  destruct (Z.leb_spec 4 (t_passed (tally (gather_checks fmt cfg chain
                                             creator_address liquidity_sol))));
    [| destruct (Z.leb_spec 3 (t_passed (tally (gather_checks fmt cfg chain
                                                  creator_address liquidity_sol))))];
    cbn [is_safe risk_level checks_passed]; split; split; intros H'; try done; lia.
Qed.

Lemma passes_range (d : CheckDict) : 0 ≤ passes d ≤ 1.
Proof. unfold passes. destruct (passed d); lia. Qed.

Lemma authority_failures_unsafe
      (fmt : FloatFormat) (cfg : Settings) (chain : ChainAnswers)
      (creator_address : option string) (liquidity_sol : option Q) :
  passed (_check_mint_authority (mint_account chain)) = false →
  passed (_check_freeze_authority (freeze_account chain)) = false →
  is_safe (screen fmt cfg chain creator_address liquidity_sol) = false
  ∧ checks_passed (screen fmt cfg chain creator_address liquidity_sol) ≤ 3.
Proof.
  intros Hm Hf.
  destruct (screen_checks_passed fmt cfg chain creator_address liquidity_sol)
    as (cc & _ & Hsum).
  destruct (screen_verdict fmt cfg chain creator_address liquidity_sol)
    as [Hsafe _]. cbn zeta in Hsafe.
  pose proof (passes_range (_check_holder_distribution fmt cfg
                              (largest_accounts chain) (token_supply chain))).
  pose proof (passes_range (_check_liquidity fmt cfg liquidity_sol)).
  pose proof (passes_range cc).
  unfold passes at 1 2 in Hsum. rewrite Hm, Hf in Hsum.
  split; [| lia].
  destruct (is_safe _); [| done]. destruct Hsafe as [Hsafe _].
  specialize (Hsafe eq_refl). lia.
Qed.

(** X6. A token that fails both authority checks (the authority is
    present, the mint account is not found, or the call fails) is never
    judged safe, whatever the holder, liquidity and creator checks say;
    in particular when neither check finds the mint account. *)
Theorem two_authority_failures_are_unsafe
        (fmt : FloatFormat) (cfg : Settings) (chain : ChainAnswers)
        (creator_address : option string) (liquidity_sol : option Q) :
  let r := screen fmt cfg chain creator_address liquidity_sol in
  (passed (_check_mint_authority (mint_account chain)) = false →
   passed (_check_freeze_authority (freeze_account chain)) = false →
   is_safe r = false ∧ checks_passed r ≤ 3)
  ∧ (mint_account chain = inr None → freeze_account chain = inr None →
     is_safe r = false).
Proof.
  cbn zeta.
  pose proof (authority_failures_unsafe fmt cfg chain creator_address
                liquidity_sol) as Hgen.
  split; [exact Hgen |].
  intros Hm Hf. apply Hgen; [by rewrite Hm | by rewrite Hf].
Qed.

Lemma two_authority_failures_are_unsafe_witness :
  is_safe (screen no_format default_settings
             (mkChainAnswers (inr None) (inr None)
                             (inr (Some [Some (1 # 1)])) (inr (Some (100 # 1)))
                             (inr None) (fun _ => 0%Q))
             None None) = false.
Proof.
  apply two_authority_failures_are_unsafe; reflexivity.
Defined.

(** X7. When the three checks that read the token from the chain cannot
    reach it (their calls raise), the verdict is HIGH risk and unsafe
    whatever the liquidity and the creator; and this although the creator
    check, alone among the five, counts its own failed call as a pass:
    with a creator address and no liquidity data, exactly the liquidity
    and creator checks pass. *)
Theorem outage_is_high_risk
        (fmt : FloatFormat) (cfg : Settings) (chain : ChainAnswers)
        (creator_address : option string) (liquidity_sol : option Q)
        (e1 e2 e3 : string) :
  mint_account chain = inl e1 →
  freeze_account chain = inl e2 →
  largest_accounts chain = inl e3 →
  let r := screen fmt cfg chain creator_address liquidity_sol in
  risk_level r = HIGH ∧ is_safe r = false
  ∧ (∀ address e5,
       creator_address = Some address → address ≠ "" →
       creator_signatures chain = inl e5 → liquidity_sol = None →
       checks_passed r = 2).
Proof.
  intros Hm Hf Hl. cbn zeta.
  destruct (screen_checks_passed fmt cfg chain creator_address liquidity_sol)
    as (cc & Hcc & Hsum).
  destruct (screen_verdict fmt cfg chain creator_address liquidity_sol)
    as [Hsafe Hhigh]. cbn zeta in Hsafe, Hhigh.
  pose proof (passes_range (_check_liquidity fmt cfg liquidity_sol)).
  pose proof (passes_range cc).
  rewrite Hm, Hf, Hl in Hsum.
  change (passes (_check_mint_authority (inl e1))) with 0 in Hsum.
  change (passes (_check_freeze_authority (inl e2))) with 0 in Hsum.
  change (passes (_check_holder_distribution fmt cfg (inl e3)
                                             (token_supply chain)))
    with 0 in Hsum.
  split; [apply Hhigh; lia |]. split.
  - destruct (is_safe _); [| done]. destruct Hsafe as [Hsafe _].
    specialize (Hsafe eq_refl). lia.
  - intros address e5 -> Hne He5 ->. rewrite Hsum.
    unfold gather_checks in Hcc. cbn in Hcc.
    apply String.eqb_neq in Hne. rewrite Hne in Hcc.
    injection Hcc as <-. unfold _check_creator_history. rewrite Hne, He5.
    reflexivity.
Qed.

Lemma outage_is_high_risk_witness :
  checks_passed (screen no_format default_settings outage
                        (Some "CreatorA") None) = 2.
Proof.
  destruct (outage_is_high_risk no_format default_settings outage
              (Some "CreatorA") None "ConnectError" "ConnectError" "ConnectError")
    as (_ & _ & H); [reflexivity | reflexivity | reflexivity |].
  by apply (H "CreatorA" "ConnectError").
Defined.

(** X8. Without a creator address (absent or empty) and without liquidity
    data, or with liquidity at least the minimum, the liquidity and
    creator checks pass by themselves, so the verdict is safe exactly when
    at least two of the three checks on the token pass: one of mint
    authority, freeze authority and holder concentration may fail. *)
Theorem missing_data_tolerates_one_failure
        (fmt : FloatFormat) (cfg : Settings) (chain : ChainAnswers)
        (creator_address : option string) (liquidity_sol : option Q) :
  creator_address = None ∨ creator_address = Some "" →
  (∀ liquidity, liquidity_sol = Some liquidity →
                (min_liquidity_sol cfg <= liquidity)%Q) →
  is_safe (screen fmt cfg chain creator_address liquidity_sol) = true
  ↔ 2 ≤ passes (_check_mint_authority (mint_account chain))
        + passes (_check_freeze_authority (freeze_account chain))
        + passes (_check_holder_distribution fmt cfg (largest_accounts chain)
                                             (token_supply chain)).
Proof.
  intros Hcreator Hliq.
  destruct (screen_checks_passed fmt cfg chain creator_address liquidity_sol)
    as (cc & Hcc & Hsum).
  destruct (screen_verdict fmt cfg chain creator_address liquidity_sol)
    as [Hsafe _]. cbn zeta in Hsafe.
  assert (Hc : passes cc = 1).
  { unfold gather_checks in Hcc. cbn in Hcc.
    destruct Hcreator as [-> | ->]; by injection Hcc as <-. }
  assert (Hl : passes (_check_liquidity fmt cfg liquidity_sol) = 1).
  { unfold _check_liquidity. destruct liquidity_sol as [liquidity |]; [| done].
    rewrite Qlt_bool_false; [done |]. apply Qle_not_lt. by apply Hliq. }
  rewrite Hsafe, Hsum, Hc, Hl. lia.
Qed.

Lemma missing_data_tolerates_one_failure_witness :
  passed (_check_mint_authority (mint_account mintable_token)) = false
  ∧ is_safe (screen no_format default_settings mintable_token None None) = true.
Proof.
  split; [reflexivity |].
  apply missing_data_tolerates_one_failure; [by left | done | by vm_compute].
Defined.

End ScreeningFacts.

(** ** The decoded record, the USD price and the liquidity *)

Section PriceOracleFacts.
Import PriceCalculator PriceOracle.

Lemma le_to_N_bound (bs : list byte) :
  (le_to_N bs < 256 ^ N.of_nat (length bs))%N.
Proof.
  induction bs as [| b bs IH].
  - simpl. lia.
  - cbn [le_to_N length]. rewrite Nat2N.inj_succ, N.pow_succ_r'.
    pose proof (Byte.to_N_bounded b). lia.
Qed.

Lemma read_fields_well_sized (fs : list Field) :
  ∀ stream : list byte,
    (struct_sizeof fs ≤ length stream)%nat →
    Forall (fun f => match f.2 with Bytes n => n = 32%nat | _ => True end) fs →
    Forall (fun kv => well_sized kv.2) (read_fields fs stream).
Proof.
  induction fs as [| [name c] fs IH]; intros stream Hlen Hall; [constructor |].
  cbn [struct_sizeof foldr snd] in Hlen. fold (struct_sizeof fs) in Hlen.
  apply Forall_cons in Hall as [Hc Hall]. cbn [read_fields].
  apply Forall_app. split.
  - destruct name as [k |]; [| constructor].
    destruct c as [| n | n]; cbn [build_value]; repeat constructor; cbn.
    + pose proof (le_to_N_bound (take 8 stream)) as Hb.
      rewrite length_take in Hb. cbn [sizeof] in Hlen.
      replace (8 `min` length stream)%nat with 8%nat in Hb by lia. exact Hb.
    + cbn in Hc. subst n. rewrite length_take. cbn [sizeof] in Hlen. lia.
  - apply IH; [rewrite length_drop; lia | exact Hall].
Qed.

Lemma read_fields_names (fs : list Field) :
  ∀ stream : list byte, map fst (read_fields fs stream) = member_names fs.
Proof.
  induction fs as [| [name c] fs IH]; intros stream; [done |].
  cbn [read_fields]. rewrite map_app, IH. unfold member_names. cbn [omap list_omap].
  destruct name as [k |]; [destruct c |]; reflexivity.
Qed.

Lemma read_fields_prefix (fs : list Field) :
  ∀ (stream : list byte) (n : nat),
    (struct_sizeof fs ≤ n)%nat →
    read_fields fs (take n stream) = read_fields fs stream.
Proof.
  induction fs as [| [name c] fs IH]; intros stream n Hn; [done |].
  cbn [struct_sizeof foldr snd] in Hn. fold (struct_sizeof fs) in Hn.
  cbn [read_fields].
  rewrite take_take. replace (sizeof c `min` n)%nat with (sizeof c) by lia.
  f_equal.
  replace n with (sizeof c + (n - sizeof c))%nat at 1 by lia.
  rewrite <- take_drop_commute. apply IH. lia.
Qed.

(** X9. Decoding reads the first 744 bytes and nothing else: an account
    of at least that size always decodes, to the same record as its first
    744 bytes, with the 50 named members in layout order, the vault and
    mint keys being the 32 bytes at offsets 304, 336, 368 and 400; every
    integer member is below 2^64 and every key member has 32 bytes. *)
Theorem decoded_record_shape (data : list byte) :
  (POOL_LAYOUT_SIZE ≤ length data)%nat →
  ∃ pool_data : Container,
    parse RAYDIUM_POOL_V4_LAYOUT data = inr pool_data
    ∧ parse RAYDIUM_POOL_V4_LAYOUT (take POOL_LAYOUT_SIZE data) = inr pool_data
    ∧ map fst pool_data = member_names RAYDIUM_POOL_V4_LAYOUT
    ∧ length pool_data = 50%nat
    ∧ attr_bytes "base_vault" pool_data = Some (key_at BASE_VAULT_OFFSET data)
    ∧ attr_bytes "quote_vault" pool_data = Some (key_at QUOTE_VAULT_OFFSET data)
    ∧ attr_bytes "base_mint" pool_data = Some (key_at BASE_MINT_OFFSET data)
    ∧ attr_bytes "quote_mint" pool_data = Some (key_at QUOTE_MINT_OFFSET data)
    ∧ Forall (fun kv => well_sized kv.2) pool_data.
Proof.
  intros Hlen. destruct layout_size as [Hsize Hstruct].
  exists (read_fields RAYDIUM_POOL_V4_LAYOUT data).
  assert (Hnames : map fst (read_fields RAYDIUM_POOL_V4_LAYOUT data)
                   = member_names RAYDIUM_POOL_V4_LAYOUT)
    by apply read_fields_names.
  destruct (layout_keys data) as (Kbv & Kqv & Kbm & Kqm). cbn zeta in *.
  split; [| split; [| split; [exact Hnames | split; [| repeat split; try done]]]].
  - unfold parse. rewrite parse_fields_enough by (rewrite Hstruct, <- Hsize; lia).
    by rewrite app_nil_l.
  - unfold parse. rewrite parse_fields_enough
      by (rewrite length_take, Hstruct, <- Hsize; lia).
    rewrite app_nil_l, read_fields_prefix by (rewrite Hstruct, <- Hsize; lia).
    done.
  - rewrite <- (length_map fst), Hnames. reflexivity.
  - apply read_fields_well_sized; [rewrite Hstruct, <- Hsize; lia |].
    unfold RAYDIUM_POOL_V4_LAYOUT, int64, bytes32. repeat constructor.
Qed.

Lemma decoded_record_shape_witness :
  ∃ pool_data : Container,
    parse RAYDIUM_POOL_V4_LAYOUT (example_pool_data ++ [xff; xff])
      = inr pool_data
    ∧ attr_bytes "base_mint" pool_data = Some SOL_MINT_BYTES.
Proof.
  destruct (decoded_record_shape (example_pool_data ++ [xff; xff]))
    as (pool_data & Hp & _ & _ & _ & _ & _ & Hbm & _).
  - vm_compute. lia.
  - exists pool_data. split; [exact Hp |]. rewrite Hbm. reflexivity.
Defined.

Lemma sol_price_when_fresh (now fetched_at : Q) (http : QuoteAnswer)
      (cache : Cache) :
  fresh now cache = true →
  ∃ cached, sol_price_cache cache = Some cached
            ∧ get_sol_price_usd now fetched_at http cache = (cached, cache).
Proof.
  unfold fresh, get_sol_price_usd. destruct (sol_price_cache cache) as [c |];
    [| done].
  intros ->. by exists c.
Qed.

Lemma sol_price_when_stale (now fetched_at : Q) (http : QuoteAnswer)
      (cache : Cache) :
  fresh now cache = false →
  get_sol_price_usd now fetched_at http cache
  = match http with
    | inr (status, Some sol_price) =>
        if (status =? 200) && negb (Qeq_bool sol_price 0)
        then (sol_price, mkCache (Some sol_price) fetched_at)
        else (FALLBACK_SOL_PRICE, cache)
    | _ => (FALLBACK_SOL_PRICE, cache)
    end.
Proof.
  unfold fresh, get_sol_price_usd. destruct (sol_price_cache cache) as [c |].
  - intros ->. by destruct http as [e | [status [p |]]].
  - intros _. by destruct http as [e | [status [p |]]].
Qed.

(** X10. With no fresh price in the cache: a price the quote service
    returns is stored and, for the next 60 seconds, returned again
    whatever the service then answers, without the cache changing; a
    failed request returns the fallback 150 and stores nothing, so the
    very next call, if the service answers, returns the real price. *)
Theorem sol_price_cache_lifecycle (now fetched_at now' fetched_at' : Q)
        (cache : Cache) :
  fresh now cache = false →
  (∀ (p : Q) (http' : QuoteAnswer),
     ¬ (p == 0)%Q →
     (now' - fetched_at < 60 # 1)%Q →
     let cache1 := (get_sol_price_usd now fetched_at (inr (200, Some p)) cache).2 in
     (get_sol_price_usd now fetched_at (inr (200, Some p)) cache).1 = p
     ∧ get_sol_price_usd now' fetched_at' http' cache1 = (p, cache1))
  ∧ (∀ (e : string) (p' : Q),
       ¬ (p' == 0)%Q →
       fresh now' cache = false →
       get_sol_price_usd now fetched_at (inl e) cache
       = (FALLBACK_SOL_PRICE, cache)
       ∧ get_sol_price_usd now' fetched_at'
           (inr (200, Some p'))
           (get_sol_price_usd now fetched_at (inl e) cache).2
         = (p', mkCache (Some p') fetched_at')).
Proof.
  intros Hstale. split.
  - intros p http' Hp Hsoon. cbn zeta.
    rewrite (sol_price_when_stale now fetched_at _ cache Hstale).
    assert (Hnz : Qeq_bool p 0 = false).
    { destruct (Qeq_bool p 0) eqn:E; [| done]. by apply Qeq_bool_iff in E. }
    rewrite Hnz. cbn [Z.eqb Pos.eqb andb negb fst snd]. split; [done |].
    destruct (sol_price_when_fresh now' fetched_at' http'
                (mkCache (Some p) fetched_at)) as (c & Hc & ->).
    + unfold fresh. cbn [sol_price_cache sol_price_timestamp]. rewrite Hnz.
      cbn [negb andb]. by apply Qlt_bool_iff.
    + cbn in Hc. by injection Hc as ->.
  - intros e p' Hp Hstale'.
    rewrite (sol_price_when_stale now fetched_at _ cache Hstale).
    split; [done |]. cbn [snd].
    rewrite (sol_price_when_stale now' fetched_at' _ cache Hstale').
    assert (Hnz : Qeq_bool p' 0 = false).
    { destruct (Qeq_bool p' 0) eqn:E; [| done]. by apply Qeq_bool_iff in E. }
    by rewrite Hnz.
Qed.

Lemma sol_price_cache_lifecycle_witness :
  get_sol_price_usd (130 # 1) (131 # 1) (inl "ClientConnectorError")
    (get_sol_price_usd (100 # 1) (101 # 1) (inr (200, Some (200 # 1)))
                       empty_cache).2
  = (200 # 1, mkCache (Some (200 # 1)) (101 # 1)).
Proof.
  destruct (sol_price_cache_lifecycle (100 # 1) (101 # 1) (130 # 1) (131 # 1)
                                      empty_cache eq_refl) as [Hgood _].
  destruct (Hgood (200 # 1) (inl "ClientConnectorError")) as [_ H];
    [by vm_compute | by vm_compute |].
  exact H.
Defined.

Lemma Qeq_bool_pos (x : Q) : (0 < x)%Q → Qeq_bool x 0 = false.
Proof.
  intros H. destruct (Qeq_bool x 0) eqn:E; [| done].
  apply Qeq_bool_iff in E. rewrite E in H. by apply Qlt_irrefl in H.
Qed.

Lemma Qle_bool_pos (x : Q) : (0 < x)%Q → Qle_bool x 0 = false.
Proof.
  intros H. destruct (Qle_bool x 0) eqn:E; [| done].
  apply Qle_bool_iff in E. by apply Qlt_not_le in H.
Qed.

Lemma outage_pnl (q s entry_price tick_price : Q) :
  (0 < q)%Q → (200 # 1 <= s)%Q →
  ((99 # 100) * (q * s) <= entry_price)%Q →
  (tick_price <= (101 # 100) * (q * (150 # 1)))%Q →
  (0 < entry_price)%Q
  ∧ (((tick_price - entry_price) / entry_price) * (100 # 1) <= -20 # 1)%Q.
Proof.
  intros Hq Hs He Ht.
  assert (Hqs : ((200 # 1) * q <= q * s)%Q) by nra.
  assert (Hpos : (0 < entry_price)%Q) by lra.
  split; [exact Hpos |].
  apply Qle_trans with ((- 1 # 5) * (100 # 1))%Q; [| by vm_compute].
  apply Qmult_le_compat_r; [| by vm_compute].
  apply Qle_shift_div_r; [exact Hpos |].
  lra.
Qed.

(** X11. A failure of the quote service can close a position by itself.
    A position entered while the service quoted SOL at 200 USD or more is
    valued, once the cached quote is a minute old and the service fails,
    with the fallback of 150 USD: with the pool unchanged the price
    computed for the monitor is the same price in SOL times 150 instead of
    times the quote, and the default rules exit by the stop loss. The exit
    does not hang on the last digit of the two products: it is the same
    for every stored entry price and every observed price within one
    percent of them. *)
Theorem quote_outage_hits_stop_loss
        (chain : Chain) (pool_address token_mint : string) (q s : Q)
        (now1 t1 now2 t2 clock entry_time : Q) (e tx_sig : string)
        (pool_event : NewPoolEvent.t) (rug_result : RugChecker.RugCheckResult) :
  get_token_price_in_sol chain pool_address token_mint = Some q →
  (0 < q)%Q →
  (200 # 1 <= s)%Q →
  (60 # 1 <= now2 - t1)%Q →
  let entry :=
    get_token_price_usd chain pool_address token_mint now1 t1
                        (inr (200, Some s)) empty_cache in
  let tick :=
    get_token_price_usd chain pool_address token_mint now2 t2 (inl e) entry.2 in
  entry.1 = Some (q * s)%Q
  ∧ tick.1 = Some (q * FALLBACK_SOL_PRICE)%Q
  ∧ ∀ entry_price tick_price : Q,
      ((99 # 100) * (q * s) <= entry_price)%Q →
      (0 < tick_price)%Q →
      (tick_price <= (101 # 100) * (q * FALLBACK_SOL_PRICE))%Q →
      (SniperBot.monitor_position Config.default clock (Some tick_price)
         (SniperBot.new_position Config.default pool_event rug_result
                                 entry_price tx_sig entry_time)).2
      = Some SniperBot.STOP_LOSS.
Proof.
  intros Hq Hpos Hs Hold. cbn zeta.
  assert (Hspos : (0 < s)%Q) by lra.
  assert (Hentry : get_token_price_usd chain pool_address token_mint now1 t1
                     (inr (200, Some s)) empty_cache
                   = (Some (q * s)%Q, mkCache (Some s) t1)).
  { unfold get_token_price_usd. rewrite Hq, (Qeq_bool_pos q), (Qle_bool_pos q)
      by done.
    cbn [orb]. rewrite sol_price_when_stale by done.
    rewrite (Qeq_bool_pos s) by done. cbn [Z.eqb Pos.eqb andb negb].
    by rewrite (Qeq_bool_pos s). }
  rewrite Hentry. cbn [fst snd].
  assert (Htick : get_token_price_usd chain pool_address token_mint now2 t2
                    (inl e) (mkCache (Some s) t1)
                  = (Some (q * FALLBACK_SOL_PRICE)%Q, mkCache (Some s) t1)).
  { unfold get_token_price_usd. rewrite Hq, (Qeq_bool_pos q), (Qle_bool_pos q)
      by done.
    cbn [orb]. rewrite sol_price_when_stale.
    - reflexivity.
    - unfold fresh. cbn [sol_price_cache sol_price_timestamp].
      rewrite (Qeq_bool_pos s) by done. cbn [negb andb].
      apply Qlt_bool_false. by apply Qle_not_lt. }
  rewrite Htick. cbn [fst].
  split; [done |]. split; [done |].
  intros entry_price tick_price He Hp Ht.
  destruct (outage_pnl q s entry_price tick_price Hpos Hs He Ht)
    as [Hepos Hpnl].
  unfold SniperBot.monitor_position.
  rewrite (Qeq_bool_pos _ Hp). cbn [snd].
  unfold Position.current_pnl.
  destruct (update_extremes_entry
              (SniperBot.new_position Config.default pool_event rug_result
                                      entry_price tx_sig entry_time)
              tick_price) as [-> _].
  cbn [SniperBot.new_position Position.entry_price_usd].
  rewrite (Qle_bool_pos entry_price) by done.
  unfold SniperBot.exit_rule.
  assert (Hstop : Qle_bool (((tick_price - entry_price) / entry_price)
                            * (100 # 1))
                           (Config.STOP_LOSS_PERCENT Config.default) = true).
  { by apply Qle_bool_iff. }
  by rewrite Hstop.
Qed.

Lemma quote_outage_hits_stop_loss_witness :
  (SniperBot.monitor_position Config.default (200 # 1)
     (get_token_price_usd example_chain example_pool_address
        example_token_mint (170 # 1) (171 # 1)
        (inl "ClientConnectorError")
        (get_token_price_usd example_chain example_pool_address
           example_token_mint (100 # 1) (101 # 1)
           (inr (200, Some (200 # 1))) empty_cache).2).1
     (SniperBot.new_position Config.default
        (NewPoolEvent.mk example_pool_address example_token_mint
                         SOL_MINT (4 # 1) SOL_MINT 0%Q)
        SniperBot.safe_result
        ((2000000000000000 # 4000000000000000) * (200 # 1))%Q
        "simulated-1700000000" (100 # 1))).2
  = Some SniperBot.STOP_LOSS.
Proof.
  destruct (quote_outage_hits_stop_loss
              example_chain example_pool_address example_token_mint
              (2000000000000000 # 4000000000000000) (200 # 1)
              (100 # 1) (101 # 1) (170 # 1) (171 # 1) (200 # 1) (100 # 1)
              "ClientConnectorError" "simulated-1700000000"
              (NewPoolEvent.mk example_pool_address example_token_mint
                               SOL_MINT (4 # 1) SOL_MINT 0%Q)
              SniperBot.safe_result)
    as (_ & Htick & Hexit); [by vm_compute | by vm_compute | by vm_compute
                             | by vm_compute |].
  rewrite Htick. apply Hexit; by vm_compute.
Defined.

(** X12. For a pool account of full size whose two vaults report non-zero
    [ui_amount]s, the liquidity is twice the [ui_amount] of the SOL side
    (the base side when the base mint is SOL, otherwise the quote side when
    the quote mint is SOL), the other side not entering the figure; a pool
    without SOL, and an account shorter than the layout, give none. *)
Theorem liquidity_is_twice_sol_side
        (chain : Chain) (pool_address : string) (data : list byte)
        (base_info quote_info : BalanceDict) :
  get_account_info chain pool_address = inr (Some data) →
  ((length data < POOL_LAYOUT_SIZE)%nat →
   get_pool_liquidity_sol chain pool_address = None)
  ∧ ((POOL_LAYOUT_SIZE ≤ length data)%nat →
     _get_token_account_balance chain
       (b58encode (key_at BASE_VAULT_OFFSET data)) = Some base_info →
     _get_token_account_balance chain
       (b58encode (key_at QUOTE_VAULT_OFFSET data)) = Some quote_info →
     ¬ (b_ui_amount base_info == 0)%Q →
     ¬ (b_ui_amount quote_info == 0)%Q →
     let base_mint := b58encode (key_at BASE_MINT_OFFSET data) in
     let quote_mint := b58encode (key_at QUOTE_MINT_OFFSET data) in
     get_pool_liquidity_sol chain pool_address
     = if String.eqb base_mint SOL_MINT
       then Some ((2 # 1) * b_ui_amount base_info)%Q
       else if String.eqb quote_mint SOL_MINT
       then Some ((2 # 1) * b_ui_amount quote_info)%Q
       else None).
Proof.
  intros Hinfo. destruct layout_size as [Hsize Hstruct]. split.
  - intros Hshort. unfold get_pool_liquidity_sol. rewrite Hinfo.
    destruct data as [| b0 data0] eqn:Hdata; [done |].
    rewrite <- Hdata in *. unfold parse.
    by rewrite parse_fields_short by (rewrite Hstruct, <- Hsize; lia).
  - intros Hlen Hbase Hquote Hb Hq. cbn zeta.
    unfold get_pool_liquidity_sol. rewrite Hinfo.
    destruct data as [| b0 data0] eqn:Hdata.
    { rewrite Hsize in Hlen. simpl in Hlen. lia. }
    rewrite <- Hdata in *. clear Hdata b0 data0.
    unfold parse. rewrite parse_fields_enough by (rewrite Hstruct, <- Hsize; lia).
    rewrite app_nil_l.
    destruct (layout_keys data) as (Kbv & Kqv & Kbm & Kqm).
    cbn zeta in Kbv, Kqv, Kbm, Kqm.
    rewrite Hsize in Hlen.
    rewrite Kbv, Kqv, Kbm, Kqm. cbn [mbind option_bind].
    rewrite !Pubkey_str_key
      by (unfold BASE_VAULT_OFFSET, QUOTE_VAULT_OFFSET, BASE_MINT_OFFSET,
          QUOTE_MINT_OFFSET; lia).
    rewrite Hbase, Hquote. cbn zeta.
    assert (Hnz : ∀ x : Q, ¬ (x == 0)%Q → Qeq_bool x 0 = false).
    { intros x Hx. destruct (Qeq_bool x 0) eqn:E; [| done].
      by apply Qeq_bool_iff in E. }
    by rewrite (Hnz _ Hb), (Hnz _ Hq).
Qed.

Lemma liquidity_is_twice_sol_side_witness :
  get_pool_liquidity_sol example_chain example_pool_address = Some ((2 # 1) * (2 # 1))%Q.
Proof.
  destruct (liquidity_is_twice_sol_side example_chain example_pool_address example_pool_data
              (mkBalance 2000000000 9 (2 # 1)) (mkBalance 4000000 6 (4 # 1))
              eq_refl) as [_ H].
  rewrite H; [reflexivity | vm_compute; lia | reflexivity | reflexivity
              | by vm_compute | by vm_compute].
Defined.

End PriceOracleFacts.

(** ** Ticks, shutdown and the run of the bot *)

Section LifecycleFacts.
Import SniperBot Lifecycle.

(** A pass over distinct entries that are in the open set treats each
    entry by itself. *)
Lemma fold_entries
      (stepf : BotState.t → string * Position.t → BotState.t)
      (g : string → Position.t → option Position.t) :
  (∀ st k p,
     BotState.positions st !! k = Some p →
     BotState.positions (stepf st (k, p))
     = match g k p with
       | Some p' => <[k := p']> (BotState.positions st)
       | None => delete k (BotState.positions st)
       end) →
  ∀ (l : list (string * Position.t)) (st : BotState.t),
    NoDup l.*1 →
    (∀ k p, (k, p) ∈ l → BotState.positions st !! k = Some p) →
    ∀ k, BotState.positions (fold_left stepf l st) !! k
         = match (list_to_map l : gmap string Position.t) !! k with
           | Some p => g k p
           | None => BotState.positions st !! k
           end.
Proof.
  intros Hstep. induction l as [| [k0 p0] l IH]; intros st Hnd Hin k.
  - simpl. by rewrite lookup_empty.
  - cbn [fold_left]. cbn [fmap list_fmap fst] in Hnd.
    apply NoDup_cons in Hnd as [Hfresh Hnd].
    assert (H0 : BotState.positions st !! k0 = Some p0) by (apply Hin; left).
    assert (Hother : ∀ k', k' ≠ k0 →
              BotState.positions (stepf st (k0, p0)) !! k'
              = BotState.positions st !! k').
    { intros k' Hne. rewrite (Hstep st k0 p0 H0).
      destruct (g k0 p0); [by rewrite lookup_insert_ne | by rewrite lookup_delete_ne]. }
    rewrite IH; [| exact Hnd |].
    + cbn [list_to_map foldr uncurry fst snd].
      fold (list_to_map (M := gmap string Position.t) l).
      destruct (decide (k = k0)) as [-> | Hne].
      * rewrite lookup_insert_eq.
        rewrite (not_elem_of_list_to_map_1 l k0 Hfresh).
        rewrite (Hstep st k0 p0 H0).
        destruct (g k0 p0); [by rewrite lookup_insert_eq | by rewrite lookup_delete_eq].
      * rewrite lookup_insert_ne by done.
        destruct (list_to_map l !! k); [done | by apply Hother].
    + intros k' p' Hin'. rewrite Hother; [apply Hin; by right |].
      intros ->. apply Hfresh. apply list_elem_of_fmap. by exists (k0, p').
Qed.

(** The same pass keeps the sum of closed trades and open positions, and
    touches no other counter. *)
Lemma fold_entries_account
      (stepf : BotState.t → string * Position.t → BotState.t) :
  (∀ st k p,
     BotState.positions st !! k = Some p →
     (BotState.positions (stepf st (k, p)) = delete k (BotState.positions st)
      ∧ closed (stepf st (k, p)) = closed st + 1
      ∨ (∃ p', BotState.positions (stepf st (k, p))
               = <[k := p']> (BotState.positions st))
        ∧ closed (stepf st (k, p)) = closed st)
     ∧ Stats.today_trades (BotState.stats (stepf st (k, p)))
       = Stats.today_trades (BotState.stats st)
     ∧ Stats.trades_executed (BotState.stats (stepf st (k, p)))
       = Stats.trades_executed (BotState.stats st)
     ∧ Stats.trades_simulated (BotState.stats (stepf st (k, p)))
       = Stats.trades_simulated (BotState.stats st)) →
  ∀ (l : list (string * Position.t)) (st : BotState.t),
    NoDup l.*1 →
    (∀ k p, (k, p) ∈ l → BotState.positions st !! k = Some p) →
    closed (fold_left stepf l st)
    + Z.of_nat (size (BotState.positions (fold_left stepf l st)))
    = closed st + Z.of_nat (size (BotState.positions st))
    ∧ Stats.today_trades (BotState.stats (fold_left stepf l st))
      = Stats.today_trades (BotState.stats st)
    ∧ Stats.trades_executed (BotState.stats (fold_left stepf l st))
      = Stats.trades_executed (BotState.stats st)
    ∧ Stats.trades_simulated (BotState.stats (fold_left stepf l st))
      = Stats.trades_simulated (BotState.stats st).
Proof.
  intros Hstep. induction l as [| [k0 p0] l IH]; intros st Hnd Hin; [done |].
  cbn [fold_left]. cbn [fmap list_fmap fst] in Hnd.
  apply NoDup_cons in Hnd as [Hfresh Hnd].
  assert (H0 : BotState.positions st !! k0 = Some p0) by (apply Hin; left).
  destruct (Hstep st k0 p0 H0) as (Hcase & Ht & He & Hs).
  assert (Hother : ∀ k', k' ≠ k0 →
            BotState.positions (stepf st (k0, p0)) !! k'
            = BotState.positions st !! k').
  { intros k' Hne. destruct Hcase as [[-> _] | [[p' ->] _]];
      [by rewrite lookup_delete_ne | by rewrite lookup_insert_ne]. }
  destruct (IH (stepf st (k0, p0)) Hnd) as (Hsum & Ht' & He' & Hs').
  { intros k' p' Hin'. rewrite Hother; [apply Hin; by right |].
    intros ->. apply Hfresh. apply list_elem_of_fmap. by exists (k0, p'). }
  rewrite Hsum, Ht', He', Hs', Ht, He, Hs. split; [| done].
  destruct Hcase as [[-> ->] | [[p' ->] ->]].
  - rewrite map_size_delete_Some by eauto.
    assert (size (BotState.positions st) ≠ 0%nat)
      by (apply map_size_ne_0_lookup_2 with k0; eauto).
    lia.
  - rewrite map_size_insert_Some by eauto. lia.
Qed.

Lemma monitor_entry_positions (cfg : Config.t) (feed : string → Q * option Q)
      (st : BotState.t) (k : string) (p : Position.t) :
  BotState.positions st !! k = Some p →
  BotState.positions (monitor_entry cfg feed st (k, p))
  = match settle cfg feed k p with
    | Some p' => <[k := p']> (BotState.positions st)
    | None => delete k (BotState.positions st)
    end.
Proof.
  intros Hk. unfold monitor_entry, settle.
  destruct (feed k) as [now price] eqn:Hfeed. cbn [fst snd].
  destruct (monitor_position cfg now price p) as [p' reason] eqn:Hmon.
  assert (Halter : alter (fun _ => p') k (BotState.positions st)
                   = <[k := p']> (BotState.positions st)).
  { apply map_eq. intros i. destruct (decide (i = k)) as [-> | Hne].
    - by rewrite lookup_alter_eq, lookup_insert_eq, Hk.
    - by rewrite lookup_alter_ne, lookup_insert_ne. }
  destruct reason as [r |].
  - destruct price as [price |].
    + unfold exit_position. cbn [BotState.positions BotState.set_positions
                                   BotState.set_stats].
      rewrite Halter. by rewrite delete_insert_eq.
    + unfold monitor_position in Hmon. by injection Hmon.
  - destruct price; cbn [BotState.positions BotState.set_positions]; exact Halter.
Qed.

Lemma exit_position_closed (k : string) (p : Position.t) (price : Q)
      (st : BotState.t) :
  closed (exit_position k p price st) = closed st + 1
  ∧ Stats.today_trades (BotState.stats (exit_position k p price st))
    = Stats.today_trades (BotState.stats st)
  ∧ Stats.trades_executed (BotState.stats (exit_position k p price st))
    = Stats.trades_executed (BotState.stats st)
  ∧ Stats.trades_simulated (BotState.stats (exit_position k p price st))
    = Stats.trades_simulated (BotState.stats st).
Proof.
  unfold exit_position, closed. simpl.
  destruct (Qlt_bool 0 (Position.current_pnl p price)); simpl; lia.
Qed.

Lemma monitor_entry_account (cfg : Config.t) (feed : string → Q * option Q)
      (st : BotState.t) (k : string) (p : Position.t) :
  BotState.positions st !! k = Some p →
  (BotState.positions (monitor_entry cfg feed st (k, p))
   = delete k (BotState.positions st)
   ∧ closed (monitor_entry cfg feed st (k, p)) = closed st + 1
   ∨ (∃ p', BotState.positions (monitor_entry cfg feed st (k, p))
            = <[k := p']> (BotState.positions st))
     ∧ closed (monitor_entry cfg feed st (k, p)) = closed st)
  ∧ Stats.today_trades (BotState.stats (monitor_entry cfg feed st (k, p)))
    = Stats.today_trades (BotState.stats st)
  ∧ Stats.trades_executed (BotState.stats (monitor_entry cfg feed st (k, p)))
    = Stats.trades_executed (BotState.stats st)
  ∧ Stats.trades_simulated (BotState.stats (monitor_entry cfg feed st (k, p)))
    = Stats.trades_simulated (BotState.stats st).
Proof.
  intros Hk. pose proof (monitor_entry_positions cfg feed st k p Hk) as Hpos.
  revert Hpos. unfold monitor_entry, settle.
  destruct (feed k) as [now price]. cbn [fst snd].
  destruct (monitor_position cfg now price p) as [p' reason] eqn:Hmon.
  destruct reason as [r |]; [destruct price as [price |] |].
  - intros Hpos.
    destruct (exit_position_closed k p' price
                (BotState.set_positions (alter (fun _ => p') k) st))
      as (Hc & Ht & He & Hs).
    split; [left; split; [exact Hpos | exact Hc] | done].
  - unfold monitor_position in Hmon. by injection Hmon.
  - intros Hpos. split; [right; split; [by exists p' | by destruct price] |].
    by destruct price.
Qed.

Lemma snapshot_entries (snapshot : list (string * Position.t)) (st : BotState.t) :
  snapshot ≡ₚ map_to_list (BotState.positions st) →
  NoDup snapshot.*1
  ∧ (∀ k p, (k, p) ∈ snapshot → BotState.positions st !! k = Some p)
  ∧ (list_to_map snapshot : gmap string Position.t) = BotState.positions st.
Proof.
  intros Hperm.
  assert (Hnd : NoDup snapshot.*1).
  { rewrite Hperm. apply NoDup_fst_map_to_list. }
  split; [exact Hnd |]. split.
  - intros k p Hin. rewrite Hperm in Hin. by apply elem_of_map_to_list.
  - rewrite (list_to_map_proper _ _ Hnd Hperm). apply list_to_map_to_list.
Qed.

Lemma monitor_tick_positions (cfg : Config.t) (feed : string → Q * option Q)
      (snapshot : list (string * Position.t)) (st : BotState.t) :
  snapshot ≡ₚ map_to_list (BotState.positions st) →
  BotState.positions (monitor_tick cfg feed snapshot st)
  = map_imap (settle cfg feed) (BotState.positions st).
Proof.
  intros Hperm.
  destruct (snapshot_entries snapshot st Hperm) as (Hnd & Hin & Hmap).
  apply map_eq. intros k. unfold monitor_tick.
  rewrite (fold_entries (monitor_entry cfg feed) (settle cfg feed)
             (monitor_entry_positions cfg feed) snapshot st Hnd Hin k).
  rewrite Hmap, map_lookup_imap.
  by destruct (BotState.positions st !! k).
Qed.

(** X13. A pass of the monitor over the snapshot of the open positions,
    with nothing else running in between, treats every position by itself:
    a position on which an exit rule fires is removed, every other one
    stays with its extremes widened by the price observed; each removal is
    counted once as a win or a loss, and the counters of trades are not
    touched. *)
Theorem monitor_tick_settles (cfg : Config.t) (feed : string → Q * option Q)
        (snapshot : list (string * Position.t)) (st : BotState.t) :
  snapshot ≡ₚ map_to_list (BotState.positions st) →
  let st' := monitor_tick cfg feed snapshot st in
  BotState.positions st' = map_imap (settle cfg feed) (BotState.positions st)
  ∧ closed st' - closed st
    = Z.of_nat (size (BotState.positions st))
      - Z.of_nat (size (BotState.positions st'))
  ∧ Stats.today_trades (BotState.stats st')
    = Stats.today_trades (BotState.stats st).
Proof.
  intros Hperm. cbn zeta.
  destruct (snapshot_entries snapshot st Hperm) as (Hnd & Hin & Hmap).
  split; [by apply monitor_tick_positions |].
  destruct (fold_entries_account (monitor_entry cfg feed)
              (monitor_entry_account cfg feed) snapshot st Hnd Hin)
    as (Hsum & Ht & _).
  fold (monitor_tick cfg feed snapshot st) in Hsum, Ht. split; [lia | exact Ht].
Qed.

Lemma cleanup_entry_positions (feed : string → option Q)
      (st : BotState.t) (k : string) (p : Position.t) :
  BotState.positions st !! k = Some p →
  BotState.positions (cleanup_entry feed st (k, p))
  = match (if priced (feed k) then None else Some p) with
    | Some p' => <[k := p']> (BotState.positions st)
    | None => delete k (BotState.positions st)
    end.
Proof.
  intros Hk. unfold cleanup_entry, priced.
  destruct (feed k) as [price |]; [destruct (Qeq_bool price 0) |];
    cbn [negb]; try by rewrite insert_id.
  reflexivity.
Qed.

Lemma cleanup_entry_account (feed : string → option Q)
      (st : BotState.t) (k : string) (p : Position.t) :
  BotState.positions st !! k = Some p →
  (BotState.positions (cleanup_entry feed st (k, p))
   = delete k (BotState.positions st)
   ∧ closed (cleanup_entry feed st (k, p)) = closed st + 1
   ∨ (∃ p', BotState.positions (cleanup_entry feed st (k, p))
            = <[k := p']> (BotState.positions st))
     ∧ closed (cleanup_entry feed st (k, p)) = closed st)
  ∧ Stats.today_trades (BotState.stats (cleanup_entry feed st (k, p)))
    = Stats.today_trades (BotState.stats st)
  ∧ Stats.trades_executed (BotState.stats (cleanup_entry feed st (k, p)))
    = Stats.trades_executed (BotState.stats st)
  ∧ Stats.trades_simulated (BotState.stats (cleanup_entry feed st (k, p)))
    = Stats.trades_simulated (BotState.stats st).
Proof.
  intros Hk. unfold cleanup_entry.
  destruct (feed k) as [price |]; [destruct (Qeq_bool price 0) |].
  - split; [right; split; [exists p; by rewrite insert_id | done] | done].
  - destruct (exit_position_closed k p price st) as (Hc & Ht & He & Hs).
    split; [left; split; [reflexivity | exact Hc] | done].
  - split; [right; split; [exists p; by rewrite insert_id | done] | done].
Qed.

(** X14. The shutdown loop closes an open position only when a price
    for it is returned: taken over the snapshot of the open positions, it
    removes exactly the positions that have a non-zero price and leaves
    every other position open and unchanged, counting one closed trade
    per removal. *)
Theorem shutdown_closes_only_priced (feed : string → option Q)
        (snapshot : list (string * Position.t)) (st : BotState.t) :
  snapshot ≡ₚ map_to_list (BotState.positions st) →
  let st' := shutdown_cleanup feed snapshot st in
  (∀ k p, BotState.positions st' !! k = Some p
          ↔ BotState.positions st !! k = Some p ∧ priced (feed k) = false)
  ∧ closed st' - closed st
    = Z.of_nat (size (BotState.positions st))
      - Z.of_nat (size (BotState.positions st')).
Proof.
  intros Hperm. cbn zeta.
  destruct (snapshot_entries snapshot st Hperm) as (Hnd & Hin & Hmap).
  split.
  - intros k p. unfold shutdown_cleanup.
    rewrite (fold_entries (cleanup_entry feed)
               (fun k p => if priced (feed k) then None else Some p)
               (cleanup_entry_positions feed) snapshot st Hnd Hin k).
    rewrite Hmap.
    destruct (BotState.positions st !! k) as [p0 |]; [| naive_solver].
    destruct (priced (feed k)); naive_solver.
  - destruct (fold_entries_account (cleanup_entry feed)
                (cleanup_entry_account feed) snapshot st Hnd Hin)
      as (Hsum & _).
    fold (shutdown_cleanup feed snapshot st) in Hsum. lia.
Qed.

Lemma shutdown_closes_only_priced_witness :
  let st' := shutdown_cleanup price_of_A_only
               (map_to_list (BotState.positions two_open)) two_open in
  is_Some (BotState.positions st' !! "MintB")
  ∧ BotState.positions st' !! "MintA" = None.
Proof.
  cbn zeta.
  destruct (shutdown_closes_only_priced price_of_A_only
              (map_to_list (BotState.positions two_open)) two_open)
    as [Hkeep _]; [done |].
  split.
  - eexists. apply Hkeep. split; [by vm_compute | reflexivity].
  - destruct (BotState.positions _ !! "MintA") as [p |] eqn:E; [| done].
    apply Hkeep in E as [_ E]. discriminate E.
Defined.

Lemma monitor_tick_settles_witness :
  let st' := monitor_tick Config.default doubled_A
               (map_to_list (BotState.positions two_open)) two_open in
  BotState.positions st' !! "MintA" = None
  ∧ is_Some (BotState.positions st' !! "MintB")
  ∧ closed st' = 1.
Proof.
  cbn zeta.
  destruct (monitor_tick_settles Config.default doubled_A
              (map_to_list (BotState.positions two_open)) two_open)
    as (Hpos & Hclosed & _); [done |].
  assert (HA : BotState.positions
                 (monitor_tick Config.default doubled_A
                    (map_to_list (BotState.positions two_open)) two_open)
               !! "MintA" = None).
  { rewrite Hpos, map_lookup_imap. by vm_compute. }
  assert (HB : is_Some (BotState.positions
                          (monitor_tick Config.default doubled_A
                             (map_to_list (BotState.positions two_open)) two_open)
                        !! "MintB")).
  { rewrite Hpos, map_lookup_imap. vm_compute. eauto. }
  split; [exact HA |]. split; [exact HB |].
  rewrite Hpos in Hclosed.
  assert (Hsize : size (map_imap (settle Config.default doubled_A)
                          (BotState.positions two_open)) = 1%nat)
    by by vm_compute.
  rewrite Hsize in Hclosed.
  change (size (BotState.positions two_open)) with 2%nat in Hclosed.
  change (closed two_open) with 0 in Hclosed. lia.
Defined.

Lemma resume_account (cfg : Config.t) (c : Coro) (r : Resume) (st : BotState.t) :
  let st' := (resume cfg c r st).1 in
  closed st' = closed st
  ∧ (BotState.positions st' = BotState.positions st
     ∧ Stats.today_trades (BotState.stats st')
       = Stats.today_trades (BotState.stats st)
     ∧ Stats.trades_executed (BotState.stats st')
       + Stats.trades_simulated (BotState.stats st')
       = Stats.trades_executed (BotState.stats st)
         + Stats.trades_simulated (BotState.stats st)
     ∨ (size (BotState.positions st') ≤ S (size (BotState.positions st)))%nat
       ∧ Stats.today_trades (BotState.stats st')
         = Stats.today_trades (BotState.stats st) + 1
       ∧ Stats.trades_executed (BotState.stats st')
         + Stats.trades_simulated (BotState.stats st')
         = Stats.trades_executed (BotState.stats st)
           + Stats.trades_simulated (BotState.stats st) + 1).
Proof.
  cbn zeta.
  destruct c as [ev | ev | ev rug | ev rug price |],
           r as [| rug' | [p |] | [tx |] now];
    cbn [resume]; try (split; [done | left; done]).
  - destruct (_ <=? _); [split; [done | left; done] |].
    destruct (_ <=? _); split; (done || (left; done)).
  - destruct (negb _); split; (done || (left; done)).
  - destruct (_ || _); split; (done || (left; done)).
  - destruct (String.eqb tx ""); [split; [done | left; done] |].
    split; [done | right].
    cbn [fst BotState.positions BotState.set_positions BotState.set_stats
         BotState.stats].
    split.
    + destruct (BotState.positions st !! NewPoolEvent.token_mint ev) eqn:E.
      * rewrite map_size_insert_Some by eauto. lia.
      * rewrite map_size_insert_None by done. lia.
    + unfold Stats.count_trade. destruct (Config.DRY_RUN cfg); simpl; lia.
Qed.

Lemma step_account (cfg : Config.t) (st st' : BotState.t) :
  step cfg st st' →
  Stats.today_trades (BotState.stats st)
    ≤ Stats.today_trades (BotState.stats st')
  ∧ (Stats.today_trades (BotState.stats st)
     = Stats.trades_executed (BotState.stats st)
       + Stats.trades_simulated (BotState.stats st) →
     Stats.today_trades (BotState.stats st')
     = Stats.trades_executed (BotState.stats st')
       + Stats.trades_simulated (BotState.stats st'))
  ∧ (closed st + Z.of_nat (size (BotState.positions st))
     ≤ Stats.today_trades (BotState.stats st) →
     closed st' + Z.of_nat (size (BotState.positions st'))
     ≤ Stats.today_trades (BotState.stats st'))
  ∧ (0 ≤ closed st → 0 ≤ closed st').
Proof.
  intros Hstep. destruct Hstep as [st event | st sig | st c r | st feed snapshot Hperm].
  - unfold process_log_event, closed.
    destruct (negb (is_new_pool (logs event))); simpl; repeat split; lia.
  - unfold analyze_new_pool, closed. case_decide; simpl; repeat split; lia.
  - destruct (resume_account cfg c r st) as (Hc & [(Hp & Ht & Hes) | (Hp & Ht & Hes)]);
      cbn zeta in *; rewrite ?Hc, ?Hp; repeat split; lia.
  - destruct (snapshot_entries snapshot st Hperm) as (Hnd & Hin & _).
    destruct (fold_entries_account (monitor_entry cfg feed)
                (monitor_entry_account cfg feed) snapshot st Hnd Hin)
      as (Hsum & Ht & He & Hs).
    fold (monitor_tick cfg feed snapshot st) in Hsum, Ht, He, Hs.
    repeat split; try lia.
    intros H0. assert (Hsz : (size (BotState.positions
                                      (monitor_tick cfg feed snapshot st))
                              ≤ size (BotState.positions st))%nat).
    { rewrite (monitor_tick_positions cfg feed snapshot st Hperm). clear.
      rewrite <- size_dom, <- (size_dom (BotState.positions st)).
      apply subseteq_size. intros k Hk. apply elem_of_dom in Hk as [p Hk].
      apply elem_of_dom. rewrite map_lookup_imap in Hk.
      destruct (BotState.positions st !! k); [eauto | done]. }
    lia.
Qed.

(** X15. From the start of the bot, in every state it reaches by
    processing log events, running analysis tasks, running pieces of entry
    coroutines in any interleaving and making monitor passes: the counter
    of today's trades is the sum of the executed and the simulated trades,
    and closed trades plus open positions never exceed it. *)
Theorem trade_counters_account (cfg : Config.t) (st : BotState.t) :
  reaches cfg BotState.init st →
  Stats.today_trades (BotState.stats st)
  = Stats.trades_executed (BotState.stats st)
    + Stats.trades_simulated (BotState.stats st)
  ∧ closed st + Z.of_nat (size (BotState.positions st))
    ≤ Stats.today_trades (BotState.stats st)
  ∧ 0 ≤ closed st.
Proof.
  intros Hreach.
  remember BotState.init as st0 eqn:Hst0.
  induction Hreach as [st | st st' st'' Hreach IH Hstep].
  - subst st. by vm_compute.
  - destruct (IH Hst0) as (H1 & H2 & H3).
    destruct (step_account cfg st' st'' Hstep) as (_ & K1 & K2 & K3).
    split; [by apply K1 |]. split; [by apply K2 | by apply K3].
Qed.

Lemma trade_counters_account_witness :
  let st := (resume Config.default
               (AwaitBuy (pool_event_for "A") safe_result (1 # 1))
               (Bought (Some "simulated-buy") 0%Q) BotState.init).1 in
  closed st + Z.of_nat (size (BotState.positions st))
  ≤ Stats.today_trades (BotState.stats st).
Proof.
  intros st.
  destruct (trade_counters_account Config.default st) as (_ & H & _);
    [| exact H].
  apply (reaches_step _ _ BotState.init); [apply reaches_here |].
  apply step_resume.
Defined.

Lemma reaches_today (cfg : Config.t) (st st' : BotState.t) :
  reaches cfg st st' →
  Stats.today_trades (BotState.stats st)
  ≤ Stats.today_trades (BotState.stats st').
Proof.
  induction 1 as [st | st st' st'' Hreach IH Hstep]; [lia |].
  destruct (step_account cfg st' st'' Hstep) as (Hle & _). lia.
Qed.

(** X16. The counter of today's trades is never reset or lowered by
    any step of the bot. So once it has reached the daily limit, in every
    later state an analysis of a new pool stops at the admission check and
    leaves the state as it is: no position is opened again. *)
Theorem daily_limit_is_final (cfg : Config.t) (st st' : BotState.t) :
  reaches cfg st st' →
  Config.MAX_DAILY_TRADES cfg ≤ Stats.today_trades (BotState.stats st) →
  Config.MAX_DAILY_TRADES cfg ≤ Stats.today_trades (BotState.stats st')
  ∧ ∀ (pool_event : NewPoolEvent.t) (a : Answers),
      resume cfg (Created pool_event) Begin st' = (st', Finished)
      ∧ analyze_and_trade_pool cfg pool_event a st' = st'.
Proof.
  intros Hreach Hfull. pose proof (reaches_today cfg st st' Hreach) as Hle.
  split; [lia |]. intros pool_event a. split.
  - cbn [resume]. destruct (_ <=? _); [done |].
    destruct (Z.leb_spec (Config.MAX_DAILY_TRADES cfg)
                         (Stats.today_trades (BotState.stats st'))); [done | lia].
  - apply admission_rejects. right. lia.
Qed.

Lemma daily_limit_is_final_witness :
  analyze_and_trade_pool Config.default (pool_event_for "A")
    (mkAnswers safe_result (Some (1 # 1)) (Some "simulated-buy") 0%Q)
    (process_log_event creation_event day_is_full).1
  = (process_log_event creation_event day_is_full).1.
Proof.
  destruct (daily_limit_is_final Config.default day_is_full
              (process_log_event creation_event day_is_full).1) as [_ H].
  - apply (reaches_step _ _ day_is_full); [apply reaches_here |].
    apply step_log.
  - by vm_compute.
  - apply H.
Defined.

End LifecycleFacts.

(** ** Entries and exits *)

Section EntryExitFacts.
Import SniperBot Lifecycle.

Lemma exit_rule_inv (cfg : Config.t) (pnl hold_time : Q) (reason : ExitReason) :
  exit_rule cfg pnl hold_time = Some reason →
  match reason with
  | STOP_LOSS => (pnl <= Config.STOP_LOSS_PERCENT cfg)%Q
  | TAKE_PROFIT_2 => (Config.TAKE_PROFIT_2 cfg <= pnl)%Q
  | TAKE_PROFIT_1 => (Config.TAKE_PROFIT_1 cfg <= pnl)%Q
  | TIMEOUT_LOSS => (pnl < -5 # 1)%Q
  | BOT_STOPPED => False
  end.
Proof.
  unfold exit_rule.
  destruct (Qle_bool pnl _) eqn:E1; [intros [= <-]; by apply Qle_bool_iff |].
  destruct (Qle_bool (Config.TAKE_PROFIT_2 cfg) pnl) eqn:E2;
    [intros [= <-]; by apply Qle_bool_iff |].
  destruct (Qle_bool (Config.TAKE_PROFIT_1 cfg) pnl) eqn:E3;
    [intros [= <-]; by apply Qle_bool_iff |].
  destruct (Qlt_bool (60 # 1) hold_time); [| done].
  destruct (Qlt_bool pnl (-5 # 1)) eqn:E4; [| done].
  intros [= <-]. by apply Qlt_bool_iff.
Qed.

(** X17. When the monitor exits a position, the exit is counted from the
    same profit that chose the rule. An exit by timeout is always counted
    as a loss; an exit by the stop loss is counted as a loss whenever the
    stop-loss threshold is not positive; an exit by a take-profit tier is
    counted as a win whenever that tier's threshold is positive. Exactly
    one of the two counters grows by one. *)
Theorem exits_are_classified (cfg : Config.t) (now price : Q)
        (position position' : Position.t) (reason : ExitReason)
        (token_mint : string) (st : BotState.t) :
  monitor_position cfg now (Some price) position = (position', Some reason) →
  let st' := exit_position token_mint position' price st in
  let won := Stats.wins (BotState.stats st') = Stats.wins (BotState.stats st) + 1
             ∧ Stats.losses (BotState.stats st')
               = Stats.losses (BotState.stats st) in
  let lost := Stats.losses (BotState.stats st')
              = Stats.losses (BotState.stats st) + 1
              ∧ Stats.wins (BotState.stats st') = Stats.wins (BotState.stats st) in
  (won ∨ lost)
  ∧ (reason = TIMEOUT_LOSS → lost)
  ∧ (reason = STOP_LOSS → (Config.STOP_LOSS_PERCENT cfg <= 0)%Q → lost)
  ∧ (reason = TAKE_PROFIT_2 → (0 < Config.TAKE_PROFIT_2 cfg)%Q → won)
  ∧ (reason = TAKE_PROFIT_1 → (0 < Config.TAKE_PROFIT_1 cfg)%Q → won).
Proof.
  intros Hmon. cbn zeta. unfold monitor_position in Hmon.
  destruct (Qeq_bool price 0); [done |].
  injection Hmon as <- Hrule. apply exit_rule_inv in Hrule.
  set (pnl := Position.current_pnl (update_extremes position price) price) in *.
  unfold exit_position. fold pnl.
  cbn [BotState.stats BotState.set_stats BotState.set_positions
       Stats.count_exit Stats.wins Stats.losses].
  destruct (Qlt_bool_cases 0 pnl) as [[-> Hpos] | [-> Hneg]].
  - split; [left; split; lia |].
    split; [intros ->; exfalso; lra |].
    split; [intros -> Hsl; exfalso; lra |].
    split; intros _ _; split; lia.
  - split; [right; split; lia |].
    split; [intros _; split; lia |].
    split; [intros _ _; split; lia |].
    split; intros -> Htp; exfalso; lra.
Qed.

Lemma exits_are_classified_witness :
  let st' := exit_position "MintA"
               (update_extremes
                  (new_position Config.default (pool_event_for "A") safe_result
                                (1 # 1) "simulated-buy" 0%Q) (1 # 2))
               (1 # 2) BotState.init in
  Stats.losses (BotState.stats st') = 1.
Proof.
  intros st'.
  destruct (exits_are_classified Config.default (10 # 1) (1 # 2)
              (new_position Config.default (pool_event_for "A") safe_result
                            (1 # 1) "simulated-buy" 0%Q)
              (update_extremes
                 (new_position Config.default (pool_event_for "A") safe_result
                               (1 # 1) "simulated-buy" 0%Q) (1 # 2))
              STOP_LOSS "MintA" BotState.init eq_refl)
    as (_ & _ & Hstop & _).
  destruct Hstop as [H _]; [reflexivity | by vm_compute |]. exact H.
Defined.

(** X18. A creation event that carries no signature is filed under the
    key "unknown". Two such events, even for different pools, therefore
    count two detections but lead to one analysis at most: the task of the
    second finds "unknown" recorded and returns. *)
Theorem unsigned_events_share_one_key (st : BotState.t) (e1 e2 : LogEvent) :
  is_new_pool (logs e1) = true →
  is_new_pool (logs e2) = true →
  signature e1 = None →
  signature e2 = None →
  let final :=
    loop_run (mkLoop st []) [Deliver e1; RunTask 0; Deliver e2; RunTask 0] in
  pending final = []
  ∧ Stats.pools_detected (BotState.stats (loop_state final))
    = Stats.pools_detected (BotState.stats st) + 2
  ∧ Stats.pools_analyzed (BotState.stats (loop_state final))
    = Stats.pools_analyzed (BotState.stats st)
      + (if decide ("unknown" ∈ BotState.processed_pools st) then 0 else 1)
  ∧ BotState.processed_pools (loop_state final)
    = BotState.processed_pools st ∪ {["unknown"]}.
Proof.
  intros H1 H2 S1 S2. cbn zeta.
  pose proof (loop_deliver_creation e1 H1) as D1.
  pose proof (loop_deliver_creation e2 H2) as D2.
  rewrite S1 in D1. rewrite S2 in D2. cbn [default] in D1, D2.
  assert (Hrun : loop_run (mkLoop st [])
                   [Deliver e1; RunTask 0; Deliver e2; RunTask 0]
                 = mkLoop (detected_twice (analyze_new_pool "unknown" st)) []).
  { unfold loop_run. cbn [fold_left].
    repeat first [ rewrite D1 | rewrite D2 | rewrite loop_run_first
                 | progress cbn [pending loop_state app] ].
    rewrite !analyze_after_detection.
    by rewrite analyze_new_pool_idempotent. }
  rewrite Hrun. cbn [loop_state pending].
  split; [done |]. split.
  { unfold analyze_new_pool. case_decide; simpl; lia. }
  split; [apply analyze_new_pool_counts | apply analyze_new_pool_marks].
Qed.

Lemma unsigned_events_share_one_key_witness :
  Stats.pools_analyzed
    (BotState.stats
       (loop_state
          (loop_run (mkLoop BotState.init [])
             [Deliver (unsigned_event "A"); RunTask 0;
              Deliver (unsigned_event "B"); RunTask 0]))) = 1.
Proof.
  destruct (unsigned_events_share_one_key BotState.init
              (unsigned_event "A") (unsigned_event "B"))
    as (_ & _ & H & _);
    [reflexivity | reflexivity | reflexivity | reflexivity |].
  rewrite H. reflexivity.
Defined.

Lemma analyze_unsafe_keeps (cfg : Config.t) (pool_event : NewPoolEvent.t)
      (a : Answers) (st : BotState.t) :
  RugChecker.is_safe (rug_answer a) = false →
  BotState.positions (analyze_and_trade_pool cfg pool_event a st)
  = BotState.positions st
  ∧ Stats.today_trades (BotState.stats
                          (analyze_and_trade_pool cfg pool_event a st))
    = Stats.today_trades (BotState.stats st).
Proof.
  intros Hunsafe. unfold analyze_and_trade_pool. cbn [resume].
  destruct (_ <=? _); [done |]. destruct (_ <=? _); [done |].
  cbn [resume]. rewrite Hunsafe. cbn [negb resume].
  by destruct (price_answer a).
Qed.

(** X19. Run without interleaving, an analysis opens a position only
    when all four gates are passed: the state is below both limits, the
    screening verdict is safe, the price is positive, and the buy returned
    a signature. Then the position is stored under the token mint with
    entry, highest and lowest price equal to that price, and the trade is
    counted; in every other case neither the open positions nor the
    counter of today's trades change. *)
Theorem position_opens_behind_four_gates
        (cfg : Config.t) (pool_event : NewPoolEvent.t) (a : Answers)
        (st : BotState.t) :
  let st' := analyze_and_trade_pool cfg pool_event a st in
  if gates_open cfg st && RugChecker.is_safe (rug_answer a)
     && price_ok (price_answer a) && bought (buy_answer a)
  then ∃ price_usd tx_sig,
      price_answer a = Some price_usd ∧ buy_answer a = Some tx_sig
      ∧ BotState.positions st'
        = <[NewPoolEvent.token_mint pool_event :=
              new_position cfg pool_event (rug_answer a) price_usd tx_sig
                           (buy_time a)]> (BotState.positions st)
      ∧ Stats.today_trades (BotState.stats st')
        = Stats.today_trades (BotState.stats st) + 1
  else BotState.positions st' = BotState.positions st
       ∧ Stats.today_trades (BotState.stats st')
         = Stats.today_trades (BotState.stats st).
Proof.
  cbn zeta. unfold analyze_and_trade_pool, gates_open. cbn [resume].
  destruct (_ <=? _); [done |]. destruct (_ <=? _); [done |].
  cbn [negb andb resume].
  destruct (RugChecker.is_safe (rug_answer a)); cbn [negb andb resume];
    [| by destruct (price_answer a)].
  unfold price_ok. destruct (price_answer a) as [price |]; cbn [resume andb];
    [| done].
  destruct (_ || _); cbn [negb andb resume]; [done |].
  unfold bought. destruct (buy_answer a) as [tx |]; cbn [resume]; [| done].
  destruct (String.eqb tx ""); cbn [negb]; [done |].
  exists price, tx. cbn [BotState.positions BotState.set_positions
                          BotState.set_stats BotState.stats].
  repeat split; unfold Stats.count_trade; by destruct (Config.DRY_RUN cfg).
Qed.

(** X20. A token whose mint authority and freeze authority are both
    reported as not renounced (or whose mint account cannot be read) is
    never bought: whatever the other checks, the limits, the price and the
    trader answer, an analysis whose screening is the one of such a token
    leaves the open positions and the counter of today's trades as they
    were. *)
Theorem token_failing_both_authorities_is_not_bought
        (fmt : Screening.FloatFormat) (settings : Screening.Settings)
        (chain : Screening.ChainAnswers) (creator_address : option string)
        (liquidity_sol : option Q)
        (cfg : Config.t) (pool_event : NewPoolEvent.t) (a : Answers)
        (st : BotState.t) :
  RugChecker.passed
    (RugChecker._check_mint_authority (Screening.mint_account chain)) = false →
  RugChecker.passed
    (RugChecker._check_freeze_authority (Screening.freeze_account chain))
  = false →
  rug_answer a
  = Screening.screen fmt settings chain creator_address liquidity_sol →
  BotState.positions (analyze_and_trade_pool cfg pool_event a st)
  = BotState.positions st
  ∧ Stats.today_trades (BotState.stats
                          (analyze_and_trade_pool cfg pool_event a st))
    = Stats.today_trades (BotState.stats st).
Proof.
  intros Hm Hf Hscreen. apply analyze_unsafe_keeps. rewrite Hscreen.
  by apply authority_failures_unsafe.
Qed.

Lemma token_failing_both_authorities_is_not_bought_witness :
  BotState.positions
    (analyze_and_trade_pool Config.default (pool_event_for "A")
       (mkAnswers (Screening.screen Screening.no_format
                     Screening.default_settings Screening.both_authorities
                     None None)
                  (Some (1 # 1)) (Some "simulated-buy") 0%Q)
       BotState.init)
  = BotState.positions BotState.init.
Proof.
  apply (token_failing_both_authorities_is_not_bought
           Screening.no_format Screening.default_settings
           Screening.both_authorities None None); reflexivity.
Defined.

End EntryExitFacts.

(* ================================================================== *)
(** ** The trader *)
(* ================================================================== *)

Section TraderFacts.
Import JupiterTrader.

Lemma sign_and_submit_dry (id tx : string) (a : Answers) :
  let '(r, t) := sign_and_submit id tx true a in
  forallb (fun x => negb (is_send x)) t = true
  ∧ ∀ sim, r = Some sim →
      sim = id ++ pretty (now a) ∧ simulated a = inr None
      ∧ ∃ stx, signed a tx = inr stx ∧ t = [Simulate stx; CloseClient].
Proof.
  unfold sign_and_submit.
  destruct (signed a tx) as [e|stx]; [by split|].
  destruct (simulated a) as [e|[err|]]; [by split| |];
    destruct (closed a) as [e|[]]; try by split.
  split; [done|]. intros sim [= <-]. split; [done|]. split; [done|].
  by exists stx.
Qed.

Lemma execute_cases (amt : Z) (i o : string) (am : option Z) (id : string)
      (dry : bool) (a : Answers) :
  let request := QuoteRequest i o (default amt am) in
  execute amt i o am id dry a = (None, [request])
  ∨ (∃ q, execute amt i o am id dry a = (None, [request; SwapRequest q]))
  ∨ (∃ q b64 st2,
        quote_http a = inr (200, inr q) ∧ q ≠ []
        ∧ swap_http a = inr (st2, Some b64)
        ∧ (st2 = 200 ∨ st2 = 201) ∧ b64 ≠ ""
        ∧ execute amt i o am id dry a
          = ((sign_and_submit id b64 dry a).1,
             request :: SwapRequest q :: (sign_and_submit id b64 dry a).2)).
Proof.
  unfold execute, get_quote.
  destruct (quote_http a) as [e|[st1 [e|q]]] eqn:Eq; [by left| |];
    (destruct (Z.eqb_spec st1 200) as [-> | Hst1]; [|by left]);
    cbn [negb]; [by left|].
  destruct q as [|kv q]; [by left|].
  unfold get_swap_transaction.
  destruct (swap_http a) as [e|[st2 [b64|]]] eqn:Es;
    [right; left; by eexists| |].
  2: { destruct (negb _); right; left; by eexists. }
  destruct (Z.eqb_spec st2 200) as [H200 | H200];
    destruct (Z.eqb_spec st2 201) as [H201 | H201]; cbn [orb negb];
    try (destruct (String.eqb_spec b64 "") as [Hb | Hb];
         [right; left; by eexists|]);
    try (right; left; by eexists).
  all: right; right; exists (kv :: q), b64, st2.
  all: split; [done|]; split; [done|]; split; [done|].
  all: split; [tauto|]; split; [done|].
  all: by destruct (sign_and_submit id b64 dry a).
Qed.

(** X21. A dry run never sends a transaction, for a purchase and for a
    sale alike, whatever the aggregator and the node answer; and when it
    returns an identifier, that identifier is the simulated one (prefix
    and clock), the simulation reported no error and exactly one
    simulation was requested. *)
Theorem dry_run_never_sends (amt : Z) (token : string) (tokens : Z)
        (a : Answers) :
  (let '(r, t) := execute_buy amt token true a in
   forallb (fun x => negb (is_send x)) t = true
   ∧ ∀ sim, r = Some sim →
       sim = "simulated-" ++ pretty (now a) ∧ simulated a = inr None
       ∧ length (filter is_simulate t) = 1%nat)
  ∧ (let '(r, t) := execute_sell amt token tokens true a in
     forallb (fun x => negb (is_send x)) t = true
     ∧ ∀ sim, r = Some sim →
         sim = "simulated-sell-" ++ pretty (now a) ∧ simulated a = inr None
         ∧ length (filter is_simulate t) = 1%nat).
Proof.
  assert (H : ∀ i o am id,
    let '(r, t) := execute amt i o am id true a in
    forallb (fun x => negb (is_send x)) t = true
    ∧ ∀ sim, r = Some sim →
        sim = id ++ pretty (now a) ∧ simulated a = inr None
        ∧ length (filter is_simulate t) = 1%nat).
  { intros i o am id.
    destruct (execute_cases amt i o am id true a)
      as [->|[[q ->]|(q & b64 & st2 & _ & _ & _ & _ & _ & ->)]];
      [by split|by split|].
    pose proof (sign_and_submit_dry id b64 a) as Hd.
    destruct (sign_and_submit id b64 true a) as [r3 t3]. simpl.
    destruct Hd as [Hf Hd]. split; [done|].
    intros sim Hr. destruct (Hd sim Hr) as (-> & Hsim & stx & _ & ->).
    by repeat split. }
  split; [apply (H SOL_MINT token None "simulated-")
         |apply (H token SOL_MINT (Some tokens) "simulated-sell-")].
Qed.

Lemma sign_and_submit_real (id tx : string) (a : Answers) :
  let '(r, t) := sign_and_submit id tx false a in
  forallb (fun x => negb (is_simulate x)) t = true
  ∧ (length (filter is_send t) ≤ 1)%nat
  ∧ (∀ stx, In (Send stx) t → signed a tx = inr stx)
  ∧ (∀ stx, In (Send stx) t →
        t = Send stx :: match sent a with
                        | inl _ => []
                        | inr _ => [CloseClient]
                        end)
  ∧ (∀ tx_sig, r = Some tx_sig →
        sent a = inr tx_sig ∧ closed a = inr tt
        ∧ ∃ stx, t = [Send stx; CloseClient]).
Proof.
  unfold sign_and_submit.
  destruct (signed a tx) as [e|stx].
  { simpl. repeat split; try done; lia. }
  destruct (sent a) as [e|tx_sig].
  { simpl. split; [done|]. split; [lia|]. split; [|split; [|done]].
    - by intros ? [[= <-]|[]].
    - by intros ? [[= <-]|[]]. }
  assert (Ht : ∀ stx0, In (Send stx0) [Send stx; CloseClient] → stx0 = stx).
  { by intros ? [[= <-]|[?|[]]]. }
  destruct (closed a) as [e|[]] eqn:Ec; simpl.
  - split; [done|]. split; [lia|]. split; [|split; [|done]].
    + intros ? Hin. by rewrite (Ht _ Hin).
    + intros ? Hin. by rewrite (Ht _ Hin).
  - split; [done|]. split; [lia|]. split; [|split].
    + intros ? Hin. by rewrite (Ht _ Hin).
    + intros ? Hin. by rewrite (Ht _ Hin).
    + intros ? [= <-]. split; [done|]. split; [done|]. by exists stx.
Qed.

(** X22. A real purchase sends at most one transaction and never
    simulates; whatever it sends is the transaction that the swap service
    returned, with status 200 or 201 and not empty, for a quote that the
    quote service returned with status 200 and that is not empty, signed
    by the wallet; and a signature is returned only when the node gave it
    for that transaction and the client was then closed. *)
Theorem real_buy_sends_what_was_signed (amt : Z) (token : string)
        (a : Answers) :
  let '(r, t) := execute_buy amt token false a in
  forallb (fun x => negb (is_simulate x)) t = true
  ∧ (length (filter is_send t) ≤ 1)%nat
  ∧ (∀ stx, In (Send stx) t →
       ∃ q b64 st2,
         quote_http a = inr (200, inr q) ∧ q ≠ []
         ∧ swap_http a = inr (st2, Some b64)
         ∧ (st2 = 200 ∨ st2 = 201) ∧ b64 ≠ ""
         ∧ t = QuoteRequest SOL_MINT token amt :: SwapRequest q
               :: Send stx :: match sent a with
                              | inl _ => []
                              | inr _ => [CloseClient]
                              end
         ∧ signed a b64 = inr stx)
  ∧ (∀ tx_sig, r = Some tx_sig →
       sent a = inr tx_sig ∧ closed a = inr tt
       ∧ ∃ stx, In (Send stx) t).
Proof.
  unfold execute_buy.
  destruct (execute_cases amt SOL_MINT token None "simulated-" false a)
    as [->|[[q ->]|(q & b64 & st2 & Hq & Hne & Hs & Hst & Hb & ->)]].
  - split; [done|]. split; [simpl; lia|]. split; [|done].
    by intros ? [?|[]].
  - split; [done|]. split; [simpl; lia|]. split; [|done].
    by intros ? [?|[?|[]]].
  - pose proof (sign_and_submit_real "simulated-" b64 a) as Hr.
    destruct (sign_and_submit "simulated-" b64 false a) as [r3 t3]. simpl.
    destruct Hr as (Hsim & Hone & Hsigned & Htrace & Hres).
    split; [done|]. split; [done|]. split.
    + intros stx [?|[?|Hin]]; [done|done|].
      exists q, b64, st2. repeat split; try done.
      * by rewrite (Htrace stx Hin).
      * by apply Hsigned.
    + intros tx_sig Hsig.
      destruct (Hres tx_sig Hsig) as (Hsent & Hc & stx & ->).
      split; [done|]. split; [done|]. exists stx. right. right. by left.
Qed.

(** X23. Signing comes before any call to the node. When decoding,
    deserialising or signing the transaction raises, a purchase and a sale
    return [None] in either mode, and all that went over the network is
    the quote request and, when the quote was usable, the swap request:
    nothing is simulated, nothing is sent and no client is closed. *)
Theorem signing_failure_stops_before_the_node (amt : Z) (token : string)
        (tokens : Z) (dry : bool) (a : Answers) :
  (∀ tx, ∃ e, signed a tx = inl e) →
  (let '(r, t) := execute_buy amt token dry a in
   r = None
   ∧ ∃ swaps, t = QuoteRequest SOL_MINT token amt :: swaps
              ∧ (swaps = [] ∨ ∃ q, swaps = [SwapRequest q]))
  ∧ (let '(r, t) := execute_sell amt token tokens dry a in
     r = None
     ∧ ∃ swaps, t = QuoteRequest token SOL_MINT tokens :: swaps
                ∧ (swaps = [] ∨ ∃ q, swaps = [SwapRequest q])).
Proof.
  intros Hsign.
  assert (H : ∀ i o am id,
    let '(r, t) := execute amt i o am id dry a in
    r = None
    ∧ ∃ swaps, t = QuoteRequest i o (default amt am) :: swaps
               ∧ (swaps = [] ∨ ∃ q, swaps = [SwapRequest q])).
  { intros i o am id.
    destruct (execute_cases amt i o am id dry a)
      as [->|[[q ->]|(q & b64 & st2 & _ & _ & _ & _ & _ & ->)]].
    - split; [done|]. exists []. split; [done|by left].
    - split; [done|]. eexists. split; [done|]. right. by exists q.
    - unfold sign_and_submit. destruct (Hsign b64) as [e ->]. simpl.
      split; [done|]. eexists. split; [done|]. right. by exists q. }
  split; [apply (H SOL_MINT token None "simulated-")
         |apply (H token SOL_MINT (Some tokens) "simulated-sell-")].
Qed.

Lemma signing_failure_stops_before_the_node_witness :
  (execute_buy 10000000 PriceCalculator.example_token_mint false
               signing_raises).1 = None
  ∧ (execute_buy 10000000 PriceCalculator.example_token_mint true
                 signing_raises).1 = None.
Proof.
  split.
  - destruct (signing_failure_stops_before_the_node
                10000000 PriceCalculator.example_token_mint 5 false
                signing_raises) as [Hbuy _].
    + intros tx. by exists "AttributeError".
    + destruct (execute_buy _ _ _ _) as [r t]. by destruct Hbuy.
  - destruct (signing_failure_stops_before_the_node
                10000000 PriceCalculator.example_token_mint 5 true
                signing_raises) as [Hbuy _].
    + intros tx. by exists "AttributeError".
    + destruct (execute_buy _ _ _ _) as [r t]. by destruct Hbuy.
Defined.

End TraderFacts.

(* ================================================================== *)
(** ** The status shown by the health server *)
(* ================================================================== *)

Section HealthFacts.
Import HealthServer.

Lemma rate_range (w l : Z) :
  0 ≤ w → 0 ≤ l → (0 <= rate w l ∧ rate w l <= 100 # 1)%Q.
Proof.
  intros Hw Hl. unfold rate. cbn zeta.
  destruct (0 <? w + l) eqn:E; [|split; [apply Qle_refl|by vm_compute]].
  apply Z.ltb_lt in E.
  assert (Ht : (0 < inject_Z (w + l))%Q).
  { change 0%Q with (inject_Z 0). by rewrite <- Zlt_Qlt. }
  assert (H0 : (0 <= inject_Z w / inject_Z (w + l))%Q).
  { apply Qle_shift_div_l; [done|]. rewrite Qmult_0_l.
    change 0%Q with (inject_Z 0). by rewrite <- Zle_Qle. }
  assert (H1 : (inject_Z w / inject_Z (w + l) <= 1)%Q).
  { apply Qle_shift_div_r; [done|]. rewrite Qmult_1_l.
    rewrite <- Zle_Qle. lia. }
  split; lra.
Qed.

Lemma rate_injective (w w' l : Z) :
  0 ≤ w → 0 ≤ w' → 0 < l → (rate w l == rate w' l)%Q → w = w'.
Proof.
  intros Hw Hw' Hl. unfold rate. cbn zeta.
  destruct (Z.ltb_spec 0 (w + l)); [|lia].
  destruct (Z.ltb_spec 0 (w' + l)); [|lia].
  intros Heq.
  assert (Ht : ¬ (inject_Z (w + l) == 0)%Q).
  { change 0%Q with (inject_Z 0). rewrite inject_Z_injective. lia. }
  assert (Ht' : ¬ (inject_Z (w' + l) == 0)%Q).
  { change 0%Q with (inject_Z 0). rewrite inject_Z_injective. lia. }
  assert (Hx : (inject_Z w * inject_Z (w' + l)
                == inject_Z w' * inject_Z (w + l))%Q).
  { transitivity ((inject_Z w / inject_Z (w + l) * (100 # 1))
                  * (inject_Z (w + l) * inject_Z (w' + l) / (100 # 1)))%Q.
    - field. done.
    - rewrite Heq. field. done. }
  assert (Hz : w * (w' + l) = w' * (w + l)).
  { apply inject_Z_injective. by rewrite !inject_Z_mult. }
  apply (Z.mul_reg_r _ _ l); lia.
Qed.

(** X24. A status whose counts are not negative and whose win rate
    belongs to its counts stays so under every update that gives both of
    wins and losses (not negative) or neither, and its win rate is then a
    percentage between 0 and 100. *)
Theorem status_rate_stays_sound (now : Q) (running_ : bool)
        (scans positions : Z) (o : Optional) (s : BotStatus) :
  sound s → paired o →
  (∀ w, o_wins o = Some w → 0 ≤ w) →
  (∀ l, o_losses o = Some l → 0 ≤ l) →
  let s' := update_bot_status now running_ scans positions o s in
  sound s' ∧ (0 <= win_rate s' ∧ win_rate s' <= 100 # 1)%Q.
Proof.
  intros (Hw & Hl & Hc) Hp Hwo Hlo s'.
  assert (Hs : sound s').
  { unfold s', sound, consistent, update_bot_status. cbn.
    unfold paired in Hp. clear s'.
    destruct (o_wins o) as [w|], (o_losses o) as [l|]; cbn.
    - split; [by apply Hwo|]. split; [by apply Hlo|]. reflexivity.
    - destruct Hp as [Hp _]. destruct Hp as [? [=]]. by eexists.
    - destruct Hp as [_ Hp]. destruct Hp as [? [=]]. by eexists.
    - done. }
  split; [done|].
  destruct Hs as (Hw' & Hl' & Hc'). unfold consistent in Hc'.
  rewrite Hc'. by apply rate_range.
Qed.

Lemma status_rate_stays_sound_witness :
  let s' := update_bot_status (2 # 1) false 0 0 first_update
                              (initial_status 0) in
  sound s' ∧ (0 <= win_rate s' ∧ win_rate s' <= 100 # 1)%Q.
Proof.
  apply (status_rate_stays_sound (2 # 1) false 0 0 first_update
                                 (initial_status 0)).
  - by vm_compute.
  - split; intros _; by eexists.
  - intros w [= <-]. lia.
  - intros l [= <-]. lia.
Defined.

(** X25. An update that gives wins without losses stores the new wins and
    keeps the old win rate: when the status has losses and the wins
    change, the rate shown no longer belongs to the counts shown. *)
Theorem wins_without_losses_leave_stale_rate (now : Q) (running_ : bool)
        (scans positions w : Z) (o : Optional) (s : BotStatus) :
  sound s → 0 < losses s →
  o_wins o = Some w → o_losses o = None → 0 ≤ w → w ≠ wins s →
  let s' := update_bot_status now running_ scans positions o s in
  wins s' = w ∧ (win_rate s' == win_rate s)%Q ∧ ¬ consistent s'.
Proof.
  intros (Hw & Hl & Hc) Hpos Ew El Hw' Hne s'.
  unfold s', consistent, update_bot_status. cbn. rewrite Ew, El. cbn.
  split; [done|]. split; [reflexivity|].
  intros Hstale. apply Hne. unfold consistent in Hc.
  rewrite Hc in Hstale. symmetry.
  by apply (rate_injective (wins s) w (losses s)).
Qed.

Lemma wins_without_losses_leave_stale_rate_witness :
  let s' := update_bot_status (9 # 1) true 7 0 (wins_only 4)
                              (three_of_four 0) in
  wins s' = 4 ∧ (win_rate s' == 75 # 1)%Q ∧ ¬ consistent s'.
Proof.
  apply (wins_without_losses_leave_stale_rate
           (9 # 1) true 7 0 4 (wins_only 4) (three_of_four 0)).
  - by vm_compute.
  - by vm_compute.
  - reflexivity.
  - reflexivity.
  - lia.
  - by vm_compute.
Defined.

End HealthFacts.

(* ================================================================== *)
(** ** The watcher *)
(* ================================================================== *)

Section WatcherFacts.
Import RPCPool Watcher.

Lemma set_status_keys (a : string) (h : nat) (wl : Watchlist) :
  map fst (set_status a h wl) = map fst wl.
Proof.
  unfold set_status. destruct (dict_get a wl) as [d |] eqn:E; [| done].
  apply dict_set_keys. apply dict_get_keys. by rewrite E.
Qed.

Lemma set_status_other (a k : string) (h : nat) (wl : Watchlist) :
  a ≠ k → dict_get k (set_status a h wl) = dict_get k wl.
Proof.
  intros Hne. unfold set_status. destruct (dict_get a wl) as [d |]; [| done].
  rewrite dict_get_set. apply String.eqb_neq in Hne. by rewrite Hne.
Qed.

Lemma set_status_self (a : string) (h : nat) (wl : Watchlist) (d : Candidate) :
  dict_get a wl = Some d →
  dict_get a (set_status a h wl) = Some (with_status d h).
Proof.
  intros Hget. unfold set_status. rewrite Hget.
  by rewrite dict_get_set, String.eqb_refl.
Qed.

Lemma survivors_in (t : Q) (wl : Watchlist) (a : string) (d : Candidate)
      (h : nat) :
  (a, d, h) ∈ survivors_to_check t wl → (a, d) ∈ wl ∧ due t d = Some h.
Proof.
  induction wl as [| [k d0] rest IH]; simpl.
  - by intros ?%elem_of_nil.
  - destruct (due t d0) as [h0 |] eqn:E.
    + intros [[= -> -> ->] | Hin]%elem_of_cons.
      * split; [left | done].
      * destruct (IH Hin). split; [by right | done].
    + intros Hin. destruct (IH Hin). split; [by right | done].
Qed.

Lemma survivors_found (t : Q) (wl : Watchlist) (a : string) (d : Candidate)
      (h : nat) :
  dict_get a wl = Some d → due t d = Some h →
  (a, d, h) ∈ survivors_to_check t wl.
Proof.
  induction wl as [| [k d0] rest IH]; simpl; [done |].
  destruct (String.eqb_spec k a) as [-> | Hne].
  - intros [= ->] ->. left.
  - intros Hget Hdue. specialize (IH Hget Hdue).
    destruct (due t d0); [by right | done].
Qed.

Lemma survivors_distinct (t : Q) (wl : Watchlist) :
  NoDup (map fst wl) →
  NoDup (map (fun x : string * Candidate * nat => x.1.1)
             (survivors_to_check t wl)).
Proof.
  induction wl as [| [k d0] rest IH]; simpl; [constructor |].
  intros [Hfresh Hnd]%NoDup_cons.
  destruct (due t d0) as [h0 |]; [| by apply IH].
  simpl. apply NoDup_cons. split; [| by apply IH].
  intros Hin. apply Hfresh.
  apply list_elem_of_fmap_1 in Hin as ([[a d] h] & -> & Hin).
  apply survivors_in in Hin as [Hin _].
  by apply (list_elem_of_fmap_2 fst) in Hin.
Qed.

Lemma analyses_of_cons (addr a : string) (h : nat)
      (calls : list (string * nat)) :
  analyses_of addr ((a, h) :: calls)
  = if String.eqb a addr then h :: analyses_of addr calls
    else analyses_of addr calls.
Proof. unfold analyses_of. simpl. by destruct (String.eqb a addr). Qed.

Lemma analyses_of_app (addr : string) (c1 c2 : list (string * nat)) :
  analyses_of addr (c1 ++ c2) = (analyses_of addr c1 ++ analyses_of addr c2)%list.
Proof. unfold analyses_of. by rewrite List.filter_app, map_app. Qed.

(** What the second loop does to one entry: it is analysed at most once,
    and its status is written exactly when that analysis returned. *)
Lemma check_survivors_entry (addr : string)
      (survivors : list (string * Candidate * nat)) :
  ∀ (wl : Watchlist) (d : Candidate),
    dict_get addr wl = Some d →
    NoDup (map (fun x : string * Candidate * nat => x.1.1) survivors) →
    (∀ d0 h, (addr, d0, h) ∈ survivors → d0 = d) →
    map fst (check_survivors survivors wl).2 = map fst wl
    ∧ ((analyses_of addr (check_survivors survivors wl).1 = []
        ∧ dict_get addr (check_survivors survivors wl).2 = Some d)
       ∨ ∃ h, (addr, d, h) ∈ survivors
              ∧ analyses_of addr (check_survivors survivors wl).1 = [h]
              ∧ dict_get addr (check_survivors survivors wl).2
                = Some (match symbol d with
                        | Some _ => with_status d h
                        | None => d
                        end)).
Proof.
  induction survivors as [| [[a d0] h0] rest IH]; intros wl d Hget Hnd Hsame.
  - simpl. split; [done |]. by left.
  - cbn [map] in Hnd. apply NoDup_cons in Hnd as [Hfresh Hnd].
    cbn [check_survivors].
    destruct (symbol d0) as [sym |] eqn:Hsym.
    + destruct (check_survivors rest (set_status a h0 wl)) as [calls wl'] eqn:E.
      cbn [fst snd]. rewrite analyses_of_cons.
      destruct (String.eqb_spec a addr) as [-> | Hne].
      * assert (d0 = d) as -> by (apply (Hsame d0 h0); left).
        destruct (IH (set_status addr h0 wl) (with_status d h0)) as [Hk Hcase].
        { by apply set_status_self. }
        { done. }
        { intros d1 h1 Hin. exfalso. apply Hfresh.
          by apply (list_elem_of_fmap_2
                      (fun x : string * Candidate * nat => x.1.1)) in Hin. }
        rewrite E in Hk, Hcase. cbn [fst snd] in Hk, Hcase.
        split; [by rewrite Hk, set_status_keys |].
        right. exists h0. split; [left |].
        destruct Hcase as [[Hnone Hget'] | (h & Hin & _)].
        -- rewrite Hnone, Hsym. by split.
        -- exfalso. apply Hfresh.
           by apply (list_elem_of_fmap_2
                       (fun x : string * Candidate * nat => x.1.1)) in Hin.
      * destruct (IH (set_status a h0 wl) d) as [Hk Hcase].
        { by rewrite set_status_other. }
        { done. }
        { intros d1 h1 Hin. apply (Hsame d1 h1). by right. }
        rewrite E in Hk, Hcase. cbn [fst snd] in Hk, Hcase.
        split; [by rewrite Hk, set_status_keys |].
        destruct Hcase as [Hleft | (h & Hin & Hrest)]; [by left |].
        right. exists h. split; [by right | done].
    + cbn [fst snd]. rewrite analyses_of_cons. split; [done |].
      destruct (String.eqb_spec a addr) as [-> | Hne].
      * assert (d0 = d) as -> by (apply (Hsame d0 h0); left).
        right. exists h0. split; [left |]. by rewrite Hsym.
      * by left.
Qed.

Lemma wake_entry (addr : string) (t : Q) (wl : Watchlist) (d : Candidate) :
  NoDup (map fst wl) →
  dict_get addr wl = Some d →
  NoDup (map fst (wake t wl).2)
  ∧ ((analyses_of addr (wake t wl).1 = []
      ∧ dict_get addr (wake t wl).2 = Some d)
     ∨ ∃ h, due t d = Some h
            ∧ analyses_of addr (wake t wl).1 = [h]
            ∧ dict_get addr (wake t wl).2
              = Some (match symbol d with
                      | Some _ => with_status d h
                      | None => d
                      end)).
Proof.
  intros Hnd Hget. unfold wake.
  destruct (check_survivors_entry addr (survivors_to_check t wl) wl d)
    as [Hk Hcase].
  - done.
  - by apply survivors_distinct.
  - intros d0 h Hin. apply survivors_in in Hin as [Hin _].
    apply (dict_get_elem_of _ _ _ Hnd) in Hin. congruence.
  - split; [by rewrite Hk |].
    destruct Hcase as [Hleft | (h & Hin & Hrest)]; [by left |].
    right. exists h. split; [| done]. by apply survivors_in in Hin as [_ ?].
Qed.

Lemma add_found_entry (addr : string) (d : Candidate) (found : Watchlist) :
  ∀ wl : Watchlist,
    NoDup (map fst wl) → dict_get addr wl = Some d →
    NoDup (map fst (add_found found wl))
    ∧ dict_get addr (add_found found wl) = Some d.
Proof.
  unfold add_found.
  induction found as [| [k d0] rest IH]; intros wl Hnd Hget; [done |].
  cbn [fold_left]. destruct (dict_get k wl) as [d1 |] eqn:E; [by apply IH |].
  assert (Hnew : k ∉ map fst wl).
  { intros Hin. apply dict_get_keys in Hin. rewrite E in Hin.
    by destruct Hin. }
  apply IH.
  - rewrite dict_set_keys_new by done. apply NoDup_app.
    split; [done |]. split; [| apply NoDup_singleton].
    intros x Hx ->%list_elem_of_singleton. done.
  - rewrite dict_get_set.
    destruct (String.eqb_spec k addr) as [-> | _]; [congruence | done].
Qed.

(** One turn of the run, seen from one entry. *)
Lemma run_turn (addr : string) (found : Watchlist) (t : Q)
      (rest : list (Watchlist * Q)) (wl : Watchlist) (d : Candidate) :
  NoDup (map fst wl) → dict_get addr wl = Some d →
  ∃ wl1 : Watchlist,
    NoDup (map fst wl1)
    ∧ (run ((found, t) :: rest) wl).2 = (run rest wl1).2
    ∧ ((dict_get addr wl1 = Some d
        ∧ analyses_of addr (run ((found, t) :: rest) wl).1
          = analyses_of addr (run rest wl1).1)
       ∨ ∃ h, due t d = Some h
              ∧ dict_get addr wl1
                = Some (match symbol d with
                        | Some _ => with_status d h
                        | None => d
                        end)
              ∧ analyses_of addr (run ((found, t) :: rest) wl).1
                = h :: analyses_of addr (run rest wl1).1).
Proof.
  intros Hnd Hget.
  destruct (add_found_entry addr d found wl Hnd Hget) as [Hnd0 Hget0].
  destruct (wake_entry addr t (add_found found wl) d Hnd0 Hget0)
    as [Hnd1 Hcase].
  cbn [run].
  destruct (wake t (add_found found wl)) as [calls wl1].
  cbn [fst snd] in Hnd1, Hcase.
  destruct (run rest wl1) as [later final] eqn:E.
  exists wl1. rewrite E. cbn [fst snd]. rewrite analyses_of_app.
  split; [done |]. split; [done |].
  destruct Hcase as [[-> Hget1] | (h & Hdue & -> & Hget1)].
  - left. by split.
  - right. exists h. by repeat split.
Qed.

(** An entry on which no analysis is ever due is left alone. *)
Lemma run_never_due (addr : string) (d : Candidate)
      (turns : list (Watchlist * Q)) :
  (∀ t, due t d = None) →
  ∀ wl : Watchlist,
    NoDup (map fst wl) → dict_get addr wl = Some d →
    analyses_of addr (run turns wl).1 = []
    ∧ dict_get addr (run turns wl).2 = Some d.
Proof.
  intros Hnever.
  induction turns as [| [found t] rest IH]; intros wl Hnd Hget; [done |].
  destruct (run_turn addr found t rest wl d Hnd Hget)
    as (wl1 & Hnd1 & -> & [[Hget1 ->] | (h & Hdue & _)]).
  - by apply IH.
  - by rewrite Hnever in Hdue.
Qed.

Lemma due_hours (t : Q) (d : Candidate) (h : nat) :
  due t d = Some h →
  (default "new" (status d) = "new" ∧ h = 24%nat)
  ∨ (default "new" (status d) = "checked_24h" ∧ h = 48%nat).
Proof.
  unfold due. cbn zeta.
  destruct (String.eqb_spec (default "new" (status d)) "new") as [Hn | Hn].
  - destruct (Qlt_bool (86400 # 1) _); cbn [andb].
    + intros [= <-]. by left.
    + rewrite Hn. by change (String.eqb "new" "checked_24h") with false.
  - cbn [andb].
    destruct (String.eqb_spec (default "new" (status d)) "checked_24h")
      as [Hc | Hc]; [| done].
    destruct (Qlt_bool (172800 # 1) _); cbn [andb]; [| done].
    intros [= <-]. by right.
Qed.

Lemma run_checked_24 (addr : string) (turns : list (Watchlist * Q)) :
  ∀ (wl : Watchlist) (d : Candidate),
    NoDup (map fst wl) → dict_get addr wl = Some d →
    is_Some (symbol d) →
    default "new" (status d) = "checked_24h" →
    analyses_of addr (run turns wl).1 = []
    ∨ analyses_of addr (run turns wl).1 = [48%nat].
Proof.
  induction turns as [| [found t] rest IH]; intros wl d Hnd Hget [sym Hsym] Hst;
    [by left |].
  destruct (run_turn addr found t rest wl d Hnd Hget)
    as (wl1 & Hnd1 & _ & [[Hget1 ->] | (h & Hdue & Hget1 & ->)]).
  - by apply (IH wl1 d).
  - apply due_hours in Hdue as [[Hn _] | [_ ->]]; [congruence |].
    right. f_equal. rewrite Hsym in Hget1.
    apply (run_never_due addr (with_status d 48) rest); [| done | done].
    intros t'. reflexivity.
Qed.

(** X26. In a run of the watcher task, whatever the hunter adds in
    between, an entry that has its symbol is analysed at most twice, first
    for 24 hours and then for 48: when new (or without a status) never,
    for 24 hours, or for both in that order; when already checked at 24
    hours at most for 48; with any other status never. An entry without
    its symbol makes its analysis raise before the status is written: its
    record is never changed, so it is selected again at every wake-up at
    which an analysis of that record is due. *)
Theorem watcher_analyses_at_most_twice
        (turns : list (Watchlist * Q)) (watchlist : Watchlist)
        (addr : string) (data : Candidate) :
  NoDup (map fst watchlist) →
  dict_get addr watchlist = Some data →
  let made := analyses_of addr (run turns watchlist).1 in
  let final := (run turns watchlist).2 in
  let status := default "new" (status data) in
  match symbol data with
  | Some _ =>
      if String.eqb status "new"
      then made = [] ∨ made = [24%nat] ∨ made = [24%nat; 48%nat]
      else if String.eqb status "checked_24h"
      then made = [] ∨ made = [48%nat]
      else made = []
  | None =>
      dict_get addr final = Some data
      ∧ ∀ t h, due t data = Some h →
               (addr, data, h) ∈ survivors_to_check t final
  end.
Proof.
  intros Hnd Hget. cbn zeta.
  destruct (symbol data) as [sym |] eqn:Hsym.
  - destruct (String.eqb_spec (default "new" (status data)) "new") as [Hn | Hn].
    + revert watchlist data Hnd Hget Hsym Hn.
      induction turns as [| [found t] rest IH];
        intros wl d Hnd Hget Hsym Hn; [by left |].
      destruct (run_turn addr found t rest wl d Hnd Hget)
        as (wl1 & Hnd1 & _ & [[Hget1 ->] | (h & Hdue & Hget1 & ->)]).
      * by apply (IH wl1 d).
      * apply due_hours in Hdue as [[_ ->] | [Hc _]]; [| congruence].
        rewrite Hsym in Hget1.
        assert (Hlater : analyses_of addr (run rest wl1).1 = []
                         ∨ analyses_of addr (run rest wl1).1 = [48%nat]).
        { apply (run_checked_24 addr rest wl1 (with_status d 24));
            [done | done | by exists sym | done]. }
        destruct Hlater as [-> | ->]; [right; by left | right; by right].
    + destruct (String.eqb_spec (default "new" (status data)) "checked_24h")
        as [Hc | Hc].
      * by apply (run_checked_24 addr turns watchlist data).
      * apply (run_never_due addr data turns); [| done | done].
        intros t. unfold due. cbn zeta.
        apply String.eqb_neq in Hn, Hc. by rewrite Hn, Hc.
  - assert (Hkept : dict_get addr (run turns watchlist).2 = Some data).
    { revert watchlist Hnd Hget.
      induction turns as [| [found t] rest IH]; intros wl Hnd Hget; [done |].
      destruct (run_turn addr found t rest wl data Hnd Hget)
        as (wl1 & Hnd1 & -> & [[Hget1 _] | (h & _ & Hget1 & _)]).
      - by apply IH.
      - rewrite Hsym in Hget1. by apply IH. }
    split; [done |]. intros t h Hdue. by apply survivors_found.
Qed.

Lemma watcher_analyses_at_most_twice_witness :
  (let made := analyses_of PriceCalculator.example_token_mint
                           (run example_turns example_watchlist).1 in
   made = [] ∨ made = [24%nat] ∨ made = [24%nat; 48%nat])
  ∧ dict_get PriceCalculator.example_pool_address
             (run example_turns example_watchlist).2
    = Some (mkCandidate (Some 0%Q) (Some "new") None).
Proof.
  assert (Hnd : NoDup (map fst example_watchlist)).
  { repeat constructor; [| by intros ?%elem_of_nil].
    by intros [= ]%list_elem_of_singleton. }
  split.
  - exact (watcher_analyses_at_most_twice
             example_turns example_watchlist
             PriceCalculator.example_token_mint
             (mkCandidate (Some 0%Q) (Some "new") (Some "TKN"))
             Hnd eq_refl).
  - exact (proj1 (watcher_analyses_at_most_twice
                    example_turns example_watchlist
                    PriceCalculator.example_pool_address
                    (mkCandidate (Some 0%Q) (Some "new") None)
                    Hnd eq_refl)).
Defined.

End WatcherFacts.

(* ================================================================== *)
(** ** The bot and its trader *)
(* ================================================================== *)

Section ProgramFacts.
Import SniperBot Lifecycle.






End ProgramFacts.
